(** * The alpha-beta O(N^3) Hungarian algorithm (hungarian.cpp and its two
    sibling formulations): a shallow embedding and its verification.

    Conventions of the embedding.
    - [long long] values are integers in [Z]; every [+], [-] and [*] of the
      source is followed by [wrap], the two's complement wrap-around to 64
      bits, and [/] is [Z.quot] (truncation towards zero).
    - [N] and the [int] loop counters, which run from [0] to [N], are
      natural numbers.
    - [vector<T>] is a [list T]; [v[i]] for a loop counter [i] is the total
      lookup [v !!! i] and [v[i] = x] is [<[i:=x]> v] (all vectors of the
      program have size [N] and every loop counter runs below [N]).
    - an [int] read from a vector and then used as a subscript
      ([mate_U[u]], [nhbor[u]], [parent[v]], [mate_V[v]]) goes through
      [index], which fails with [OutOfBounds] outside [0, N).
    - [while (true)] and the recursion of [augment] take a fuel argument and
      fail with [OutOfFuel] when it is exhausted.
    - the standard input is the matrix it holds, [N] rows of [N] integers
      that [long long] holds; a stream on which [cin >>] fails is outside
      the embedding. *)

From Stdlib Require Import ZArith Lia.
From stdpp Require Import base option list.

Local Open Scope Z_scope.

(** ** Machine integers *)

Definition ll_max : Z := 2 ^ 63 - 1.
Definition ll_min : Z := - 2 ^ 63.

Definition wrap (z : Z) : Z := (z + 2 ^ 63) mod 2 ^ 64 - 2 ^ 63.

Definition ll_add (a b : Z) : Z := wrap (a + b).
Definition ll_sub (a b : Z) : Z := wrap (a - b).
Definition ll_mul (a b : Z) : Z := wrap (a * b).
Definition ll_div (a b : Z) : Z := Z.quot a b.

(** ** Failure *)

Inductive error : Set := OutOfBounds | OutOfFuel.

Inductive res (A : Type) : Type :=
| Ok (a : A)
| Err (e : error).
Arguments Ok {A} a.
Arguments Err {A} e.

#[global] Instance res_ret : MRet res := λ A a, Ok a.
#[global] Instance res_bind : MBind res := λ A B f m,
  match m with
  | Ok a => f a
  | Err e => Err e
  end.

(** An [int] used as a subscript of a vector of size [N]. *)
Definition index (N : nat) (i : Z) : res nat :=
  if bool_decide (0 ≤ i < Z.of_nat N) then Ok (Z.to_nat i) else Err OutOfBounds.

(** ** Loops *)

(** [for (int i = 0; i < n; i++) s = body i s] *)
Definition for_loop {S : Type} (n : nat) (body : nat → S → S) (s : S) : S :=
  foldl (λ s i, body i s) s (seq 0 n).

(** The same loop when the body can fail. *)
Fixpoint for_each {S : Type} (body : nat → S → res S) (l : list nat) (s : S) : res S :=
  match l with
  | [] => Ok s
  | i :: l => s' ← body i s; for_each body l s'
  end.

(** The number of [i < n] with [f i]. *)
Fixpoint count (f : nat → bool) (n : nat) : nat :=
  match n with
  | O => O
  | S n => count f n + (if f n then 1 else 0)
  end.

(** ** Global state of the program *)

Record state : Type := State {
  mate_V : list Z;
  mate_U : list Z;
  nhbor : list Z;
  parent : list Z;
  alpha : list Z;
  beta : list Z;
  slack : list Z;
  label_V : list bool;
  label_U : list bool
}.

Definition set_mate_V (s : state) (x : list Z) : state :=
  State x (mate_U s) (nhbor s) (parent s) (alpha s) (beta s) (slack s) (label_V s) (label_U s).
Definition set_mate_U (s : state) (x : list Z) : state :=
  State (mate_V s) x (nhbor s) (parent s) (alpha s) (beta s) (slack s) (label_V s) (label_U s).
Definition set_nhbor (s : state) (x : list Z) : state :=
  State (mate_V s) (mate_U s) x (parent s) (alpha s) (beta s) (slack s) (label_V s) (label_U s).
Definition set_parent (s : state) (x : list Z) : state :=
  State (mate_V s) (mate_U s) (nhbor s) x (alpha s) (beta s) (slack s) (label_V s) (label_U s).
Definition set_alpha (s : state) (x : list Z) : state :=
  State (mate_V s) (mate_U s) (nhbor s) (parent s) x (beta s) (slack s) (label_V s) (label_U s).
Definition set_beta (s : state) (x : list Z) : state :=
  State (mate_V s) (mate_U s) (nhbor s) (parent s) (alpha s) x (slack s) (label_V s) (label_U s).
Definition set_slack (s : state) (x : list Z) : state :=
  State (mate_V s) (mate_U s) (nhbor s) (parent s) (alpha s) (beta s) x (label_V s) (label_U s).
Definition set_label_V (s : state) (x : list bool) : state :=
  State (mate_V s) (mate_U s) (nhbor s) (parent s) (alpha s) (beta s) (slack s) x (label_U s).
Definition set_label_U (s : state) (x : list bool) : state :=
  State (mate_V s) (mate_U s) (nhbor s) (parent s) (alpha s) (beta s) (slack s) (label_V s) x.

(** The doubled cost matrix [c] and [min_col] are written by [read_input]
    only; the solver reads them. [cost c v u] is [c[v][u]]. *)
Definition cost (c : list (list Z)) (v u : nat) : Z := (c !!! v) !!! u.

(** ** src/hungarian.cpp *)

Definition unlabelled_U (s : state) (u : nat) : bool := negb (label_U s !!! u).
Definition unmatched_V (s : state) (v : nat) : bool := bool_decide (mate_V s !!! v = -1).
Definition unmatched_U (s : state) (u : nat) : bool := bool_decide (mate_U s !!! u = -1).
Definition admissible_U (s : state) (u : nat) : bool := bool_decide (slack s !!! u = 0).

Fixpoint augment (fuel : nat) (N : nat) (v exposed_u : nat) (s : state) : res state :=
  match fuel with
  | O => Err OutOfFuel
  | S fuel =>
    let aux := mate_V s !!! v in
    let s := set_mate_V s (<[v := Z.of_nat exposed_u]> (mate_V s)) in
    let s := set_mate_U s (<[exposed_u := Z.of_nat v]> (mate_U s)) in
    if bool_decide (parent s !!! v ≠ -1) then
      p ← index N (parent s !!! v);
      a ← index N aux;
      augment fuel N p a s
    else Ok s
  end.

Definition update_slack (N : nat) (c : list (list Z)) (v : nat) (s : state) : state :=
  for_loop N (λ u (s : state),
    if unlabelled_U s u then
      let bound := ll_sub (ll_sub (cost c v u) (alpha s !!! v)) (beta s !!! u) in
      if bool_decide (0 ≤ bound) && bool_decide (bound < slack s !!! u) then
        set_nhbor (set_slack s (<[u := bound]> (slack s))) (<[u := Z.of_nat v]> (nhbor s))
      else s
    else s) s.

(** The minimum of the slacks of the unlabelled columns, [theta] before it is
    halved. *)
Definition min_slack (N : nat) (s : state) : Z :=
  for_loop N (λ u (theta : Z),
    if unlabelled_U s u then Z.min theta (slack s !!! u) else theta) ll_max.

Definition shift (N : nat) (theta : Z) (s : state) : state :=
  for_loop N (λ i (s : state),
    let s :=
      if (label_V s !!! i : bool) then set_alpha s (<[i := ll_add (alpha s !!! i) theta]> (alpha s))
      else set_alpha s (<[i := ll_sub (alpha s !!! i) theta]> (alpha s)) in
    if (label_U s !!! i : bool) then set_beta s (<[i := ll_sub (beta s !!! i) theta]> (beta s))
    else set_beta s (<[i := ll_add (beta s !!! i) theta]> (beta s))) s.

Definition update_alpha_beta (N : nat) (s : state) : Z * state :=
  let theta := min_slack N s in
  if bool_decide (theta > 0) then
    let theta := ll_div theta 2 in
    (theta, shift N theta s)
  else (theta, s).

(** The scan of the unlabelled columns inside the [while] loop: it returns
    from the function at the first admissible unmatched column, and
    otherwise collects the admissible columns. *)
Inductive scan_result : Type :=
| Found (u : nat) (s : state)
| Collected (admissibles : list nat) (s : state).

Fixpoint scan (us : list nat) (theta : Z) (admissibles : list nat) (s : state)
    : scan_result :=
  match us with
  | [] => Collected admissibles s
  | u :: us =>
    if unlabelled_U s u then
      let s := set_slack s (<[u := ll_sub (slack s !!! u) (ll_mul 2 theta)]> (slack s)) in
      if admissible_U s u then
        if unmatched_U s u then Found u s
        else scan us theta (admissibles ++ [u]) s
      else scan us theta admissibles s
    else scan us theta admissibles s
  end.

(** Body of [for ( int u: admissibles )]. *)
Definition promote (N : nat) (c : list (list Z)) (u : nat) (s : state) : res state :=
  let s := set_label_U s (<[u := true]> (label_U s)) in
  m ← index N (mate_U s !!! u);
  let s := set_label_V s (<[m := true]> (label_V s)) in
  let s := set_parent s (<[m := nhbor s !!! u]> (parent s)) in
  Ok (update_slack N c m s).

(** One turn of the [while (true)] loop. *)
Definition search_body (N : nat) (c : list (list Z)) (s : state) : res scan_result :=
  let '(theta, s) := update_alpha_beta N s in
  match scan (seq 0 N) theta [] s with
  | Found u s => Ok (Found u s)
  | Collected admissibles s =>
    s' ← for_each (promote N c) admissibles s;
    Ok (Collected admissibles s')
  end.

Fixpoint search_augmenting_alternating_path (fuel : nat) (N : nat)
    (c : list (list Z)) (s : state) : res (nat * state) :=
  match fuel with
  | O => Err OutOfFuel
  | S fuel =>
    r ← search_body N c s;
    match r with
    | Found u s => Ok (u, s)
    | Collected _ s => search_augmenting_alternating_path fuel N c s
    end
  end.

Definition initialize_search (N : nat) (s : state) : state :=
  let s := set_nhbor s (replicate N (-1)) in
  let s := set_parent s (replicate N (-1)) in
  let s := set_slack s (replicate N ll_max) in
  let s := set_label_V s (replicate N false) in
  set_label_U s (replicate N false).

Definition initialize_alpha_beta (N : nat) (min_col : list Z) : state :=
  let s := State [] [] [] [] [] [] [] [] [] in
  let s := set_mate_V s (replicate N (-1)) in
  let s := set_mate_U s (replicate N (-1)) in
  let s := set_alpha s (replicate N 0) in
  let s := set_beta s (replicate N 0) in
  for_loop N (λ u (s : state), set_beta s (<[u := min_col !!! u]> (beta s))) s.

(** The seeding of a phase: every unmatched row becomes a labelled root. *)
Definition seed_roots (N : nat) (c : list (list Z)) (s : state) : state :=
  for_loop N (λ v (s : state),
    if unmatched_V s v then
      update_slack N c v (set_label_V s (<[v := true]> (label_V s)))
    else s) s.

(** Body of the [for] loop of [hungarian_algorithm]. *)
Definition phase (fuel : nat) (N : nat) (c : list (list Z)) (s : state) : res state :=
  let s := initialize_search N s in
  let s := seed_roots N c s in
  '(u, s) ← search_augmenting_alternating_path fuel N c s;
  v ← index N (nhbor s !!! u);
  augment fuel N v u s.

(** The state after the first [k] turns of the loop of
    [hungarian_algorithm]. *)
Fixpoint phases (fuel : nat) (N : nat) (c : list (list Z)) (k : nat) (s : state)
    : res state :=
  match k with
  | O => Ok s
  | S k => s' ← phases fuel N c k s; phase fuel N c s'
  end.

Definition hungarian_algorithm (fuel : nat) (N : nat) (c : list (list Z))
    (min_col : list Z) : res state :=
  phases fuel N c N (initialize_alpha_beta N min_col).

(** [read_input], from the matrix [inp] that the stream holds in row-major
    order: the read [cin >> c[v][u]] stores the entry [inp[v][u]]. This is
    what the program does on the streams that hold [N] rows of [N] integers
    that [long long] holds ([ll_input] below); on the others (a token
    outside [long long], a missing entry) [cin >>] fails, which this
    function does not describe. *)
Definition read_input (N : nat) (inp : list (list Z)) : list (list Z) * list Z :=
  let c := replicate N (replicate N 0) in
  let min_col := replicate N ll_max in
  for_loop N (λ v cm,
    for_loop N (λ u '(c, min_col),
      let x := ll_mul (cost inp v u) 2 in
      (<[v := <[u := x]> (c !!! v)]> c, <[u := Z.min (min_col !!! u) x]> min_col)) cm)
    (c, min_col).

Inductive output : Type :=
| Assignment (mates : list Z)
| OptCost (z : Z).

Definition main (fuel : nat) (match_ : bool) (N : nat) (inp : list (list Z)) : res output :=
  let '(c, min_col) := read_input N inp in
  s ← hungarian_algorithm fuel N c min_col;
  if match_ then Ok (Assignment (for_loop N (λ v out, out ++ [mate_V s !!! v]) []))
  else
    let opt_cost := for_loop N (λ i opt_cost,
      ll_add opt_cost (ll_add (alpha s !!! i) (beta s !!! i))) 0 in
    Ok (OptCost (ll_div opt_cost 2)).

(** ** src/unnamed/part_002

    [augment], [update_slack], [initialize_alpha_beta], [update_alpha_beta],
    [initialize_search] and [read_input] are those of hungarian.cpp, word for
    word; [search] calls [augment] itself where
    [search_augmenting_alternating_path] returns the column. The fuel of
    its [while] loop ([turns]) and that of [augment] are separate
    arguments. *)
Module Part002.

Fixpoint search (turns : nat) (fuel : nat) (N : nat) (c : list (list Z))
    (s : state) : res state :=
  match turns with
  | O => Err OutOfFuel
  | S turns =>
    let '(theta, s) := update_alpha_beta N s in
    match scan (seq 0 N) theta [] s with
    | Found u s =>
      v ← index N (nhbor s !!! u);
      augment fuel N v u s
    | Collected admissibles s =>
      s' ← for_each (promote N c) admissibles s;
      search turns fuel N c s'
    end
  end.

Definition phase (fuel : nat) (N : nat) (c : list (list Z)) (s : state) : res state :=
  let s := initialize_search N s in
  let s := seed_roots N c s in
  search fuel fuel N c s.

Fixpoint phases (fuel : nat) (N : nat) (c : list (list Z)) (k : nat) (s : state)
    : res state :=
  match k with
  | O => Ok s
  | S k => s' ← phases fuel N c k s; phase fuel N c s'
  end.

Definition hungarian_algorithm (fuel : nat) (N : nat) (c : list (list Z))
    (min_col : list Z) : res state :=
  phases fuel N c N (initialize_alpha_beta N min_col).

Definition main (fuel : nat) (match_ : bool) (N : nat) (inp : list (list Z))
    : res output :=
  let '(c, min_col) := read_input N inp in
  s ← hungarian_algorithm fuel N c min_col;
  if match_ then Ok (Assignment (for_loop N (λ v out, out ++ [mate_V s !!! v]) []))
  else
    let opt_cost := for_loop N (λ i opt_cost,
      ll_add opt_cost (ll_add (alpha s !!! i) (beta s !!! i))) 0 in
    Ok (OptCost (ll_div opt_cost 2)).

End Part002.

(** ** src/unnamed/part_001

    [augment] and [update_slack] are those of hungarian.cpp. [search] runs
    its loop at most [N] times, halves [theta] before it tests it, and
    returns without an augmentation when the loop runs to its end; the body
    of its loop over [admissibles] is [promote], the two labels being set by
    the one statement [label_U[u] = label_V[mate_U[u]] = true]; [main] adds
    up the costs of the matched edges. *)
Module Part001.

(** How [search] returned. *)
Inductive exit : Set := Augmented | FellThrough.

Fixpoint search_for (i : nat) (fuel : nat) (N : nat) (c : list (list Z))
    (s : state) : res (exit * state) :=
  match i with
  | O => Ok (FellThrough, s)
  | S i =>
    let theta := min_slack N s in
    let theta := ll_div theta 2 in
    let s := if bool_decide (theta > 0) then shift N theta s else s in
    match scan (seq 0 N) theta [] s with
    | Found u s =>
      v ← index N (nhbor s !!! u);
      s' ← augment fuel N v u s;
      Ok (Augmented, s')
    | Collected admissibles s =>
      s' ← for_each (promote N c) admissibles s;
      search_for i fuel N c s'
    end
  end.

Definition search (fuel : nat) (N : nat) (c : list (list Z)) (s : state)
    : res (exit * state) :=
  search_for N fuel N c s.

(** Body of the main cycle. *)
Definition phase (fuel : nat) (N : nat) (c : list (list Z)) (s : state) : res state :=
  let s := initialize_search N s in
  let s := seed_roots N c s in
  r ← search fuel N c s;
  Ok (snd r).

Fixpoint phases (fuel : nat) (N : nat) (c : list (list Z)) (k : nat) (s : state)
    : res state :=
  match k with
  | O => Ok s
  | S k => s' ← phases fuel N c k s; phase fuel N c s'
  end.

Definition main (fuel : nat) (N : nat) (inp : list (list Z)) : res Z :=
  let '(c, min_col) := read_input N inp in
  s ← phases fuel N c N (initialize_alpha_beta N min_col);
  min_cost ← for_each (λ v (min_cost : Z),
      u ← index N (mate_V s !!! v);
      Ok (ll_add min_cost (cost c v u))) (seq 0 N) 0;
  Ok (ll_div min_cost 2).

End Part001.


(** * Vocabulary of the specification *)

(** The [bound] that [update_slack v] computes for column [u]. *)
Definition bound (c : list (list Z)) (s : state) (v u : nat) : Z :=
  ll_sub (ll_sub (cost c v u) (alpha s !!! v)) (beta s !!! u).

(** The reduced cost of the edge [(v, u)], as an integer. *)
Definition reduced (c : list (list Z)) (s : state) (v u : nat) : Z :=
  cost c v u - alpha s !!! v - beta s !!! u.

(** The slack of column [u] after [slack[u] -= 2LL*theta]. *)
Definition decr (s : state) (theta : Z) (u : nat) : Z :=
  ll_sub (slack s !!! u) (ll_mul 2 theta).

(** ** The structure of the state, whatever the costs *)

Section Structure.
Context (N : nat).

(** The vectors that live across phases, and those of one phase. *)
Definition sized (s : state) : Prop :=
  length (mate_V s) = N ∧ length (mate_U s) = N ∧
  length (alpha s) = N ∧ length (beta s) = N.

Definition sized_search (s : state) : Prop :=
  length (nhbor s) = N ∧ length (parent s) = N ∧ length (slack s) = N ∧
  length (label_V s) = N ∧ length (label_U s) = N.

(** [mate_V] and [mate_U] are partial maps inverse of each other. *)
Definition matching (s : state) : Prop :=
  (∀ v, (v < N)%nat → mate_V s !!! v = -1 ∨
     ∃ u, (u < N)%nat ∧ mate_V s !!! v = Z.of_nat u ∧ mate_U s !!! u = Z.of_nat v) ∧
  (∀ u, (u < N)%nat → mate_U s !!! u = -1 ∨
     ∃ v, (v < N)%nat ∧ mate_U s !!! u = Z.of_nat v ∧ mate_V s !!! v = Z.of_nat u).

Definition matched_rows (s : state) : nat := count (λ v, negb (unmatched_V s v)) N.
Definition matched_cols (s : state) : nat := count (λ u, negb (unmatched_U s u)) N.
Definition labelled_cols (s : state) : nat := count (λ u, label_U s !!! u) N.

(** The labelled rows are the unmatched rows and the mates of the labelled
    columns; only matched columns are labelled. *)
Definition labels_ok (s : state) : Prop :=
  (∀ v, (v < N)%nat →
     label_V s !!! v = true ↔
     (mate_V s !!! v = -1 ∨
      ∃ u, (u < N)%nat ∧ mate_V s !!! v = Z.of_nat u ∧ label_U s !!! u = true)) ∧
  (∀ u, (u < N)%nat → label_U s !!! u = true → mate_U s !!! u ≠ -1).

(** [nhbor[u]] is a labelled row, or still [-1] with [slack[u]] odd (the
    odd [ll_max] less even amounts) and [u] unlabelled. *)
Definition nhbor_ok (s : state) : Prop :=
  ∀ u, (u < N)%nat →
    (∃ v, (v < N)%nat ∧ nhbor s !!! u = Z.of_nat v ∧ label_V s !!! v = true) ∨
    (nhbor s !!! u = -1 ∧ (slack s !!! u) mod 2 = 1 ∧ label_U s !!! u = false).

(** The parent of a labelled matched row is the [nhbor] of its mate, a row
    labelled earlier ([rk] orders the rows by the time they were labelled);
    an unmatched row has no parent. *)
Definition tree_ok (s : state) : Prop :=
  ∃ rk : nat → nat,
    ∀ v, (v < N)%nat → label_V s !!! v = true →
      (rk v ≤ labelled_cols s)%nat ∧
      (mate_V s !!! v = -1 → parent s !!! v = -1) ∧
      (∀ u, (u < N)%nat → mate_V s !!! v = Z.of_nat u →
         ∃ p, (p < N)%nat ∧ parent s !!! v = Z.of_nat p ∧
              nhbor s !!! u = Z.of_nat p ∧ label_V s !!! p = true ∧
              (rk p < rk v)%nat).

Definition structure (s : state) : Prop :=
  sized s ∧ sized_search s ∧ matching s ∧ labels_ok s ∧ nhbor_ok s ∧ tree_ok s.

(** A column that the loop over [admissibles] may take. *)
Definition promotable (s : state) (u : nat) : Prop :=
  (u < N)%nat ∧ unlabelled_U s u = true ∧ slack s !!! u = 0 ∧
  unmatched_U s u = false.

End Structure.

(** ** Augmentation *)

Section Augmentation.
Context (N : nat).

(** What a call [augment(v, e)] relies on: the matching is consistent except
    that no row is matched to column [e] ([mate_U[e]] may be stale), and
    below [v] in the order [rk] every labelled row has no parent when it
    is unmatched and a labelled parent of smaller rank when it is matched. *)
Definition augment_pre (rk : nat → nat) (s : state) (v e : nat) : Prop :=
  length (mate_V s) = N ∧ length (mate_U s) = N ∧
  (v < N)%nat ∧ (e < N)%nat ∧ label_V s !!! v = true ∧
  (∀ w, (w < N)%nat → mate_V s !!! w = -1 ∨
     ∃ u, (u < N)%nat ∧ mate_V s !!! w = Z.of_nat u ∧
          mate_U s !!! u = Z.of_nat w ∧ u ≠ e) ∧
  (∀ u, (u < N)%nat → u ≠ e → mate_U s !!! u = -1 ∨
     ∃ w, (w < N)%nat ∧ mate_U s !!! u = Z.of_nat w ∧ mate_V s !!! w = Z.of_nat u) ∧
  (∀ w, (w < N)%nat → label_V s !!! w = true → (rk w ≤ rk v)%nat →
     (mate_V s !!! w = -1 → parent s !!! w = -1) ∧
     (∀ u, (u < N)%nat → mate_V s !!! w = Z.of_nat u →
        ∃ p, (p < N)%nat ∧ parent s !!! w = Z.of_nat p ∧
             label_V s !!! p = true ∧ (rk p < rk w)%nat)).

(** What it leaves: a consistent matching with one more matched row, whose
    edges are old edges, the edge [(v, e)], or edges from the parent of a
    labelled row to the former mate of that row; no row and no column
    loses its mate. *)
Definition augment_post (rk : nat → nat) (s : state) (v e : nat) (s' : state) : Prop :=
  nhbor s' = nhbor s ∧ parent s' = parent s ∧ alpha s' = alpha s ∧
  beta s' = beta s ∧ slack s' = slack s ∧
  label_V s' = label_V s ∧ label_U s' = label_U s ∧
  length (mate_V s') = N ∧ length (mate_U s') = N ∧
  matching N s' ∧
  matched_rows N s' = S (matched_rows N s) ∧
  matched_cols N s' =
    (matched_cols N s + (if unmatched_U s e then 1 else 0))%nat ∧
  (∀ w u, (w < N)%nat → (u < N)%nat → mate_V s' !!! w = Z.of_nat u →
     mate_V s !!! w = Z.of_nat u ∨ (w = v ∧ u = e) ∨
     ∃ w', (w' < N)%nat ∧ label_V s !!! w' = true ∧ (rk w' ≤ rk v)%nat ∧
           mate_V s !!! w' = Z.of_nat u ∧ parent s !!! w' = Z.of_nat w) ∧
  (∀ w, (w < N)%nat → mate_V s' !!! w = -1 → mate_V s !!! w = -1) ∧
  (∀ u, (u < N)%nat → mate_U s' !!! u = -1 → mate_U s !!! u = -1).

End Augmentation.

(** ** Seeding a phase *)

(** Body of the loop of [seed_roots]. *)
Definition seed_body (N : nat) (c : list (list Z)) (v : nat) (s : state) : state :=
  if unmatched_V s v then
    update_slack N c v (set_label_V s (<[v := true]> (label_V s)))
  else s.

(** The state [t] after the rows below [n] have been seeded, starting from
    the state [s] at the end of the previous phase. *)
Definition seeding (N : nat) (s : state) (n : nat) (t : state) : Prop :=
  mate_V t = mate_V s ∧ mate_U t = mate_U s ∧ alpha t = alpha s ∧ beta t = beta s ∧
  parent t = replicate N (-1) ∧ label_U t = replicate N false ∧
  length (nhbor t) = N ∧ length (slack t) = N ∧ length (label_V t) = N ∧
  (∀ v, (v < N)%nat →
     label_V t !!! v = true ↔ ((v < n)%nat ∧ mate_V s !!! v = -1)) ∧
  nhbor_ok N t.

(** Every row and every column is matched. *)
Definition perfect (N : nat) (s : state) : Prop :=
  (∀ v, (v < N)%nat →
     ∃ u, (u < N)%nat ∧ mate_V s !!! v = Z.of_nat u ∧ mate_U s !!! u = Z.of_nat v) ∧
  (∀ u, (u < N)%nat →
     ∃ v, (v < N)%nat ∧ mate_U s !!! u = Z.of_nat v ∧ mate_V s !!! v = Z.of_nat u).

(** ** The duals *)

Section Duals.
Context (N : nat) (c : list (list Z)) (min_col : list Z) (K : Z).

(** The doubled costs are even, between [0] and [2 * K], where [K] leaves
    room in 64 bits; [min_col[u]] is even and at most the costs of its
    column. *)
Definition costs_ok : Prop :=
  0 ≤ K ∧ (2 * Z.of_nat N + 5) * K ≤ ll_max ∧
  (∀ v u, (v < N)%nat → (u < N)%nat →
     0 ≤ cost c v u ≤ 2 * K ∧ (cost c v u) mod 2 = 0) ∧
  (∀ u, (u < N)%nat →
     0 ≤ min_col !!! u ∧ (min_col !!! u) mod 2 = 0 ∧
     ∀ v, (v < N)%nat → min_col !!! u ≤ cost c v u).

Definition feasible (s : state) : Prop :=
  ∀ v u, (v < N)%nat → (u < N)%nat → alpha s !!! v + beta s !!! u ≤ cost c v u.

Definition tight (s : state) : Prop :=
  ∀ v u, (v < N)%nat → (u < N)%nat → mate_V s !!! v = Z.of_nat u →
    alpha s !!! v + beta s !!! u = cost c v u.

Definition parity (s : state) : Prop :=
  ∀ v u, (v < N)%nat → (u < N)%nat → (alpha s !!! v + beta s !!! u) mod 2 = 0.

(** [T] is the sum of the shifts so far: the unmatched rows went up by all
    of them and the unmatched columns too; no dual moved further. *)
Definition ranges (s : state) : Prop :=
  ∃ T, 0 ≤ T ≤ K ∧
    (∀ v, (v < N)%nat →
       - T ≤ alpha s !!! v ≤ T ∧ (mate_V s !!! v = -1 → alpha s !!! v = T)) ∧
    (∀ u, (u < N)%nat →
       min_col !!! u - T ≤ beta s !!! u ≤ min_col !!! u + T ∧
       (mate_U s !!! u = -1 → beta s !!! u = min_col !!! u + T)).

Definition duals_ok (s : state) : Prop :=
  feasible s ∧ tight s ∧ parity s ∧ ranges s.

(** The edge from [nhbor[u]] to a labelled column [u] is tight. *)
Definition nhbor_tight (s : state) : Prop :=
  ∀ u v, (u < N)%nat → (v < N)%nat → label_U s !!! u = true →
    nhbor s !!! u = Z.of_nat v → alpha s !!! v + beta s !!! u = cost c v u.

(** [slack[u]], less a pending decrement [d], is the least reduced cost from
    a labelled row to the unlabelled column [u], reached at [nhbor[u]]. *)
Definition slack_ok (d : Z) (s : state) : Prop :=
  ∀ u, (u < N)%nat → label_U s !!! u = false →
    ∃ v, (v < N)%nat ∧ nhbor s !!! u = Z.of_nat v ∧ label_V s !!! v = true ∧
         slack s !!! u - d = reduced c s v u ∧
         ∀ w, (w < N)%nat → label_V s !!! w = true → slack s !!! u - d ≤ reduced c s w u.

(** The invariant of the [while] loop of the search. *)
Definition search_inv (s : state) : Prop :=
  structure N s ∧ duals_ok s ∧ nhbor_tight s ∧ slack_ok 0 s ∧
  (matched_rows N s < N)%nat ∧ (matched_cols N s < N)%nat.

(** What the search hands to [augment]: column [u] is unlabelled and
    unmatched and the edge from [nhbor[u]] to it is tight. *)
Definition found_ok (u : nat) (s : state) : Prop :=
  structure N s ∧ duals_ok s ∧ nhbor_tight s ∧
  (u < N)%nat ∧ unlabelled_U s u = true ∧ unmatched_U s u = true ∧
  slack s !!! u = 0 ∧
  ∃ v, (v < N)%nat ∧ nhbor s !!! u = Z.of_nat v ∧ label_V s !!! v = true ∧
       alpha s !!! v + beta s !!! u = cost c v u.

End Duals.

(** The slacks while the rows below [n] are seeded from state [s]: no
    unmatched row yet and the slack still [ll_max], or the least reduced
    cost from the rows labelled so far. *)
Definition seeding_slack (N : nat) (c : list (list Z)) (s : state) (n : nat)
    (t : state) : Prop :=
  ∀ u, (u < N)%nat →
    ((∀ v, (v < n)%nat → mate_V s !!! v ≠ -1) ∧
     slack t !!! u = ll_max) ∨
    (∃ v, (v < N)%nat ∧ nhbor t !!! u = Z.of_nat v ∧ label_V t !!! v = true ∧
          slack t !!! u = reduced c s v u ∧
          ∀ w, (w < N)%nat → label_V t !!! w = true → slack t !!! u ≤ reduced c s w u).

(** ** Inputs and assignments *)

(** The largest cost for which no sum of the program leaves 64 bits. *)
Definition cost_bound (N : nat) : Z := ll_max / (2 * Z.of_nat N + 5).

(** An [N] by [N] matrix of costs between [0] and [cost_bound N]. *)
Definition valid_input (N : nat) (inp : list (list Z)) : Prop :=
  length inp = N ∧
  Forall (λ row, length row = N ∧ Forall (λ x, 0 ≤ x ≤ cost_bound N) row) inp.

(** An [N] by [N] matrix of integers that [long long] holds: the streams
    that [read_input] reads without a failure of [cin >>]. *)
Definition ll_input (N : nat) (inp : list (list Z)) : Prop :=
  length inp = N ∧
  Forall (λ row, length row = N ∧ Forall (λ x, ll_min ≤ x ≤ ll_max) row) inp.

(** [ll_mul (cost inp v u) 2], the doubled cost that [read_input] stores. *)
Definition doubled (inp : list (list Z)) (v u : nat) : Z := ll_mul (cost inp v u) 2.

Fixpoint sum_upto (f : nat → Z) (n : nat) : Z :=
  match n with
  | O => 0
  | S n => sum_upto f n + f n
  end.

(** An assignment gives row [v] the column [sigma !!! v]; it is a bijection
    when [sigma] is a permutation of the columns. *)
Definition assignment_cost (N : nat) (m : list (list Z)) (sigma : list nat) : Z :=
  sum_upto (λ v, cost m v (sigma !!! v)) N.

Definition is_assignment (N : nat) (sigma : list nat) : Prop :=
  sigma ≡ₚ seq 0 N.

(** The assignment that [mate_V] holds. *)
Definition assignment_of (s : state) : list nat := Z.to_nat <$> mate_V s.

(** ** The states of a run *)

(** The state in which the search of a phase starts. *)
Definition phase_start (N : nat) (c : list (list Z)) (s : state) : state :=
  seed_roots N c (initialize_search N s).

(** [loop_head N c s t]: the [while] loop of a search started in [s] is at
    the top of a turn in state [t]. *)
Inductive loop_head (N : nat) (c : list (list Z)) (s : state) : state → Prop :=
| loop_head_first : loop_head N c s s
| loop_head_next t admissibles t' :
    loop_head N c s t →
    search_body N c t = Ok (Collected admissibles t') →
    loop_head N c s t'.

(** [in_search fuel N c min_col k t]: the run reaches the top of a turn of
    the search of phase [k] in state [t]. *)
Definition in_search (fuel : nat) (N : nat) (c : list (list Z)) (min_col : list Z)
    (k : nat) (t : state) : Prop :=
  (k < N)%nat ∧
  ∃ s, phases fuel N c k (initialize_alpha_beta N min_col) = Ok s ∧
       loop_head N c (phase_start N c s) t.

(** The rows from [v] up the parent pointers to a row without parent. *)
Fixpoint parent_chain (fuel : nat) (N : nat) (s : state) (v : nat) : res (list nat) :=
  match fuel with
  | O => Err OutOfFuel
  | S fuel =>
    if bool_decide (parent s !!! v ≠ -1) then
      p ← index N (parent s !!! v);
      l ← parent_chain fuel N s p;
      Ok (v :: l)
    else Ok [v]
  end.

(** ** The words of the claims *)

(** An [N] by [N] matrix of non-negative integers that [long long] holds. *)
Definition nonneg_input (N : nat) (inp : list (list Z)) : Prop :=
  length inp = N ∧
  Forall (λ row, length row = N ∧ Forall (λ x, 0 ≤ x ≤ ll_max) row) inp.

(** [out] is the least cost of an assignment of [inp]. *)
Definition optimal_cost (N : nat) (inp : list (list Z)) (out : Z) : Prop :=
  (∃ sigma, is_assignment N sigma ∧ assignment_cost N inp sigma = out) ∧
  ∀ tau, is_assignment N tau → out ≤ assignment_cost N inp tau.

(** [mate_V] and [mate_U] are bijections between rows and columns, inverse
    of each other. *)
Definition bijection (N : nat) (s : state) : Prop :=
  (∀ v, (v < N)%nat → 0 ≤ mate_V s !!! v < Z.of_nat N) ∧
  (∀ v v', (v < N)%nat → (v' < N)%nat → mate_V s !!! v = mate_V s !!! v' → v = v') ∧
  (∀ u, (u < N)%nat → 0 ≤ mate_U s !!! u < Z.of_nat N) ∧
  (∀ u u', (u < N)%nat → (u' < N)%nat → mate_U s !!! u = mate_U s !!! u' → u = u') ∧
  (∀ v u, (v < N)%nat → (u < N)%nat →
     mate_V s !!! v = Z.of_nat u ↔ mate_U s !!! u = Z.of_nat v).

(** Feasibility and tightness in the costs of the input, the duals halved. *)
Definition feasible_unscaled (N : nat) (inp : list (list Z)) (s : state) : Prop :=
  ∀ v u, (v < N)%nat → (u < N)%nat →
    (alpha s !!! v + beta s !!! u) mod 2 = 0 ∧
    (alpha s !!! v + beta s !!! u) / 2 ≤ cost inp v u.

Definition tight_unscaled (N : nat) (inp : list (list Z)) (s : state) : Prop :=
  ∀ v u, (v < N)%nat → (u < N)%nat → mate_V s !!! v = Z.of_nat u →
    (alpha s !!! v + beta s !!! u) mod 2 = 0 ∧
    (alpha s !!! v + beta s !!! u) / 2 = cost inp v u.

(** The cost that [main] prints in cost mode from the final state. *)
Definition opt_cost_of (N : nat) (s : state) : Z :=
  ll_div (for_loop N (λ i (opt_cost : Z),
            ll_add opt_cost (ll_add (alpha s !!! i) (beta s !!! i))) 0) 2.

Definition example5 : list (list Z) :=
  [[7;2;1;9;4];[9;6;9;5;5];[3;8;3;1;8];[7;9;4;2;2];[8;4;7;4;8]].

(** Costs too large for 64 bits once doubled. *)
Definition huge1 : list (list Z) := [[2 ^ 62]].
Definition huge2 : list (list Z) := [[2 ^ 62 - 1; 2 ^ 62 - 1]; [2 ^ 62; 2 ^ 62]].
Definition huge3 : list (list Z) :=
  [[2 ^ 62; 2; 1]; [2 ^ 62; 2; 3]; [2 ^ 62; 0; 0]].
Definition huge4 : list (list Z) := [[0; 0]; [0; 2 ^ 62]].

#[global] Instance valid_input_dec N inp : Decision (valid_input N inp).
Proof. unfold valid_input. apply _. Defined.

#[global] Instance nonneg_input_dec N inp : Decision (nonneg_input N inp).
Proof. unfold nonneg_input. apply _. Defined.

#[global] Instance ll_input_dec N inp : Decision (ll_input N inp).
Proof. unfold ll_input. apply _. Defined.

(** The doubled matrices and the first states of the runs on the examples. *)
Definition example5_c : list (list Z) := Eval vm_compute in (read_input 5 example5).1.
Definition example5_min_col : list Z := Eval vm_compute in (read_input 5 example5).2.
Definition example5_s0 : state :=
  Eval vm_compute in initialize_alpha_beta 5 example5_min_col.
Definition example5_t0 : state :=
  Eval vm_compute in phase_start 5 example5_c example5_s0.
Definition example5_found : nat * state :=
  Eval vm_compute in
    match search_augmenting_alternating_path 5 5 example5_c example5_t0 with
    | Ok r => r
    | Err _ => (O, example5_t0)
    end.

Definition example5_s1 : state :=
  Eval vm_compute in
    match phase 5 5 example5_c example5_s0 with
    | Ok s => s
    | Err _ => example5_s0
    end.

Definition example5_assignment : list Z :=
  Eval vm_compute in
    match main 5 true 5 example5 with
    | Ok (Assignment l) => l
    | _ => []
    end.

(** The fourth phase of the example has a turn that collects a column. *)
Definition example5_s3 : state :=
  Eval vm_compute in
    match phases 5 5 example5_c 3 example5_s0 with
    | Ok s => s
    | Err _ => example5_s0
    end.
Definition example5_collected : list nat * state :=
  Eval vm_compute in
    match search_body 5 example5_c (phase_start 5 example5_c example5_s3) with
    | Ok (Collected admissibles t) => (admissibles, t)
    | _ => ([], example5_s3)
    end.

(** The state in which the search of the fourth phase of the example
    starts; the least slack is positive there. *)
Definition example5_t3 : state :=
  Eval vm_compute in phase_start 5 example5_c example5_s3.

Definition huge2_c : list (list Z) := Eval vm_compute in (read_input 2 huge2).1.
Definition huge2_min_col : list Z := Eval vm_compute in (read_input 2 huge2).2.
Definition huge2_s1 : state :=
  Eval vm_compute in
    match phases 1 2 huge2_c 1 (initialize_alpha_beta 2 huge2_min_col) with
    | Ok s => s
    | Err _ => initialize_alpha_beta 2 huge2_min_col
    end.
Definition huge2_stuck : state :=
  Eval vm_compute in
    match search_body 2 huge2_c (phase_start 2 huge2_c huge2_s1) with
    | Ok (Collected _ s) => s
    | _ => huge2_s1
    end.

Definition huge3_c : list (list Z) := Eval vm_compute in (read_input 3 huge3).1.
Definition huge3_min_col : list Z := Eval vm_compute in (read_input 3 huge3).2.
Definition huge3_s3 : state :=
  Eval vm_compute in
    match phases 3 3 huge3_c 3 (initialize_alpha_beta 3 huge3_min_col) with
    | Ok s => s
    | Err _ => initialize_alpha_beta 3 huge3_min_col
    end.

Definition huge4_c : list (list Z) := Eval vm_compute in (read_input 2 huge4).1.
Definition huge4_min_col : list Z := Eval vm_compute in (read_input 2 huge4).2.
Definition huge4_s2 : state :=
  Eval vm_compute in
    match phases 2 2 huge4_c 2 (initialize_alpha_beta 2 huge4_min_col) with
    | Ok s => s
    | Err _ => initialize_alpha_beta 2 huge4_min_col
    end.

(** * Basic facts *)

(** [lia] is to know [/] and [mod] by constants. *)
Ltac Zify.zify_post_hook ::= Z.to_euclidean_division_equations.

(** ** Wrap-around *)

Lemma wrap_id z : ll_min ≤ z ≤ ll_max → wrap z = z.
Proof.
  unfold ll_min, ll_max, wrap. intros H.
  rewrite Z.mod_small by lia. lia.
Qed.

Lemma wrap_range z : ll_min ≤ wrap z ≤ ll_max.
Proof.
  unfold ll_min, ll_max, wrap.
  pose proof (Z.mod_pos_bound (z + 2 ^ 63) (2 ^ 64)). lia.
Qed.

Lemma wrap_parity z : wrap z mod 2 = z mod 2.
Proof.
  unfold wrap. rewrite (Z.mod_eq (z + 2 ^ 63) (2 ^ 64)) by lia.
  replace (z + 2 ^ 63 - 2 ^ 64 * ((z + 2 ^ 63) / 2 ^ 64) - 2 ^ 63)
    with (z + (- 2 ^ 63 * ((z + 2 ^ 63) / 2 ^ 64)) * 2) by lia.
  apply Z.mod_add. lia.
Qed.

(** ** Loops *)

Lemma for_loop_0 {S : Type} (body : nat → S → S) s : for_loop 0 body s = s.
Proof. reflexivity. Qed.

Lemma for_loop_S {S : Type} n (body : nat → S → S) s :
  for_loop (Datatypes.S n) body s = body n (for_loop n body s).
Proof.
  unfold for_loop. rewrite seq_S, foldl_snoc. reflexivity.
Qed.

Lemma for_loop_inv {S : Type} (P : nat → S → Prop) n (body : nat → S → S) s :
  P O s →
  (∀ i t, (i < n)%nat → P i t → P (Datatypes.S i) (body i t)) →
  P n (for_loop n body s).
Proof.
  intros H0 Hstep.
  assert (∀ k, (k ≤ n)%nat → P k (for_loop k body s)) as H; [|apply H; lia].
  induction k as [|k IH]; intros Hk; [exact H0|].
  rewrite for_loop_S. apply Hstep; [lia|]. apply IH. lia.
Qed.

(** ** Counting *)

Lemma count_le f n : (count f n ≤ n)%nat.
Proof. induction n; simpl; [lia|]. destruct (f n); lia. Qed.

Lemma count_ext f g n :
  (∀ i, (i < n)%nat → f i = g i) → count f n = count g n.
Proof.
  induction n; simpl; intros H; [done|].
  rewrite (H n) by lia. rewrite IHn; [done|]. intros; apply H; lia.
Qed.

Lemma count_full f n : count f n = n → ∀ i, (i < n)%nat → f i = true.
Proof.
  induction n; simpl; intros H i Hi; [lia|].
  pose proof (count_le f n).
  destruct (f n) eqn:E; [|lia].
  destruct (decide (i = n)) as [->|]; [done|].
  apply IHn; lia.
Qed.

Lemma count_not_full f n : (count f n < n)%nat → ∃ i, (i < n)%nat ∧ f i = false.
Proof.
  induction n; simpl; intros H; [lia|].
  destruct (f n) eqn:E.
  - destruct IHn as (i & ? & ?); [lia|]. exists i. split; [lia|done].
  - exists n. split; [lia|done].
Qed.

Lemma count_all f n : (∀ i, (i < n)%nat → f i = true) → count f n = n.
Proof.
  induction n; simpl; intros H; [done|].
  rewrite H by lia. rewrite IHn; [lia|]. intros; apply H; lia.
Qed.

Lemma count_none f n : (∀ i, (i < n)%nat → f i = false) → count f n = O.
Proof.
  induction n; simpl; intros H; [done|].
  rewrite H by lia. rewrite IHn; [done|]. intros; apply H; lia.
Qed.

Lemma count_lt f n i : (i < n)%nat → f i = false → (count f n < n)%nat.
Proof.
  induction n; simpl; intros Hi Hf; [lia|].
  pose proof (count_le f n).
  destruct (decide (i = n)) as [->|]; [rewrite Hf; lia|].
  destruct (f n); [|lia]. assert (count f n < n)%nat by (apply IHn; [lia|done]). lia.
Qed.

(** Turning one more index on adds one. *)
Lemma count_flip f g n r :
  (r < n)%nat → f r = false → g r = true →
  (∀ i, (i < n)%nat → i ≠ r → g i = f i) →
  count g n = Datatypes.S (count f n).
Proof.
  induction n; simpl; intros Hr Hf Hg H; [lia|].
  destruct (decide (r = n)) as [->|Hne].
  - rewrite Hf, Hg. rewrite (count_ext g f n); [lia|].
    intros i Hi. apply H; lia.
  - rewrite (H n) by lia. rewrite IHn; [lia|lia|done|done|].
    intros; apply H; lia.
Qed.

(** ** Subscripts *)

Lemma index_ok N (i : nat) : (i < N)%nat → index N (Z.of_nat i) = Ok i.
Proof.
  intros H. unfold index. rewrite bool_decide_eq_true_2 by lia.
  by rewrite Nat2Z.id.
Qed.

Lemma index_inv N z i : index N z = Ok i → (i < N)%nat ∧ z = Z.of_nat i.
Proof.
  unfold index. case_bool_decide; [|done]. intros [= <-]. lia.
Qed.

Lemma bind_Ok {A B : Type} (m : res A) (f : A → res B) b :
  (a ← m; f a) = Ok b ↔ ∃ a, m = Ok a ∧ f a = Ok b.
Proof.
  destruct m as [a|e]; simpl; split.
  - intros H. by exists a.
  - by intros (a' & [= <-] & H).
  - done.
  - by intros (a' & [=] & _).
Qed.

(** * What each function writes *)

Ltac fields :=
  cbn [mate_V mate_U nhbor parent alpha beta slack label_V label_U
       set_mate_V set_mate_U set_nhbor set_parent set_alpha set_beta
       set_slack set_label_V set_label_U] in *.

(** [update_slack v] writes [slack[u]] and [nhbor[u]] of the unlabelled
    columns whose bound is non-negative and below the recorded slack. *)
Lemma update_slack_spec N c v s :
  length (slack s) = N → length (nhbor s) = N →
  let s' := update_slack N c v s in
  mate_V s' = mate_V s ∧ mate_U s' = mate_U s ∧ parent s' = parent s ∧
  alpha s' = alpha s ∧ beta s' = beta s ∧
  label_V s' = label_V s ∧ label_U s' = label_U s ∧
  length (slack s') = N ∧ length (nhbor s') = N ∧
  ∀ u, (u < N)%nat →
    if unlabelled_U s u && bool_decide (0 ≤ bound c s v u)
       && bool_decide (bound c s v u < slack s !!! u)
    then slack s' !!! u = bound c s v u ∧ nhbor s' !!! u = Z.of_nat v
    else slack s' !!! u = slack s !!! u ∧ nhbor s' !!! u = nhbor s !!! u.
Proof.
  intros Hs Hn. cbv zeta. unfold update_slack.
  pose (P := λ (n : nat) (t : state),
    mate_V t = mate_V s ∧ mate_U t = mate_U s ∧ parent t = parent s ∧
    alpha t = alpha s ∧ beta t = beta s ∧
    label_V t = label_V s ∧ label_U t = label_U s ∧
    length (slack t) = N ∧ length (nhbor t) = N ∧
    ∀ u, (u < N)%nat →
      if bool_decide (u < n)%nat && (unlabelled_U s u && bool_decide (0 ≤ bound c s v u)
         && bool_decide (bound c s v u < slack s !!! u))
      then slack t !!! u = bound c s v u ∧ nhbor t !!! u = Z.of_nat v
      else slack t !!! u = slack s !!! u ∧ nhbor t !!! u = nhbor s !!! u).
  match goal with |- context [for_loop N ?b s] =>
    assert (P N (for_loop N b s)) as HP end.
  { apply for_loop_inv.
    - unfold P. repeat split; try done.
    - intros i t Hi (e1 & e2 & e3 & e4 & e5 & e6 & e7 & l1 & l2 & H).
      assert (unlabelled_U t i = unlabelled_U s i) as El
        by (unfold unlabelled_U; by rewrite e7).
      assert (ll_sub (ll_sub (cost c v i) (alpha t !!! v)) (beta t !!! i) = bound c s v i) as Eb
        by (unfold bound; by rewrite e4, e5).
      assert (slack t !!! i = slack s !!! i ∧ nhbor t !!! i = nhbor s !!! i) as [Es En].
      { specialize (H i Hi). rewrite bool_decide_eq_false_2 in H by lia. exact H. }
      rewrite El, Eb, Es.
      destruct (unlabelled_U s i) eqn:Eu; simpl.
      2:{ unfold P. repeat split; try done. intros u Hu. specialize (H u Hu).
          destruct (decide (u = i)) as [->|Hne].
          - rewrite Eu. simpl. rewrite andb_false_r. done.
          - replace (bool_decide (u < Datatypes.S i)%nat) with (bool_decide (u < i)%nat); [done|].
            apply bool_decide_ext; lia. }
      destruct (bool_decide (0 ≤ bound c s v i) && bool_decide (bound c s v i < slack s !!! i)) eqn:Ec.
      + unfold P. fields. rewrite !length_insert. repeat split; try done.
        intros u Hu. specialize (H u Hu).
        destruct (decide (u = i)) as [->|Hne].
        * rewrite Eu. rewrite bool_decide_eq_true_2 by lia. simpl. simpl in Ec. rewrite Ec.
          rewrite !list_lookup_total_insert_eq by lia. done.
        * rewrite !list_lookup_total_insert_ne by done.
          replace (bool_decide (u < Datatypes.S i)%nat) with (bool_decide (u < i)%nat); [done|].
          apply bool_decide_ext; lia.
      + unfold P. repeat split; try done. intros u Hu. specialize (H u Hu).
        destruct (decide (u = i)) as [->|Hne].
        * rewrite Eu. simpl. simpl in Ec. rewrite Ec. rewrite andb_false_r. done.
        * replace (bool_decide (u < Datatypes.S i)%nat) with (bool_decide (u < i)%nat); [done|].
          apply bool_decide_ext; lia. }
  destruct HP as (e1 & e2 & e3 & e4 & e5 & e6 & e7 & l1 & l2 & H).
  repeat split; try done. intros u Hu. specialize (H u Hu).
  rewrite bool_decide_eq_true_2 in H by lia. exact H.
Qed.

(** [theta], before it is halved, is a lower bound of the slacks of the
    unlabelled columns and, unless it is still [ll_max], one of them. *)
Lemma min_slack_spec N s :
  let theta := min_slack N s in
  (∀ u, (u < N)%nat → unlabelled_U s u = true → theta ≤ slack s !!! u) ∧
  ((theta = ll_max ∧ ∀ u, (u < N)%nat → unlabelled_U s u = true → ll_max ≤ slack s !!! u)
   ∨ ∃ u, (u < N)%nat ∧ unlabelled_U s u = true ∧ slack s !!! u = theta).
Proof.
  cbv zeta. unfold min_slack.
  apply (for_loop_inv (λ n theta,
    (∀ u, (u < n)%nat → unlabelled_U s u = true → theta ≤ slack s !!! u) ∧
    ((theta = ll_max ∧ ∀ u, (u < n)%nat → unlabelled_U s u = true → ll_max ≤ slack s !!! u)
     ∨ ∃ u, (u < n)%nat ∧ unlabelled_U s u = true ∧ slack s !!! u = theta))).
  - split; [intros; lia|]. left. split; [done|]. intros; lia.
  - intros i th Hi [Hle Hmin].
    destruct (unlabelled_U s i) eqn:Eu.
    + split.
      * intros u Hu Hl. destruct (decide (u = i)) as [->|]; [lia|].
        assert (th ≤ slack s !!! u) by (apply Hle; [lia|done]). lia.
      * destruct (Z.min_spec th (slack s !!! i)) as [[Hlt ->]|[Hge ->]].
        -- destruct Hmin as [[-> Hall]|(u & Hu & Hl & Hs)].
           ++ left. split; [done|]. intros u Hu Hl.
              destruct (decide (u = i)) as [->|]; [lia|]. apply Hall; [lia|done].
           ++ right. exists u. split; [lia|done].
        -- right. exists i. split; [lia|done].
    + split.
      * intros u Hu Hl. destruct (decide (u = i)) as [->|]; [congruence|].
        apply Hle; [lia|done].
      * destruct Hmin as [[-> Hall]|(u & Hu & Hl & Hs)].
        -- left. split; [done|]. intros u Hu Hl.
           destruct (decide (u = i)) as [->|]; [congruence|]. apply Hall; [lia|done].
        -- right. exists u. split; [lia|done].
Qed.

(** The dual shift: [alpha] goes up on labelled rows and down on the
    others, [beta] down on labelled columns and up on the others. *)
Lemma shift_spec N theta s :
  length (alpha s) = N → length (beta s) = N →
  let s' := shift N theta s in
  mate_V s' = mate_V s ∧ mate_U s' = mate_U s ∧ nhbor s' = nhbor s ∧
  parent s' = parent s ∧ slack s' = slack s ∧
  label_V s' = label_V s ∧ label_U s' = label_U s ∧
  length (alpha s') = N ∧ length (beta s') = N ∧
  ∀ i, (i < N)%nat →
    alpha s' !!! i =
      (if (label_V s !!! i : bool) then ll_add (alpha s !!! i) theta
       else ll_sub (alpha s !!! i) theta) ∧
    beta s' !!! i =
      (if (label_U s !!! i : bool) then ll_sub (beta s !!! i) theta
       else ll_add (beta s !!! i) theta).
Proof.
  intros Ha Hb. cbv zeta. unfold shift.
  pose (P := λ (n : nat) (t : state),
    mate_V t = mate_V s ∧ mate_U t = mate_U s ∧ nhbor t = nhbor s ∧
    parent t = parent s ∧ slack t = slack s ∧
    label_V t = label_V s ∧ label_U t = label_U s ∧
    length (alpha t) = N ∧ length (beta t) = N ∧
    ∀ i, (i < N)%nat →
      alpha t !!! i =
        (if bool_decide (i < n)%nat then
           if (label_V s !!! i : bool) then ll_add (alpha s !!! i) theta
           else ll_sub (alpha s !!! i) theta
         else alpha s !!! i) ∧
      beta t !!! i =
        (if bool_decide (i < n)%nat then
           if (label_U s !!! i : bool) then ll_sub (beta s !!! i) theta
           else ll_add (beta s !!! i) theta
         else beta s !!! i)).
  match goal with |- context [for_loop N ?b s] =>
    assert (P N (for_loop N b s)) as HP end.
  { apply for_loop_inv.
    - unfold P. repeat split; try done.
    - intros i t Hi (e1 & e2 & e3 & e4 & e5 & e6 & e7 & l1 & l2 & H).
      destruct (H i Hi) as [Ea Eb]. rewrite bool_decide_eq_false_2 in Ea, Eb by lia.
      assert (∀ x y, length x = N → length y = N →
        (∀ j, (j < N)%nat → j ≠ i → x !!! j = alpha t !!! j ∧ y !!! j = beta t !!! j) →
        x !!! i = (if (label_V s !!! i : bool) then ll_add (alpha s !!! i) theta
                   else ll_sub (alpha s !!! i) theta) →
        y !!! i = (if (label_U s !!! i : bool) then ll_sub (beta s !!! i) theta
                   else ll_add (beta s !!! i) theta) →
        P (Datatypes.S i) (set_beta (set_alpha t x) y)) as Hgen.
      { intros x y lx ly Hother Hx Hy. unfold P. fields. split_and!; try done.
        intros j Hj. destruct (decide (j = i)) as [->|Hne].
        - rewrite bool_decide_eq_true_2 by lia. done.
        - destruct (Hother j Hj Hne) as [-> ->]. destruct (H j Hj) as [-> ->].
          replace (bool_decide (j < S i)%nat) with (bool_decide (j < i)%nat); [done|].
          apply bool_decide_ext; lia. }
      rewrite e6.
      destruct (label_V s !!! i) eqn:ELV; fields; rewrite e7;
        destruct (label_U s !!! i) eqn:ELU; fields;
        match goal with |- P _ (set_beta ?t' ?y) =>
          match t' with set_alpha _ ?x =>
            change (P (Datatypes.S i) (set_beta (set_alpha t x) y)) end end;
        apply Hgen; rewrite ?length_insert; try done;
        try (intros j Hj Hne; by rewrite !list_lookup_total_insert_ne by done);
        rewrite ?list_lookup_total_insert_eq by lia;
        rewrite ?ELV, ?ELU, ?Ea, ?Eb; done. }
  destruct HP as (e1 & e2 & e3 & e4 & e5 & e6 & e7 & l1 & l2 & H).
  split_and!; try done. intros j Hj. destruct (H j Hj) as [E1 E2].
  rewrite bool_decide_eq_true_2 in E1, E2 by lia. done.
Qed.

(** The scan writes [slack] only: it decrements the slack of the unlabelled
    columns it visits, returns the first one that is admissible and
    unmatched, and otherwise collects the admissible ones, all matched. *)
Lemma scan_spec N theta us : ∀ adm s,
  length (slack s) = N → NoDup us → (∀ u, u ∈ us → (u < N)%nat) →
  match scan us theta adm s with
  | Found u s' =>
    mate_V s' = mate_V s ∧ mate_U s' = mate_U s ∧ nhbor s' = nhbor s ∧
    parent s' = parent s ∧ alpha s' = alpha s ∧ beta s' = beta s ∧
    label_V s' = label_V s ∧ label_U s' = label_U s ∧
    length (slack s') = N ∧
    u ∈ us ∧ unlabelled_U s u = true ∧ unmatched_U s u = true ∧
    slack s' !!! u = decr s theta u ∧ decr s theta u = 0 ∧
    (∀ j, (j < N)%nat →
       slack s' !!! j = slack s !!! j ∨ (j ∈ us ∧ slack s' !!! j = decr s theta j))
  | Collected adm' s' =>
    mate_V s' = mate_V s ∧ mate_U s' = mate_U s ∧ nhbor s' = nhbor s ∧
    parent s' = parent s ∧ alpha s' = alpha s ∧ beta s' = beta s ∧
    label_V s' = label_V s ∧ label_U s' = label_U s ∧
    length (slack s') = N ∧
    (∀ j, (j < N)%nat →
       slack s' !!! j =
         if unlabelled_U s j && bool_decide (j ∈ us) then decr s theta j
         else slack s !!! j) ∧
    (∀ j, j ∈ adm' ↔
       j ∈ adm ∨ (j ∈ us ∧ unlabelled_U s j = true ∧ decr s theta j = 0)) ∧
    (∀ j, j ∈ us → unlabelled_U s j = true → decr s theta j = 0 →
       unmatched_U s j = false) ∧
    (NoDup adm → (∀ j, j ∈ adm → j ∉ us) → NoDup adm')
  end.
Proof.
  induction us as [|u0 us IH]; intros adm s Hlen Hnd Hlt; cbn [scan].
  { repeat split; try done.
    - intros j Hj. rewrite bool_decide_eq_false_2 by apply not_elem_of_nil.
      by rewrite andb_false_r.
    - intros H; by left.
    - intros [H|(H & _)]; [done|]. by apply not_elem_of_nil in H.
    - intros j H. by apply not_elem_of_nil in H. }
  apply NoDup_cons in Hnd as [Hnotin Hnd].
  assert (Hlt' : ∀ u, u ∈ us → (u < N)%nat) by (intros; apply Hlt; by right).
  assert (Hu0 : (u0 < N)%nat) by (apply Hlt; by left).
  destruct (unlabelled_U s u0) eqn:Eu.
  2:{ specialize (IH adm s Hlen Hnd Hlt').
      destruct (scan us theta adm s) as [u s'|adm' s'].
      - destruct IH as (e1&e2&e3&e4&e5&e6&e7&e8&l&Hin&H1&H2&H3&H4&H5).
        split_and!; try done; [by right|].
        intros j Hj. destruct (H5 j Hj) as [?|[? ?]]; [by left|right].
        split; [by right|done].
      - destruct IH as (e1&e2&e3&e4&e5&e6&e7&e8&l&Hs&Hadm&Hm&Hn).
        repeat split; try done.
        + intros j Hj. rewrite (Hs j Hj).
          destruct (decide (j = u0)) as [->|Hne].
          * rewrite Eu. done.
          * replace (bool_decide (j ∈ u0 :: us)) with (bool_decide (j ∈ us)); [done|].
            apply bool_decide_ext. rewrite elem_of_cons. intuition congruence.
        + intros Hj. apply Hadm in Hj as [?|(?&?&?)]; [by left|right].
          split; [by right|done].
        + intros [?|(Hj&?&?)]; apply Hadm; [by left|].
          apply elem_of_cons in Hj as [->|Hj]; [congruence|]. by right.
        + intros j Hj. apply elem_of_cons in Hj as [->|Hj]; [congruence|]. by apply Hm.
        + intros Hnd' Hdis. apply Hn; [done|]. intros j Hj Hj'. apply (Hdis j Hj). by right. }
  set (s1 := set_slack s (<[u0:=ll_sub (slack s !!! u0) (ll_mul 2 theta)]> (slack s))).
  assert (Hs1 : ∀ j, j ≠ u0 → slack s1 !!! j = slack s !!! j).
  { intros j Hne. unfold s1. fields. by rewrite list_lookup_total_insert_ne. }
  assert (Hs1u : slack s1 !!! u0 = decr s theta u0).
  { unfold s1. fields. rewrite list_lookup_total_insert_eq by lia. done. }
  assert (Hdec : ∀ j, j ≠ u0 → decr s1 theta j = decr s theta j).
  { intros j Hne. unfold decr. by rewrite Hs1. }
  assert (Hlen1 : length (slack s1) = N) by (unfold s1; fields; by rewrite length_insert).
  assert (Hunl : ∀ j, unlabelled_U s1 j = unlabelled_U s j) by done.
  assert (Hunm : ∀ j, unmatched_U s1 j = unmatched_U s j) by done.
  unfold admissible_U. rewrite Hs1u.
  case_bool_decide as Hadm0.
  - rewrite Hunm. destruct (unmatched_U s u0) eqn:Em.
    + split_and!; try done; [by left|].
      intros j Hj. destruct (decide (j = u0)) as [->|Hne].
      * right. split; [by left|done].
      * left. by apply Hs1.
    + specialize (IH (adm ++ [u0]) s1 Hlen1 Hnd Hlt').
      destruct (scan us theta (adm ++ [u0]) s1) as [u s'|adm' s'].
      * destruct IH as (e1&e2&e3&e4&e5&e6&e7&e8&l&Hin&H1&H2&H3&H4&H5).
        assert (u ≠ u0) by (intros ->; done).
        split_and!; try done; [by right|by rewrite H3, Hdec|by rewrite <- Hdec|].
        intros j Hj. destruct (decide (j = u0)) as [->|Hne].
        { right. split; [by left|]. destruct (H5 u0 Hj) as [->|[? ?]]; done. }
        destruct (H5 j Hj) as [E|[? E]]; [left; by rewrite E, Hs1|right].
        split; [by right|]. by rewrite E, Hdec.
      * destruct IH as (e1&e2&e3&e4&e5&e6&e7&e8&l&Hs&Hadm&Hm&Hn).
        repeat split; try done.
        -- intros j Hj. rewrite (Hs j Hj). rewrite Hunl.
           destruct (decide (j = u0)) as [->|Hne].
           ++ rewrite Eu. rewrite bool_decide_eq_false_2 by done.
              rewrite bool_decide_eq_true_2 by (by left). simpl. done.
           ++ rewrite Hdec, Hs1 by done.
              replace (bool_decide (j ∈ u0 :: us)) with (bool_decide (j ∈ us)); [done|].
              apply bool_decide_ext. rewrite elem_of_cons. intuition congruence.
        -- intros Hj. apply Hadm in Hj as [Hj|(Hj&?&?)].
           ++ apply elem_of_app in Hj as [?|Hj]; [by left|].
              apply list_elem_of_singleton in Hj as ->. right. split; [by left|done].
           ++ right. assert (j ≠ u0) by (intros ->; done).
              split; [by right|]. by rewrite <- Hdec.
        -- intros [Hj|(Hj&?&?)]; apply Hadm.
           ++ left. apply elem_of_app. by left.
           ++ apply elem_of_cons in Hj as [->|Hj].
              ** left. apply elem_of_app. right. by apply list_elem_of_singleton.
              ** right. assert (j ≠ u0) by (intros ->; done). by rewrite Hdec.
        -- intros j Hj. apply elem_of_cons in Hj as [->|Hj]; [done|].
           assert (j ≠ u0) by (intros ->; done). rewrite <- Hdec by done. by apply Hm.
        -- intros Hnd' Hdis. apply Hn.
           ++ apply NoDup_app. split; [done|]. split; [|apply NoDup_singleton].
              intros j Hj Hj'. apply list_elem_of_singleton in Hj' as ->.
              apply (Hdis u0 Hj). by left.
           ++ intros j Hj Hj'. apply elem_of_app in Hj as [Hj|Hj].
              ** apply (Hdis j Hj). by right.
              ** apply list_elem_of_singleton in Hj as ->. done.
  - specialize (IH adm s1 Hlen1 Hnd Hlt').
    destruct (scan us theta adm s1) as [u s'|adm' s'].
    + destruct IH as (e1&e2&e3&e4&e5&e6&e7&e8&l&Hin&H1&H2&H3&H4&H5).
      assert (u ≠ u0) by (intros ->; done).
      split_and!; try done; [by right|by rewrite H3, Hdec|by rewrite <- Hdec|].
      intros j Hj. destruct (decide (j = u0)) as [->|Hne].
      { right. split; [by left|]. destruct (H5 u0 Hj) as [->|[? ?]]; done. }
      destruct (H5 j Hj) as [E|[? E]]; [left; by rewrite E, Hs1|right].
      split; [by right|]. by rewrite E, Hdec.
    + destruct IH as (e1&e2&e3&e4&e5&e6&e7&e8&l&Hs&Hadm&Hm&Hn).
      repeat split; try done.
      * intros j Hj. rewrite (Hs j Hj). rewrite Hunl.
        destruct (decide (j = u0)) as [->|Hne].
        -- rewrite Eu. rewrite bool_decide_eq_false_2 by done.
           rewrite bool_decide_eq_true_2 by (by left). simpl. done.
        -- rewrite Hdec, Hs1 by done.
           replace (bool_decide (j ∈ u0 :: us)) with (bool_decide (j ∈ us)); [done|].
           apply bool_decide_ext. rewrite elem_of_cons. intuition congruence.
      * intros Hj. apply Hadm in Hj as [Hj|(Hj&?&?)]; [by left|].
        right. assert (j ≠ u0) by (intros ->; done).
        split; [by right|]. by rewrite <- Hdec.
      * intros [Hj|(Hj&?&?)]; apply Hadm; [by left|].
        apply elem_of_cons in Hj as [->|Hj]; [done|].
        right. assert (j ≠ u0) by (intros ->; done). by rewrite Hdec.
      * intros j Hj. apply elem_of_cons in Hj as [->|Hj]; [done|].
        assert (j ≠ u0) by (intros ->; done). rewrite <- Hdec by done. by apply Hm.
      * intros Hnd' Hdis. apply Hn; [done|].
        intros j Hj Hj'. apply (Hdis j Hj). by right.
Qed.

(** * The structure of the state is kept, whatever the costs *)

Section StructureProofs.
Context (N : nat) (c : list (list Z)).

(** [structure] reads neither [alpha] nor [beta], and of [slack] only the
    parity. *)
Lemma structure_frame s s' :
  mate_V s' = mate_V s → mate_U s' = mate_U s → nhbor s' = nhbor s →
  parent s' = parent s → label_V s' = label_V s → label_U s' = label_U s →
  length (alpha s') = N → length (beta s') = N → length (slack s') = N →
  (∀ u, (u < N)%nat → (slack s' !!! u) mod 2 = (slack s !!! u) mod 2) →
  structure N s → structure N s'.
Proof.
  intros e1 e2 e3 e4 e5 e6 la lb ls Hpar (Hsz & Hss & Hm & Hl & Hn & Ht).
  unfold structure, sized, sized_search, matching, labels_ok, nhbor_ok, tree_ok,
    labelled_cols in *.
  rewrite e1, e2, e3, e4, e5, e6.
  destruct Hsz as (?&?&?&?). destruct Hss as (?&?&?&?&?).
  refine (conj _ (conj _ (conj Hm (conj Hl (conj _ Ht))))).
  - done.
  - done.
  - intros u Hu. destruct (Hn u Hu) as [?|(?&?&?)]; [by left|right].
    rewrite Hpar by done. done.
Qed.

Lemma decr_parity s theta u : (decr s theta u) mod 2 = (slack s !!! u) mod 2.
Proof.
  unfold decr, ll_sub, ll_mul. rewrite wrap_parity.
  rewrite <- Zminus_mod_idemp_r. rewrite wrap_parity.
  rewrite Zminus_mod_idemp_r.
  replace (slack s !!! u - 2 * theta) with (slack s !!! u + (- theta) * 2) by lia.
  apply Z.mod_add. lia.
Qed.

Lemma promote_eq s u m :
  (m < N)%nat → mate_U s !!! u = Z.of_nat m →
  promote N c u s =
    Ok (update_slack N c m
          (set_parent
             (set_label_V (set_label_U s (<[u:=true]> (label_U s)))
                (<[m:=true]> (label_V s)))
             (<[m:=nhbor s !!! u]> (parent s)))).
Proof.
  intros Hm E. unfold promote. fields. rewrite E, index_ok by done. reflexivity.
Qed.


Lemma lookup_total_insert_true (l : list bool) (i j : nat) :
  (i < length l)%nat →
  <[i:=true]> l !!! j = true ↔ j = i ∨ l !!! j = true.
Proof.
  intros Hi. destruct (decide (j = i)) as [->|Hne].
  - rewrite list_lookup_total_insert_eq by done. tauto.
  - rewrite list_lookup_total_insert_ne by done. intuition congruence.
Qed.

(** Taking an admissible matched column [u] into the tree, with its mate. *)
Lemma promote_structure s u :
  structure N s → promotable N s u →
  ∃ m s', (m < N)%nat ∧ mate_U s !!! u = Z.of_nat m ∧
    mate_V s !!! m = Z.of_nat u ∧ label_V s !!! m = false ∧
    promote N c u s = Ok s' ∧ structure N s' ∧
    mate_V s' = mate_V s ∧ mate_U s' = mate_U s ∧
    alpha s' = alpha s ∧ beta s' = beta s ∧
    label_U s' = <[u:=true]> (label_U s) ∧
    label_V s' = <[m:=true]> (label_V s) ∧
    labelled_cols N s' = S (labelled_cols N s) ∧
    (∀ j, (j < N)%nat → unlabelled_U s j = false ∨ j = u →
       slack s' !!! j = slack s !!! j ∧ nhbor s' !!! j = nhbor s !!! j) ∧
    (∀ j, (j < N)%nat → unlabelled_U s j = true → j ≠ u →
       if bool_decide (0 ≤ bound c s m j) && bool_decide (bound c s m j < slack s !!! j)
       then slack s' !!! j = bound c s m j ∧ nhbor s' !!! j = Z.of_nat m
       else slack s' !!! j = slack s !!! j ∧ nhbor s' !!! j = nhbor s !!! j).
Proof.
  intros (Hsz & Hss & [Hm1 Hm2] & [Hl1 Hl2] & Hn & [rk Ht]) (Hu & Hunl & Hsl & Hmat).
  destruct Hsz as (lmV & lmU & la & lb). destruct Hss as (lnb & lpar & lsl & lLV & lLU).
  assert (HLUu : label_U s !!! u = false).
  { unfold unlabelled_U in Hunl. by destruct (label_U s !!! u). }
  unfold unmatched_U in Hmat. apply bool_decide_eq_false in Hmat.
  destruct (Hm2 u Hu) as [?|(m & Hm & EmU & EmV)]; [done|].
  assert (HLVm : label_V s !!! m = false).
  { destruct (label_V s !!! m) eqn:E; [|done].
    apply (Hl1 m Hm) in E as [E|(u' & Hu' & E1 & E2)]; [lia|].
    assert (u' = u) as -> by lia. congruence. }
  destruct (Hn u Hu) as [(p & Hp & Enb & HLVp)|(_ & Hodd & _)];
    [|rewrite Hsl in Hodd; done].
  exists m. eexists. split; [done|]. split; [done|]. split; [done|]. split; [done|].
  split; [by apply (promote_eq s u m)|].
  set (s3 := set_parent _ _).
  assert (l3s : length (slack s3) = N) by done.
  assert (l3n : length (nhbor s3) = N) by done.
  pose proof (update_slack_spec N c m s3 l3s l3n) as Hspec. cbv zeta in Hspec.
  set (s4 := update_slack N c m s3) in *.
  destruct Hspec as (e1 & e2 & e3 & e4 & e5 & e6 & e7 & l4s & l4n & Hpt).
  unfold s3 in e1, e2, e3, e4, e5, e6, e7. fields.
  assert (Hb : ∀ j, bound c s3 m j = bound c s m j) by done.
  assert (HLV4 : ∀ v, label_V s4 !!! v = true ↔ v = m ∨ label_V s !!! v = true).
  { intros v. rewrite e6. apply lookup_total_insert_true. lia. }
  assert (HLU4 : ∀ j, label_U s4 !!! j = true ↔ j = u ∨ label_U s !!! j = true).
  { intros j. rewrite e7. apply lookup_total_insert_true. lia. }
  assert (Hunl3 : ∀ j, j ≠ u → unlabelled_U s3 j = unlabelled_U s j).
  { intros j Hne. unfold unlabelled_U, s3. fields.
    by rewrite list_lookup_total_insert_ne. }
  assert (Hunl3u : unlabelled_U s3 u = false).
  { unfold unlabelled_U, s3. fields. by rewrite list_lookup_total_insert_eq by lia. }
  assert (Hkeep : ∀ j, (j < N)%nat → unlabelled_U s j = false ∨ j = u →
     slack s4 !!! j = slack s !!! j ∧ nhbor s4 !!! j = nhbor s !!! j).
  { intros j Hj Hcase. specialize (Hpt j Hj).
    assert (unlabelled_U s3 j = false) as E.
    { destruct Hcase as [E| ->]; [|done].
      destruct (decide (j = u)) as [->|Hne]; [done|]. by rewrite Hunl3. }
    rewrite E in Hpt. simpl in Hpt. exact Hpt. }
  assert (Hcnt : labelled_cols N s4 = S (labelled_cols N s)).
  { unfold labelled_cols. apply (count_flip _ _ N u); [done|done| |].
    - apply HLU4. by left.
    - intros j Hj Hne. rewrite e7. by rewrite list_lookup_total_insert_ne. }
  split; [|split_and!; try done].
  2:{ intros j Hj Hl Hne. specialize (Hpt j Hj).
      rewrite Hunl3, Hl, Hb in Hpt by done. exact Hpt. }
  refine (conj _ (conj _ (conj _ (conj _ (conj _ _))))).
  - unfold sized. by rewrite e1, e2, e4, e5.
  - unfold sized_search. rewrite e3, e6, e7, !length_insert. done.
  - unfold matching. rewrite e1, e2. done.
  - split.
    + intros v Hv. rewrite HLV4, e1.
      destruct (decide (v = m)) as [->|Hne].
      * split; [|tauto]. intros _. right. exists u. split; [done|]. split; [done|].
        apply HLU4. by left.
      * rewrite Hl1 by done. split.
        -- intros [?|[?|(u' & ? & ? & ?)]]; [done|by left|right].
           exists u'. split; [done|]. split; [done|]. apply HLU4. by right.
        -- intros [?|(u' & Hu' & E1 & E2)]; [right; by left|].
           right. right. exists u'. split; [done|]. split; [done|].
           apply HLU4 in E2 as [->|?]; [|done].
           destruct (Hm1 v Hv) as [?|(u'' & ? & ? & ?)]; [lia|].
           assert (u'' = u) as -> by lia. lia.
    + intros j Hj HL. rewrite e2. apply HLU4 in HL as [->|HL]; [done|]. by apply Hl2.
  - intros j Hj. specialize (Hpt j Hj).
    destruct (unlabelled_U s3 j && bool_decide (0 ≤ bound c s3 m j)
              && bool_decide (bound c s3 m j < slack s3 !!! j)) eqn:Ec.
    + left. exists m. split; [done|]. split; [apply Hpt|]. apply HLV4. by left.
    + destruct Hpt as [Es En]. rewrite Es, En. unfold s3. fields.
      destruct (Hn j Hj) as [(v & Hv & E1 & E2)|(E1 & E2 & E3)].
      * left. exists v. split; [done|]. split; [done|]. apply HLV4. by right.
      * right. split; [done|]. split; [done|].
        destruct (label_U s4 !!! j) eqn:E; [|done].
        apply HLU4 in E as [->|E]; [|congruence]. rewrite Hsl in E2. done.
  - exists (λ v, if decide (v = m) then S (rk p) else rk v).
    intros v Hv HL. apply HLV4 in HL.
    rewrite Hcnt, e1, e3.
    destruct (decide (v = m)) as [->|Hne].
    + split; [destruct (Ht p Hp HLVp) as (? & _); lia|].
      split; [lia|]. intros u' Hu' E. assert (u' = u) as -> by lia.
      exists p. split; [done|]. rewrite list_lookup_total_insert_eq by lia.
      split; [done|]. split; [by rewrite (proj2 (Hkeep u Hu (or_intror eq_refl)))|].
      split; [apply HLV4; by right|].
      rewrite decide_False by (intros ->; congruence). lia.
    + destruct HL as [?|HL]; [done|].
      destruct (Ht v Hv HL) as (Hrk & Hroot & Hmatched).
      split; [lia|]. rewrite list_lookup_total_insert_ne by done.
      split; [done|]. intros u' Hu' E.
      destruct (Hmatched u' Hu' E) as (p' & Hp' & E1 & E2 & E3 & E4).
      exists p'. split; [done|]. split; [done|].
      assert (label_U s !!! u' = true) as HLu'.
      { apply (Hl1 v Hv) in HL as [?|(u'' & ? & ? & ?)]; [lia|].
        assert (u'' = u') as -> by lia. done. }
      assert (unlabelled_U s u' = false) as Hunl'
        by (unfold unlabelled_U; by rewrite HLu').
      split; [by rewrite (proj2 (Hkeep u' Hu' (or_introl Hunl')))|].
      split; [apply HLV4; by right|].
      rewrite decide_False by (intros ->; congruence). done.
Qed.


(** The loop over [admissibles], with an invariant [P] of one's choice. *)
Lemma promote_all (P : state → Prop) :
  (∀ s u s', structure N s → promotable N s u → P s →
     promote N c u s = Ok s' → P s') →
  ∀ adm s,
    structure N s → NoDup adm → (∀ j, j ∈ adm → promotable N s j) → P s →
    ∃ s', for_each (promote N c) adm s = Ok s' ∧ structure N s' ∧ P s' ∧
      mate_V s' = mate_V s ∧ mate_U s' = mate_U s ∧
      alpha s' = alpha s ∧ beta s' = beta s ∧
      labelled_cols N s' = (labelled_cols N s + length adm)%nat.
Proof.
  intros Hstep. induction adm as [|u adm IH]; intros s Hst Hnd Hadm HP.
  { exists s. simpl. split_and!; (done || lia). }
  apply NoDup_cons in Hnd as [Hnotin Hnd].
  assert (Hpu : promotable N s u) by (apply Hadm; by left).
  destruct (promote_structure s u Hst Hpu)
    as (m & s1 & Hm & EmU & EmV & HLVm & Eprom & Hst1 & e1 & e2 & e3 & e4 & eLU & eLV
        & Hcnt & Hkeep & Hupd).
  assert (HP1 : P s1) by (by apply (Hstep s u s1)).
  destruct (IH s1 Hst1 Hnd) as (s' & Efor & Hst' & HP' & f1 & f2 & f3 & f4 & Hcnt');
    [|done|].
  { intros j Hj. destruct (Hadm j) as (Hjlt & Hjunl & Hjsl & Hjmat); [by right|].
    assert (j ≠ u) as Hne by (intros ->; done).
    split; [done|]. split_and!.
    - unfold unlabelled_U in *. rewrite eLU.
      by rewrite list_lookup_total_insert_ne.
    - specialize (Hupd j Hjlt Hjunl Hne). rewrite Hjsl in Hupd.
      destruct (bool_decide (0 ≤ bound c s m j)) eqn:E1; simpl in Hupd.
      + rewrite bool_decide_eq_false_2 in Hupd; [apply Hupd|].
        apply bool_decide_eq_true in E1. lia.
      + apply Hupd.
    - unfold unmatched_U in *. by rewrite e2. }
  exists s'. split.
  { cbn [for_each]. rewrite Eprom. exact Efor. }
  split_and!; try congruence. rewrite Hcnt', Hcnt. simpl. lia.
Qed.

Lemma update_alpha_beta_spec s :
  length (alpha s) = N → length (beta s) = N →
  ∃ theta s1, update_alpha_beta N s = (theta, s1) ∧
    mate_V s1 = mate_V s ∧ mate_U s1 = mate_U s ∧ nhbor s1 = nhbor s ∧
    parent s1 = parent s ∧ slack s1 = slack s ∧
    label_V s1 = label_V s ∧ label_U s1 = label_U s ∧
    length (alpha s1) = N ∧ length (beta s1) = N ∧
    ((min_slack N s > 0 ∧ theta = ll_div (min_slack N s) 2 ∧ s1 = shift N theta s)
     ∨ (min_slack N s ≤ 0 ∧ theta = min_slack N s ∧ s1 = s)).
Proof.
  intros la lb. unfold update_alpha_beta. case_bool_decide as Hpos.
  - eexists _, _. split; [done|].
    destruct (shift_spec N (ll_div (min_slack N s) 2) s la lb)
      as (e1&e2&e3&e4&e5&e6&e7&l1&l2&_).
    split_and!; try done. left. done.
  - eexists _, _. split; [done|]. split_and!; try done. right. split; [lia|done].
Qed.

(** One turn of the [while] loop keeps the structure and never leaves the
    vectors. *)
Lemma search_body_structure s :
  structure N s →
  ∃ r, search_body N c s = Ok r ∧
    match r with
    | Found u s' =>
      structure N s' ∧ (u < N)%nat ∧ unlabelled_U s' u = true ∧
      unmatched_U s' u = true ∧ slack s' !!! u = 0 ∧
      mate_V s' = mate_V s ∧ mate_U s' = mate_U s
    | Collected adm s' =>
      structure N s' ∧ mate_V s' = mate_V s ∧ mate_U s' = mate_U s ∧
      labelled_cols N s' = (labelled_cols N s + length adm)%nat
    end.
Proof.
  intros Hst. pose proof Hst as ((lmV & lmU & la & lb) & (lnb & lpar & lsl & lLV & lLU) & _).
  unfold search_body.
  destruct (update_alpha_beta_spec s la lb)
    as (theta & s1 & -> & e1 & e2 & e3 & e4 & e5 & e6 & e7 & la1 & lb1 & _).
  assert (Hst1 : structure N s1).
  { apply (structure_frame s s1); try done; [by rewrite e5|].
    intros u Hu. by rewrite e5. }
  assert (lsl1 : length (slack s1) = N) by (by rewrite e5).
  assert (Hseq : ∀ j, j ∈ seq 0 N → (j < N)%nat).
  { intros j Hj. apply elem_of_seq in Hj. lia. }
  pose proof (scan_spec N theta (seq 0 N) [] s1 lsl1 (NoDup_seq 0 N) Hseq) as Hscan.
  destruct (scan (seq 0 N) theta [] s1) as [u s2|adm s2].
  - destruct Hscan as (f1&f2&f3&f4&f5&f6&f7&f8&l2&Hin&Hunl&Hunm&Hsl&Hz&Hpt).
    eexists. split; [done|]. cbv beta iota.
    split_and!; try congruence.
    + apply (structure_frame s1 s2); try done; [congruence|congruence|].
      intros j Hj. destruct (Hpt j Hj) as [->|[_ ->]]; [done|]. apply decr_parity.
    + apply elem_of_seq in Hin. lia.
    + unfold unlabelled_U in *. by rewrite f8.
    + unfold unmatched_U in *. by rewrite f2.
  - destruct Hscan as (f1&f2&f3&f4&f5&f6&f7&f8&l2&Hpt&Hadm&Hmat&Hnd).
    assert (Hst2 : structure N s2).
    { apply (structure_frame s1 s2); try done; [congruence|congruence|].
      intros j Hj. rewrite (Hpt j Hj).
      destruct (unlabelled_U s1 j && bool_decide (j ∈ seq 0 N)); [|done].
      apply decr_parity. }
    destruct (promote_all (λ _, True) (λ _ _ _ _ _ _ _, I) adm s2 Hst2)
      as (s3 & -> & Hst3 & _ & g1 & g2 & g3 & g4 & Hcnt); [| |done|].
    { apply Hnd; [apply NoDup_nil_2|]. intros j Hj. by apply not_elem_of_nil in Hj. }
    { intros j Hj. apply Hadm in Hj as [Hj|(Hj & Hunl & Hz)];
        [by apply not_elem_of_nil in Hj|].
      assert (j < N)%nat as Hlt by (apply elem_of_seq in Hj; lia).
      split; [done|]. split_and!.
      - unfold unlabelled_U in *. by rewrite f8.
      - rewrite (Hpt j Hlt), Hunl. rewrite bool_decide_eq_true_2 by done. done.
      - specialize (Hmat j Hj Hunl Hz). unfold unmatched_U in *. by rewrite f2. }
    eexists. split; [done|]. cbv beta iota.
    split_and!; try congruence.
    rewrite Hcnt. unfold labelled_cols. by rewrite f8, e7.
Qed.

(** The search, when it returns, returns an unlabelled unmatched column of
    slack zero in a state of the same structure; it fails by lack of fuel
    only. *)
Lemma search_structure fuel : ∀ s,
  structure N s →
  match search_augmenting_alternating_path fuel N c s with
  | Ok (u, s') =>
    structure N s' ∧ (u < N)%nat ∧ unlabelled_U s' u = true ∧
    unmatched_U s' u = true ∧ slack s' !!! u = 0 ∧
    mate_V s' = mate_V s ∧ mate_U s' = mate_U s
  | Err e => e = OutOfFuel
  end.
Proof.
  induction fuel as [|fuel IH]; intros s Hst; [done|].
  cbn [search_augmenting_alternating_path].
  destruct (search_body_structure s Hst) as (r & -> & Hr). cbn.
  destruct r as [u s'|adm s']; [done|].
  destruct Hr as (Hst' & e1 & e2 & _).
  specialize (IH s' Hst').
  destruct (search_augmenting_alternating_path fuel N c s') as [[u s'']|e]; [|done].
  destruct IH as (?&?&?&?&?&?&?). split_and!; congruence.
Qed.

End StructureProofs.

(** * Augmentation along the parent pointers *)

Section AugmentProofs.
Context (N : nat).

Lemma augment_spec (rk : nat → nat) fuel : ∀ s v e,
  augment_pre N rk s v e →
  match augment fuel N v e s with
  | Ok s' => augment_post N rk s v e s'
  | Err err => err = OutOfFuel ∧ (fuel ≤ rk v)%nat
  end.
Proof.
  induction fuel as [|fuel IH]; intros s v e Hpre.
  { simpl. split; [done|lia]. }
  destruct Hpre as (lV & lU & Hv & He & HLv & Hrows & Hcols & Htree).
  cbn [augment]. cbv zeta. fields.
  set (s1 := set_mate_U (set_mate_V s (<[v:=Z.of_nat e]> (mate_V s)))
                        (<[e:=Z.of_nat v]> (mate_U s))).
  assert (EV : ∀ w, mate_V s1 !!! w = if decide (w = v) then Z.of_nat e else mate_V s !!! w).
  { intros w. unfold s1. fields. destruct (decide (w = v)) as [E|E].
    - subst. by rewrite list_lookup_total_insert_eq by lia.
    - by rewrite list_lookup_total_insert_ne by done. }
  assert (EU : ∀ u, mate_U s1 !!! u = if decide (u = e) then Z.of_nat v else mate_U s !!! u).
  { intros u. unfold s1. fields. destruct (decide (u = e)) as [E|E].
    - subst. by rewrite list_lookup_total_insert_eq by lia.
    - by rewrite list_lookup_total_insert_ne by done. }
  assert (lV1 : length (mate_V s1) = N) by (unfold s1; fields; by rewrite length_insert).
  assert (lU1 : length (mate_U s1) = N) by (unfold s1; fields; by rewrite length_insert).
  assert (Hcols1 : matched_cols N s1 =
    (matched_cols N s + (if unmatched_U s e then 1 else 0))%nat).
  { unfold matched_cols. destruct (unmatched_U s e) eqn:E.
    - rewrite (count_flip (λ u, negb (unmatched_U s u)) _ N e); [lia|done| | |].
      + cbv beta. by rewrite E.
      + cbv beta. unfold unmatched_U. rewrite EU, decide_True by done.
        rewrite bool_decide_eq_false_2 by lia. done.
      + intros u Hu Hne. cbv beta. unfold unmatched_U. by rewrite EU, decide_False.
    - rewrite Nat.add_0_r. apply count_ext. intros u Hu. unfold unmatched_U in *.
      rewrite EU. destruct (decide (u = e)) as [Ee|Ee]; [|done]. subst.
      rewrite E. by rewrite bool_decide_eq_false_2 by lia. }
  destruct (Htree v Hv HLv (le_n _)) as [Hroot Hmatched].
  case_bool_decide as Hpar.
  - (* [v] has a parent: it was matched *)
    destruct (Hrows v Hv) as [E|(a & Ha & EVa & EUa & Hae)]; [by apply Hroot in E|].
    destruct (Hmatched a Ha EVa) as (p & Hp & Epar & HLp & Hrk).
    rewrite Epar, EVa, !index_ok by done. cbn.
    assert (Hpv : p ≠ v) by (intros ->; lia).
    assert (Hpre1 : augment_pre N rk s1 p a).
    { split_and!; try done.
      - intros w Hw. rewrite EV. destruct (decide (w = v)) as [Ew|Ew].
        + subst w. right. exists e. split; [done|]. split; [done|].
          rewrite EU, decide_True by done. done.
        + destruct (Hrows w Hw) as [?|(u & Hu & E1 & E2 & Hne)]; [by left|right].
          exists u. split; [done|]. split; [done|].
          rewrite EU, decide_False by done. split; [done|].
          intros ->. rewrite EUa in E2. lia.
      - intros u Hu Hne. rewrite EU. destruct (decide (u = e)) as [Eu|Eu].
        + subst u. right. exists v. split; [done|]. split; [done|].
          by rewrite EV, decide_True.
        + destruct (Hcols u Hu Eu) as [?|(w & Hw & E1 & E2)]; [by left|right].
          exists w. split; [done|]. split; [done|].
          rewrite EV, decide_False; [done|]. intros ->. rewrite EVa in E2. lia.
      - intros w Hw HLw Hrkw.
        assert (w ≠ v) as Hwv by (intros ->; lia).
        destruct (Htree w Hw HLw ltac:(lia)) as [Hr Hm].
        change (parent s1) with (parent s). rewrite EV, decide_False by done.
        split; [done|]. intros u Hu E. destruct (Hm u Hu E) as (p' & ? & ? & ? & ?).
        exists p'. done. }
    specialize (IH s1 p a Hpre1).
    destruct (augment fuel N p a s1) as [s'|err]; [|destruct IH; split; [done|lia]].
    destruct IH as (e1&e2&e3&e4&e5&e6&e7&lV'&lU'&Hmatch&Hcr&Hcc&Hedges&Hmo1&Hmo2).
    split_and!; try done.
    4:{ intros w Hw E. apply Hmo1 in E; [|done]. rewrite EV in E.
        destruct (decide (w = v)); [lia|done]. }
    4:{ intros u Hu E. apply Hmo2 in E; [|done]. rewrite EU in E.
        destruct (decide (u = e)); [lia|done]. }
    + rewrite Hcr. f_equal. unfold matched_rows. apply count_ext. intros w Hw.
      unfold unmatched_V. rewrite EV. destruct (decide (w = v)) as [Ew|Ew]; [|done]. subst w.
      rewrite EVa. rewrite !bool_decide_eq_false_2 by lia. done.
    + rewrite Hcc, Hcols1.
      assert (unmatched_U s1 a = false) as ->; [|lia].
      unfold unmatched_U. rewrite EU, decide_False by done. rewrite EUa.
      by rewrite bool_decide_eq_false_2 by lia.
    + intros w u Hw Hu E.
      destruct (Hedges w u Hw Hu E) as [E1|[[-> ->]|(w' & Hw' & HLw' & Hrk' & E1 & E2)]].
      * rewrite EV in E1. destruct (decide (w = v)) as [Ew|Ew].
        -- right. left. split; [done|lia].
        -- by left.
      * right. right. exists v. split_and!; try done. 
      * right. right. exists w'. assert (w' ≠ v) by (intros ->; lia).
        rewrite EV, decide_False in E1 by done.
        split_and!; try done. lia.
  - (* [v] has no parent: it was unmatched *)
    assert (EVv : mate_V s !!! v = -1).
    { destruct (Hrows v Hv) as [E|(a & Ha & EVa & EUa & Hae)]; [done|].
      destruct (Hmatched a Ha EVa) as (p & Hp & Epar & _). lia. }
    split_and!; try done.
    + split.
      * intros w Hw. rewrite EV. destruct (decide (w = v)) as [Ew|Ew].
        -- subst w. right. exists e. split; [done|]. split; [done|].
           by rewrite EU, decide_True.
        -- destruct (Hrows w Hw) as [?|(u & Hu & E1 & E2 & Hne)]; [by left|right].
           exists u. split; [done|]. split; [done|]. by rewrite EU, decide_False.
      * intros u Hu. rewrite EU. destruct (decide (u = e)) as [Eu|Eu].
        -- subst u. right. exists v. split; [done|]. split; [done|].
           by rewrite EV, decide_True.
        -- destruct (Hcols u Hu Eu) as [?|(w & Hw & E1 & E2)]; [by left|right].
           exists w. split; [done|]. split; [done|].
           rewrite EV, decide_False; [done|]. intros ->. lia.
    + unfold matched_rows.
      apply (count_flip _ _ N v); [done| | |].
      * unfold unmatched_V. by rewrite EVv.
      * unfold unmatched_V. rewrite EV, decide_True by done.
        by rewrite bool_decide_eq_false_2 by lia.
      * intros w Hw Hne. unfold unmatched_V. by rewrite EV, decide_False.
    + intros w u Hw Hu E. rewrite EV in E. destruct (decide (w = v)) as [Ew|Ew].
      * right. left. split; [done|lia].
      * by left.
    + intros w Hw E. rewrite EV in E. destruct (decide (w = v)); [lia|done].
    + intros u Hu E. rewrite EU in E. destruct (decide (u = e)); [lia|done].
Qed.

End AugmentProofs.

(** * Phases keep the matching consistent, whatever the costs *)

Section PhaseProofs.
Context (N : nat) (c : list (list Z)).

Lemma seed_roots_eq s : seed_roots N c s = for_loop N (seed_body N c) s.
Proof. reflexivity. Qed.

Lemma seeding_init s :
  sized N s → seeding N s 0 (initialize_search N s).
Proof.
  intros (lV & lU & la & lb). unfold seeding, initialize_search. fields.
  rewrite !length_replicate. split_and!; try done.
  - intros v Hv. rewrite lookup_total_replicate_2 by done. split; [done|lia].
  - intros u Hu. right. fields. rewrite !lookup_total_replicate_2 by done. done.
Qed.

Lemma seeding_step s n t :
  (n < N)%nat → seeding N s n t → seeding N s (S n) (seed_body N c n t).
Proof.
  intros Hn (e1 & e2 & e3 & e4 & e5 & e6 & l1 & l2 & l3 & HL & Hnb).
  unfold seed_body, unmatched_V. rewrite e1.
  case_bool_decide as Hun.
  - set (t1 := set_label_V t _).
    pose proof (update_slack_spec N c n t1 l2 l1) as Hspec. cbv zeta in Hspec.
    destruct Hspec as (f1 & f2 & f3 & f4 & f5 & f6 & f7 & l4 & l5 & Hpt).
    set (t2 := update_slack N c n t1) in *.
    unfold t1 in f1, f2, f3, f4, f5, f6, f7. fields.
    assert (HL1 : ∀ v, (v < N)%nat →
      label_V t2 !!! v = true ↔
      ((v < S n)%nat ∧ mate_V s !!! v = -1)).
    { intros v Hv. rewrite f6, lookup_total_insert_true by lia. rewrite HL by done.
      split; [intros [->|[? ?]]; split; (done || lia)|].
      intros [? ?]. destruct (decide (v = n)); [by left|right]. split; [lia|done]. }
    unfold seeding. split_and!; try congruence.
    + by rewrite f6, length_insert.
    + exact HL1.
    + intros u Hu. specialize (Hpt u Hu).
      destruct (unlabelled_U t1 u && bool_decide (0 ≤ bound c t1 n u)
                && bool_decide (bound c t1 n u < slack t1 !!! u)).
      * left. exists n. split; [done|]. split; [apply Hpt|]. apply HL1; [done|].
        split; [lia|done].
      * destruct Hpt as [-> ->]. rewrite f7. unfold t1. fields.
        destruct (Hnb u Hu) as [(v & Hv & E1 & E2)|?]; [left|by right].
        exists v. split; [done|]. split; [done|]. apply HL1; [done|].
        apply HL in E2 as [? ?]; [|done]. split; [lia|done].
  - unfold seeding. split_and!; try done.
    intros v Hv. rewrite HL by done. split; [intros [? ?]; split; [lia|done]|].
    intros [? ?]. split; [|done]. destruct (decide (v = n)) as [->|]; [done|lia].
Qed.

Lemma seeding_all s :
  sized N s → seeding N s N (seed_roots N c (initialize_search N s)).
Proof.
  intros Hsz. rewrite seed_roots_eq. apply (for_loop_inv (λ n t, seeding N s n t)).
  - by apply seeding_init.
  - intros i t Hi. by apply seeding_step.
Qed.

(** A phase starts its search in a well-structured state. *)
Lemma seeding_structure s t :
  sized N s → matching N s → seeding N s N t → structure N t.
Proof.
  intros (lV & lU & la & lb) [Hm1 Hm2]
    (e1 & e2 & e3 & e4 & e5 & e6 & l1 & l2 & l3 & HL & Hnb).
  assert (HLU : ∀ u, (u < N)%nat → label_U t !!! u = false).
  { intros u Hu. by rewrite e6, lookup_total_replicate_2. }
  refine (conj _ (conj _ (conj _ (conj _ (conj Hnb _))))).
  - unfold sized. by rewrite e1, e2, e3, e4.
  - unfold sized_search. rewrite e5, e6, !length_replicate. done.
  - unfold matching. by rewrite e1, e2.
  - split.
    + intros v Hv. rewrite HL, e1 by done. split; [intros [_ ?]; by left|].
      intros [?|(u & Hu & _ & E)]; [done|]. rewrite HLU in E; done.
    + intros u Hu E. rewrite HLU in E; done.
  - exists (λ _, O). intros v Hv E. apply HL in E as [_ E]; [|done].
    split; [lia|]. split.
    + intros _. by rewrite e5, lookup_total_replicate_2.
    + intros u Hu E'. rewrite e1 in E'. lia.
Qed.

Lemma phase_structure fuel s :
  sized N s → matching N s →
  match phase fuel N c s with
  | Ok s' =>
    sized N s' ∧ matching N s' ∧
    matched_rows N s' = S (matched_rows N s) ∧
    matched_cols N s' = S (matched_cols N s)
  | Err e => e = OutOfFuel
  end.
Proof.
  intros Hsz Hm. unfold phase.
  pose proof (seeding_all s Hsz) as Hseed.
  set (s1 := seed_roots N c (initialize_search N s)) in *.
  pose proof (seeding_structure s s1 Hsz Hm Hseed) as Hst1.
  pose proof (search_structure N c fuel s1 Hst1) as Hsearch.
  destruct (search_augmenting_alternating_path fuel N c s1) as [[u s2]|e]; [|done].
  destruct Hsearch as (Hst2 & Hu & Hunl & Hunm & Hz & e1 & e2). cbn.
  destruct Hst2 as ((lV & lU & la & lb) & _ & [Hm1 Hm2] & [Hl1 Hl2] & Hnb & [rk Ht]).
  assert (EUu : mate_U s2 !!! u = -1).
  { unfold unmatched_U in Hunm. by apply bool_decide_eq_true in Hunm. }
  destruct (Hnb u Hu) as [(v & Hv & Enb & HLv)|(_ & Hodd & _)];
    [|rewrite Hz in Hodd; done].
  rewrite Enb, index_ok by done. cbn.
  assert (Hpre : augment_pre N rk s2 v u).
  { split_and!; try done.
    - intros w Hw. destruct (Hm1 w Hw) as [?|(u' & Hu' & E1 & E2)]; [by left|right].
      exists u'. split_and!; try done. intros ->. lia.
    - intros u' Hu' _. apply Hm2. done.
    - intros w Hw HLw _. destruct (Ht w Hw HLw) as (_ & Hr & Hmt).
      split; [done|]. intros u' Hu' E. destruct (Hmt u' Hu' E) as (p & ? & ? & ? & ? & ?).
      exists p. done. }
  pose proof (augment_spec N rk fuel s2 v u Hpre) as Haug.
  destruct (augment fuel N v u s2) as [s3|e]; [|by destruct Haug].
  destruct Haug as (f1&f2&f3&f4&f5&f6&f7&lV3&lU3&Hm3&Hr3&Hc3&_).
  destruct Hseed as (g1 & g2 & _).
  split_and!; try done.
  - unfold sized. rewrite f3, f4. done.
  - rewrite Hr3. f_equal. unfold matched_rows. apply count_ext. intros w _.
    unfold unmatched_V. by rewrite e1, g1.
  - rewrite Hc3, Hunm. rewrite Nat.add_1_r. f_equal.
    unfold matched_cols. apply count_ext. intros w _.
    unfold unmatched_U. by rewrite e2, g2.
Qed.


Lemma initialize_alpha_beta_spec min_col :
  let s := initialize_alpha_beta N min_col in
  mate_V s = replicate N (-1) ∧ mate_U s = replicate N (-1) ∧
  alpha s = replicate N 0 ∧ length (beta s) = N ∧
  (∀ u, (u < N)%nat → beta s !!! u = min_col !!! u).
Proof.
  cbv zeta. unfold initialize_alpha_beta. fields.
  set (s0 := set_beta _ _).
  pose (P := λ (n : nat) (t : state),
    mate_V t = replicate N (-1) ∧ mate_U t = replicate N (-1) ∧
    alpha t = replicate N 0 ∧ length (beta t) = N ∧
    (∀ u, (u < n)%nat → beta t !!! u = min_col !!! u)).
  match goal with |- context [for_loop N ?b s0] =>
    assert (P N (for_loop N b s0)) as HP end.
  { apply for_loop_inv.
    - unfold P, s0. fields. rewrite length_replicate. split_and!; try done.
      intros; lia.
    - intros i t Hi (e1 & e2 & e3 & l & H). unfold P. fields.
      rewrite length_insert. split_and!; try done.
      intros u Hu. destruct (decide (u = i)) as [->|Hne].
      + by rewrite list_lookup_total_insert_eq by lia.
      + rewrite list_lookup_total_insert_ne by done. apply H. lia. }
  exact HP.
Qed.

Lemma initialize_alpha_beta_structure min_col :
  let s := initialize_alpha_beta N min_col in
  sized N s ∧ matching N s ∧ matched_rows N s = O ∧ matched_cols N s = O.
Proof.
  cbv zeta. destruct (initialize_alpha_beta_spec min_col) as (e1 & e2 & e3 & l & _).
  split_and!.
  - unfold sized. rewrite e1, e2, e3, !length_replicate. done.
  - split; intros i Hi; left; rewrite ?e1, ?e2; by rewrite lookup_total_replicate_2.
  - apply count_none. intros i Hi. unfold unmatched_V.
    rewrite e1, lookup_total_replicate_2 by done. done.
  - apply count_none. intros i Hi. unfold unmatched_U.
    rewrite e2, lookup_total_replicate_2 by done. done.
Qed.

(** After [k] phases that returned, [k] rows and [k] columns are matched. *)
Lemma phases_structure fuel k : ∀ s,
  sized N s → matching N s →
  match phases fuel N c k s with
  | Ok s' =>
    sized N s' ∧ matching N s' ∧
    matched_rows N s' = (matched_rows N s + k)%nat ∧
    matched_cols N s' = (matched_cols N s + k)%nat
  | Err e => e = OutOfFuel
  end.
Proof.
  induction k as [|k IH]; intros s Hsz Hm; cbn [phases].
  { split_and!; (done || lia). }
  specialize (IH s Hsz Hm).
  destruct (phases fuel N c k s) as [s1|e]; [|done]. cbn.
  destruct IH as (Hsz1 & Hm1 & Hr & Hc).
  pose proof (phase_structure fuel s1 Hsz1 Hm1) as Hph.
  destruct (phase fuel N c s1) as [s2|e]; [|done].
  destruct Hph as (? & ? & -> & ->). split_and!; (done || lia).
Qed.

Lemma perfect_of_counts s :
  matching N s → matched_rows N s = N → matched_cols N s = N → perfect N s.
Proof.
  intros [Hm1 Hm2] Hr Hc. split.
  - intros v Hv. destruct (Hm1 v Hv) as [E|?]; [|done].
    pose proof (count_full _ _ Hr v Hv) as H. cbv beta in H.
    unfold unmatched_V in H. rewrite bool_decide_eq_true_2 in H; done.
  - intros u Hu. destruct (Hm2 u Hu) as [E|?]; [|done].
    pose proof (count_full _ _ Hc u Hu) as H. cbv beta in H.
    unfold unmatched_U in H. rewrite bool_decide_eq_true_2 in H; done.
Qed.

(** Whatever the matrix, [hungarian_algorithm] leaves a perfect matching
    when it returns, and it does not return only when fuel runs out: no
    subscript leaves its vector. *)
Lemma hungarian_algorithm_structure fuel min_col :
  match hungarian_algorithm fuel N c min_col with
  | Ok s => sized N s ∧ perfect N s
  | Err e => e = OutOfFuel
  end.
Proof.
  unfold hungarian_algorithm.
  destruct (initialize_alpha_beta_structure min_col) as (Hsz & Hm & Hr & Hc).
  pose proof (phases_structure fuel N _ Hsz Hm) as H.
  destruct (phases fuel N c N (initialize_alpha_beta N min_col)) as [s|e]; [|done].
  destruct H as (Hsz' & Hm' & Hr' & Hc'). split; [done|].
  apply perfect_of_counts; [done|lia|lia].
Qed.

End PhaseProofs.

(** * The duals stay feasible, tight on the matching and in range *)

Section DualProofs.
Context (N : nat) (c : list (list Z)) (min_col : list Z) (K : Z).
Hypothesis Hc : costs_ok N c min_col K.

Lemma K_bounds : 0 ≤ K ∧ 5 * K ≤ ll_max ∧ 2 * Z.of_nat N * K ≤ ll_max.
Proof. destruct Hc as (H0 & H1 & _). nia. Qed.

Lemma dual_bounds s v u :
  duals_ok N c min_col K s → (v < N)%nat → (u < N)%nat →
  - K ≤ alpha s !!! v ≤ K ∧ - K ≤ beta s !!! u ≤ 3 * K ∧
  0 ≤ cost c v u ≤ 2 * K ∧
  0 ≤ reduced c s v u ≤ 4 * K ∧ (reduced c s v u) mod 2 = 0.
Proof.
  intros (Hf & _ & Hp & (T & HT & HA & HB)) Hv Hu.
  destruct Hc as (_ & _ & Hcost & Hmc).
  destruct (HA v Hv) as [? _]. destruct (HB u Hu) as [? _].
  destruct (Hcost v u Hv Hu) as [? ?]. destruct (Hmc u Hu) as (? & _ & Hle).
  specialize (Hle v Hv). specialize (Hf v u Hv Hu). specialize (Hp v u Hv Hu).
  unfold reduced. split_and!; lia.
Qed.

(** The bound that [update_slack] computes does not wrap. *)
Lemma bound_exact s v u :
  duals_ok N c min_col K s → (v < N)%nat → (u < N)%nat →
  bound c s v u = reduced c s v u.
Proof.
  intros Hd Hv Hu. destruct (dual_bounds s v u Hd Hv Hu) as (? & ? & ? & ? & _).
  pose proof K_bounds as (? & ? & _).
  unfold bound, reduced, ll_sub in *.
  rewrite (wrap_id (cost c v u - alpha s !!! v)) by (unfold ll_min, ll_max in *; lia).
  apply wrap_id. unfold ll_min, ll_max in *; lia.
Qed.

Lemma unmatched_row s :
  structure N s → (matched_rows N s < N)%nat →
  ∃ v, (v < N)%nat ∧ mate_V s !!! v = -1 ∧ label_V s !!! v = true.
Proof.
  intros (_ & _ & _ & [Hl1 _] & _) Hlt.
  apply count_not_full in Hlt as (v & Hv & E). exists v. split; [done|].
  unfold unmatched_V in E. apply negb_false_iff, bool_decide_eq_true in E.
  split; [done|]. apply Hl1; [done|]. by left.
Qed.

Lemma unmatched_col s :
  structure N s → (matched_cols N s < N)%nat →
  ∃ u, (u < N)%nat ∧ mate_U s !!! u = -1 ∧ label_U s !!! u = false.
Proof.
  intros (_ & _ & _ & [_ Hl2] & _) Hlt.
  apply count_not_full in Hlt as (u & Hu & E). exists u. split; [done|].
  unfold unmatched_U in E. apply negb_false_iff, bool_decide_eq_true in E.
  split; [done|]. destruct (label_U s !!! u) eqn:EL; [|done].
  by apply Hl2 in EL.
Qed.

(** The minimum slack is finite, non-negative and even. *)
Lemma min_slack_arith s :
  search_inv N c min_col K s →
  0 ≤ min_slack N s ≤ 4 * K ∧ (min_slack N s) mod 2 = 0 ∧
  (∀ u, (u < N)%nat → label_U s !!! u = false → min_slack N s ≤ slack s !!! u) ∧
  ∃ u, (u < N)%nat ∧ label_U s !!! u = false ∧ slack s !!! u = min_slack N s.
Proof.
  intros (Hst & Hd & Hnt & Hsl & Hr & Hcl).
  destruct (unmatched_col s Hst Hcl) as (u0 & Hu0 & _ & HL0).
  pose proof K_bounds as (? & ? & _).
  assert (Hrange : ∀ u, (u < N)%nat → label_U s !!! u = false →
    0 ≤ slack s !!! u ≤ 4 * K ∧ (slack s !!! u) mod 2 = 0).
  { intros u Hu HL. destruct (Hsl u Hu HL) as (v & Hv & _ & _ & E & _).
    rewrite Z.sub_0_r in E. rewrite E.
    destruct (dual_bounds s v u Hd Hv Hu) as (_ & _ & _ & ? & ?). done. }
  assert (Hunl : ∀ u, unlabelled_U s u = true ↔ label_U s !!! u = false).
  { intros u. unfold unlabelled_U. by destruct (label_U s !!! u). }
  destruct (min_slack_spec N s) as [Hle Hmin].
  destruct Hmin as [[E Hall]|(u & Hu & HL & E)].
  { specialize (Hall u0 Hu0 (proj2 (Hunl u0) HL0)).
    destruct (Hrange u0 Hu0 HL0). unfold ll_max in *. lia. }
  apply Hunl in HL. destruct (Hrange u Hu HL) as [? ?]. rewrite <- E.
  split; [lia|]. split; [done|]. split.
  - intros u' Hu' HL'. rewrite E. apply Hle; [done|]. by apply Hunl.
  - exists u. done.
Qed.


(** The dual update keeps the duals feasible, tight on the matching, even
    and in range, and leaves every unlabelled slack [2 * theta] above the
    reduced cost it stands for. *)
Lemma update_alpha_beta_arith s :
  search_inv N c min_col K s →
  ∃ theta s1, update_alpha_beta N s = (theta, s1) ∧
    2 * theta = min_slack N s ∧ 0 ≤ theta ∧
    mate_V s1 = mate_V s ∧ mate_U s1 = mate_U s ∧ nhbor s1 = nhbor s ∧
    parent s1 = parent s ∧ slack s1 = slack s ∧
    label_V s1 = label_V s ∧ label_U s1 = label_U s ∧
    structure N s1 ∧ duals_ok N c min_col K s1 ∧ nhbor_tight N c s1 ∧
    slack_ok N c (2 * theta) s1.
Proof.
  intros Hinv.
  pose proof (min_slack_arith s Hinv) as ([Hm0 HmK] & Hme & Hmle & _).
  destruct Hinv as (Hst & Hd & Hnt & Hsl & Hr & Hcl).
  pose proof Hst as ((lV&lU&la&lb) & _ & [Hm1 Hm2] & [Hl1 Hl2] & Hnb & _).
  destruct (update_alpha_beta_spec N s la lb)
    as (theta & s1 & Eu & e1 & e2 & e3 & e4 & e5 & e6 & e7 & la1 & lb1 & Hcase).
  exists theta, s1. split; [done|].
  assert (Hst1 : structure N s1).
  { apply (structure_frame N s s1); try done.
    - rewrite e5. by destruct Hst as (_ & (_ & _ & ? & _) & _).
    - intros u _. by rewrite e5. }
  destruct Hcase as [(Hpos & Eth & Es1)|(Hnp & Eth & Es1)].
  2:{ assert (theta = 0) as -> by lia. subst s1. split_and!; (done || lia). }
  assert (H2t : 2 * theta = min_slack N s).
  { rewrite Eth. unfold ll_div. rewrite Z.quot_div_nonneg by lia.
    pose proof (Z.div_mod (min_slack N s) 2 ltac:(lia)). lia. }
  assert (Ht0 : 0 ≤ theta) by lia.
  pose proof K_bounds as (HK0 & HK5 & _).
  destruct (shift_spec N theta s la lb) as (_&_&_&_&_&_&_&_&_&Hpt).
  rewrite <- Es1 in Hpt.
  assert (HA1 : ∀ v, (v < N)%nat →
    alpha s1 !!! v = alpha s !!! v + (if (label_V s !!! v : bool) then theta else - theta)).
  { intros v Hv. destruct (Hpt v Hv) as [-> _].
    destruct (dual_bounds s v v Hd Hv Hv) as (? & _).
    unfold ll_add, ll_sub. destruct (label_V s !!! v);
      rewrite wrap_id by (unfold ll_min, ll_max in *; lia); lia. }
  assert (HB1 : ∀ u, (u < N)%nat →
    beta s1 !!! u = beta s !!! u + (if (label_U s !!! u : bool) then - theta else theta)).
  { intros u Hu. destruct (Hpt u Hu) as [_ ->].
    destruct (dual_bounds s u u Hd Hu Hu) as (_ & ? & _).
    unfold ll_add, ll_sub. destruct (label_U s !!! u);
      rewrite wrap_id by (unfold ll_min, ll_max in *; lia); lia. }
  destruct Hd as (Hf & Htg & Hp & (T & HT & HA & HB)).
  assert (Hf1 : feasible N c s1).
  { intros v u Hv Hu. rewrite HA1, HB1 by done. specialize (Hf v u Hv Hu).
    destruct (label_V s !!! v) eqn:ELv, (label_U s !!! u) eqn:ELu; try lia.
    destruct (Hsl u Hu ELu) as (_ & _ & _ & _ & _ & Hmin).
    specialize (Hmin v Hv ELv). specialize (Hmle u Hu ELu).
    unfold reduced in Hmin. lia. }
  split_and!; try done.
  - (* duals_ok *)
    split_and!; try done.
    + (* tight *)
      intros v u Hv Hu E. rewrite HA1, HB1 by done. rewrite e1 in E.
      specialize (Htg v u Hv Hu E).
      destruct (label_V s !!! v) eqn:ELv.
      * apply (Hl1 v Hv) in ELv as [?|(u' & ? & ? & ELu)]; [lia|].
        assert (u' = u) as -> by lia. rewrite ELu. lia.
      * destruct (label_U s !!! u) eqn:ELu; [|lia].
        assert (label_V s !!! v = true); [|congruence].
        apply Hl1; [done|]. right. exists u. done.
    + (* parity *)
      intros v u Hv Hu. rewrite HA1, HB1 by done. specialize (Hp v u Hv Hu).
      destruct (label_V s !!! v), (label_U s !!! u); lia.
    + (* ranges *)
      exists (T + theta).
      destruct (unmatched_row s Hst Hr) as (v0 & Hv0 & Ev0 & ELv0).
      destruct (unmatched_col s Hst Hcl) as (u0 & Hu0 & Eu0 & ELu0).
      split.
      { specialize (Hf1 v0 u0 Hv0 Hu0). rewrite HA1, HB1, ELv0, ELu0 in Hf1 by done.
        destruct (HA v0 Hv0) as [_ EA]. destruct (HB u0 Hu0) as [_ EB].
        rewrite EA, EB in Hf1 by done.
        destruct Hc as (_ & _ & Hcost & Hmc).
        destruct (Hcost v0 u0 Hv0 Hu0) as [? _]. destruct (Hmc u0 Hu0) as (? & _).
        lia. }
      split.
      * intros v Hv. rewrite HA1, e1 by done. destruct (HA v Hv) as [? EA].
        split; [destruct (label_V s !!! v); lia|].
        intros E. rewrite (EA E).
        assert (label_V s !!! v = true) as ->; [|lia].
        apply Hl1; [done|]. by left.
      * intros u Hu. rewrite HB1, e2 by done. destruct (HB u Hu) as [? EB].
        split; [destruct (label_U s !!! u); lia|].
        intros E. rewrite (EB E).
        destruct (label_U s !!! u) eqn:ELu; [|lia]. by apply Hl2 in ELu.
  - (* nhbor_tight *)
    intros u v Hu Hv EL E. rewrite e7 in EL. rewrite e3 in E.
    rewrite HA1, HB1, EL by done.
    specialize (Hnt u v Hu Hv EL E).
    assert (label_V s !!! v = true) as ->; [|lia].
    destruct (Hnb u Hu) as [(v' & _ & E' & ?)|(? & _)]; [|lia].
    assert (v' = v) as -> by lia. done.
  - (* slack_ok *)
    intros u Hu EL. rewrite e7 in EL.
    destruct (Hsl u Hu EL) as (v & Hv & Env & ELv & Es & Hmin).
    exists v. rewrite e3, e5, e6. split_and!; try done.
    + unfold reduced in *. rewrite HA1, HB1, ELv, EL by done. lia.
    + intros w Hw ELw. specialize (Hmin w Hw ELw).
      unfold reduced in *. rewrite HA1, HB1, ELw, EL by done. lia.
Qed.


(** The shift itself does not wrap. *)
Lemma update_alpha_beta_exact s i :
  search_inv N c min_col K s → (i < N)%nat →
  alpha (update_alpha_beta N s).2 !!! i =
    alpha s !!! i +
    (if (label_V s !!! i : bool) then (update_alpha_beta N s).1
     else - (update_alpha_beta N s).1) ∧
  beta (update_alpha_beta N s).2 !!! i =
    beta s !!! i +
    (if (label_U s !!! i : bool) then - (update_alpha_beta N s).1
     else (update_alpha_beta N s).1).
Proof.
  intros Hinv Hi.
  pose proof (min_slack_arith s Hinv) as ([Hm0 HmK] & _).
  destruct Hinv as (Hst & Hd & _).
  pose proof Hst as ((_ & _ & la & lb) & _).
  pose proof K_bounds as (HK0 & HK5 & _).
  destruct (dual_bounds s i i Hd Hi Hi) as (? & ? & _).
  unfold update_alpha_beta. case_bool_decide as Hpos; cbn [fst snd].
  - destruct (shift_spec N (ll_div (min_slack N s) 2) s la lb) as (_&_&_&_&_&_&_&_&_&Hpt).
    destruct (Hpt i Hi) as [-> ->].
    assert (0 ≤ ll_div (min_slack N s) 2 ≤ 2 * K).
    { unfold ll_div. rewrite Z.quot_div_nonneg by lia. lia. }
    unfold ll_add, ll_sub.
    destruct (label_V s !!! i), (label_U s !!! i);
      rewrite !wrap_id by (unfold ll_min, ll_max in *; lia); lia.
  - destruct (label_V s !!! i), (label_U s !!! i); lia.
Qed.

Lemma duals_frame s s' :
  alpha s' = alpha s → beta s' = beta s →
  mate_V s' = mate_V s → mate_U s' = mate_U s →
  duals_ok N c min_col K s → duals_ok N c min_col K s'.
Proof.
  intros e1 e2 e3 e4. unfold duals_ok, feasible, tight, parity, ranges.
  by rewrite e1, e2, e3, e4.
Qed.

Lemma nhbor_tight_frame s s' :
  alpha s' = alpha s → beta s' = beta s →
  nhbor s' = nhbor s → label_U s' = label_U s →
  nhbor_tight N c s → nhbor_tight N c s'.
Proof.
  intros e1 e2 e3 e4. unfold nhbor_tight. by rewrite e1, e2, e3, e4.
Qed.

(** The decrement of a slack does not wrap. *)
Lemma decr_exact s theta u :
  0 ≤ theta → 2 * theta ≤ slack s !!! u ≤ 4 * K →
  decr s theta u = slack s !!! u - 2 * theta.
Proof.
  intros Ht Hs. pose proof K_bounds as (? & ? & _).
  unfold decr, ll_sub, ll_mul.
  rewrite (wrap_id (2 * theta)) by (unfold ll_min, ll_max in *; lia).
  apply wrap_id. unfold ll_min, ll_max in *; lia.
Qed.

(** Taking an admissible column into the tree keeps the invariants of the
    search. *)
Lemma promote_arith t u t' :
  structure N t → promotable N t u →
  duals_ok N c min_col K t ∧ nhbor_tight N c t ∧ slack_ok N c 0 t →
  promote N c u t = Ok t' →
  duals_ok N c min_col K t' ∧ nhbor_tight N c t' ∧ slack_ok N c 0 t'.
Proof.
  intros Hst Hpr (Hd & Hnt & Hsl) Eprom.
  destruct (promote_structure N c t u Hst Hpr)
    as (m & t'' & Hm & EmU & EmV & HLVm & Eprom' & Hst' & e1 & e2 & e3 & e4 & eLU & eLV
        & Hcnt & Hkeep & Hupd).
  rewrite Eprom in Eprom'. injection Eprom' as <-.
  destruct Hpr as (Hu & Hunl & Hz & Hmat).
  pose proof Hst as (_ & (_ & _ & _ & lLV & lLU) & _).
  assert (HLUu : label_U t !!! u = false).
  { unfold unlabelled_U in Hunl. by destruct (label_U t !!! u). }
  assert (Hred : ∀ v j, reduced c t' v j = reduced c t v j).
  { intros. unfold reduced. by rewrite e3, e4. }
  assert (HLU' : ∀ j, label_U t' !!! j = true ↔ j = u ∨ label_U t !!! j = true).
  { intros j. rewrite eLU. apply lookup_total_insert_true. lia. }
  assert (HLV' : ∀ v, label_V t' !!! v = true ↔ v = m ∨ label_V t !!! v = true).
  { intros v. rewrite eLV. apply lookup_total_insert_true. lia. }
  split_and!.
  - by apply (duals_frame t t').
  - intros j v Hj Hv EL E. rewrite e3, e4.
    destruct (decide (j = u)) as [->|Hne].
    + rewrite (proj2 (Hkeep u Hu (or_intror eq_refl))) in E.
      destruct (Hsl u Hu HLUu) as (v' & Hv' & E' & _ & Er & _).
      assert (v' = v) as -> by lia. unfold reduced in Er. lia.
    + apply HLU' in EL as [?|EL]; [done|].
      assert (unlabelled_U t j = false) as Hl by (unfold unlabelled_U; by rewrite EL).
      rewrite (proj2 (Hkeep j Hj (or_introl Hl))) in E.
      by apply (Hnt j v).
  - intros j Hj EL.
    assert (j ≠ u) as Hne.
    { intros ->. assert (label_U t' !!! u = true) by (apply HLU'; by left). congruence. }
    assert (label_U t !!! j = false) as ELj.
    { destruct (label_U t !!! j) eqn:E; [|done].
      assert (label_U t' !!! j = true) by (apply HLU'; by right). congruence. }
    assert (unlabelled_U t j = true) as Hunlj by (unfold unlabelled_U; by rewrite ELj).
    specialize (Hupd j Hj Hunlj Hne).
    rewrite (bound_exact t m j Hd Hm Hj) in Hupd.
    destruct (dual_bounds t m j Hd Hm Hj) as (_ & _ & _ & [Hr0 _] & _).
    destruct (Hsl j Hj ELj) as (v0 & Hv0 & Env0 & ELv0 & Es & Hmin).
    rewrite Z.sub_0_r in *.
    destruct (bool_decide (0 ≤ reduced c t m j) &&
              bool_decide (reduced c t m j < slack t !!! j)) eqn:Ec.
    + apply andb_true_iff in Ec as [_ Ec]. apply bool_decide_eq_true in Ec.
      destruct Hupd as [Es' En']. exists m. split_and!; try done.
      * apply HLV'. by left.
      * by rewrite Hred, Es'.
      * intros w Hw ELw. rewrite Hred, Es'.
        apply HLV' in ELw as [->|ELw]; [lia|]. specialize (Hmin w Hw ELw). lia.
    + destruct Hupd as [Es' En']. exists v0. split_and!; try done.
      * by rewrite En'.
      * apply HLV'. by right.
      * by rewrite Hred, Es'.
      * intros w Hw ELw. rewrite Hred, Es'.
        apply HLV' in ELw as [->|ELw]; [|by apply Hmin].
        apply andb_false_iff in Ec as [Ec|Ec]; apply bool_decide_eq_false in Ec; lia.
Qed.


Lemma matched_frame s s' :
  mate_V s' = mate_V s → mate_U s' = mate_U s →
  matched_rows N s' = matched_rows N s ∧ matched_cols N s' = matched_cols N s.
Proof.
  intros e1 e2. unfold matched_rows, matched_cols, unmatched_V, unmatched_U.
  by rewrite e1, e2.
Qed.

(** One turn of the [while] loop: either it finds the column to augment
    from, or it labels at least one more column and the invariant holds
    again. *)
Lemma search_body_arith s :
  search_inv N c min_col K s →
  ∃ r, search_body N c s = Ok r ∧
    match r with
    | Found u s' =>
      found_ok N c min_col K u s' ∧ mate_V s' = mate_V s ∧ mate_U s' = mate_U s
    | Collected adm s' =>
      search_inv N c min_col K s' ∧ adm ≠ [] ∧
      (labelled_cols N s < labelled_cols N s')%nat ∧
      mate_V s' = mate_V s ∧ mate_U s' = mate_U s
    end.
Proof.
  intros Hinv.
  pose proof (min_slack_arith s Hinv) as ([Hm0 HmK] & Hme & Hmle & (um & Hum & HLum & Eum)).
  destruct (update_alpha_beta_arith s Hinv)
    as (theta & s1 & Eu & H2t & Ht0 & e1 & e2 & e3 & e4 & e5 & e6 & e7 & Hst1 & Hd1 & Hnt1 & Hsl1).
  destruct Hinv as (Hst & Hd & Hnt & Hsl & Hr & Hcl).
  destruct (search_body_structure N c s Hst) as (r & Er & Hr').
  exists r. split; [done|].
  unfold search_body in Er. rewrite Eu in Er.
  pose proof Hst1 as ((_ & _ & la1 & lb1) & (_ & _ & lsl1 & _ & lLU1) & _).
  assert (Hseq : ∀ j, j ∈ seq 0 N → (j < N)%nat).
  { intros j Hj. apply elem_of_seq in Hj. lia. }
  assert (Hdec : ∀ u, (u < N)%nat → label_U s1 !!! u = false →
    decr s1 theta u = slack s1 !!! u - 2 * theta).
  { intros u Hu EL. apply decr_exact; [done|]. rewrite e5. rewrite e7 in EL.
    specialize (Hmle u Hu EL).
    destruct (Hsl u Hu EL) as (v & Hv & _ & _ & E & _).
    destruct (dual_bounds s v u Hd Hv Hu) as (_ & _ & _ & ? & _). lia. }
  assert (Hunl : ∀ t u, unlabelled_U t u = true ↔ label_U t !!! u = false).
  { intros t u. unfold unlabelled_U. by destruct (label_U t !!! u). }
  pose proof (scan_spec N theta (seq 0 N) [] s1 lsl1 (NoDup_seq 0 N) Hseq) as Hscan.
  destruct (scan (seq 0 N) theta [] s1) as [u s2|adm s2].
  - injection Er as <-.
    destruct Hscan as (f1&f2&f3&f4&f5&f6&f7&f8&l2&Hin&Hunlu&Hunm&Hslu&Hz&Hpt).
    destruct Hr' as (Hst2 & Hu & Hunl2 & Hunm2 & Hz2 & _).
    split; [|split; congruence].
    assert (Hd2 : duals_ok N c min_col K s2) by (by apply (duals_frame s1 s2)).
    split_and!; try done.
    + by apply (nhbor_tight_frame s1 s2).
    + apply Hunl in Hunlu.
      destruct (Hsl1 u Hu Hunlu) as (v & Hv & Env & ELv & Es & _).
      exists v. rewrite f3, f5, f6, f7. split_and!; try done.
      rewrite (Hdec u Hu Hunlu) in Hz. unfold reduced in Es. lia.
  - destruct Hscan as (f1&f2&f3&f4&f5&f6&f7&f8&l2&Hpt&Hadm&Hmat&Hnd).
    assert (Hst2 : structure N s2).
    { apply (structure_frame N s1 s2); try done; [congruence|congruence|].
      intros j Hj. rewrite (Hpt j Hj).
      destruct (unlabelled_U s1 j && bool_decide (j ∈ seq 0 N)); [|done].
      apply decr_parity. }
    assert (Hd2 : duals_ok N c min_col K s2) by (by apply (duals_frame s1 s2)).
    assert (Hnt2 : nhbor_tight N c s2) by (by apply (nhbor_tight_frame s1 s2)).
    assert (Hs2 : ∀ j, (j < N)%nat → label_U s1 !!! j = false →
      slack s2 !!! j = slack s1 !!! j - 2 * theta).
    { intros j Hj EL. rewrite (Hpt j Hj), (proj2 (Hunl s1 j) EL).
      rewrite bool_decide_eq_true_2 by (apply elem_of_seq; lia).
      by apply Hdec. }
    assert (Hsl2 : slack_ok N c 0 s2).
    { intros j Hj EL. rewrite f8 in EL.
      destruct (Hsl1 j Hj EL) as (v & Hv & Env & ELv & Es & Hmin).
      assert (∀ w, reduced c s2 w j = reduced c s1 w j) as Hred
        by (intros; unfold reduced; by rewrite f5, f6).
      exists v. rewrite f3, f7, Hred, (Hs2 j Hj EL), Z.sub_0_r.
      split_and!; try done. intros w Hw ELw. rewrite Hred. by apply Hmin. }
    assert (Hin_adm : ∀ j, j ∈ adm ↔
      (j < N)%nat ∧ label_U s1 !!! j = false ∧ slack s2 !!! j = 0).
    { intros j. rewrite Hadm. split.
      - intros [Hj|(Hj & Hl & Hz)]; [by apply not_elem_of_nil in Hj|].
        apply Hseq in Hj. apply Hunl in Hl. rewrite Hs2, <- Hdec by done. done.
      - intros (Hj & Hl & Hz). right. split; [apply elem_of_seq; lia|].
        split; [by apply Hunl|]. rewrite Hdec, <- Hs2 by done. done. }
    assert (Hne : adm ≠ []).
    { assert (um ∈ adm) as Hum'; [|intros ->; by apply not_elem_of_nil in Hum'].
      apply Hin_adm. rewrite e7. split; [done|]. split; [done|].
      rewrite Hs2; [|done|by rewrite e7]. rewrite e5. lia. }
    destruct (promote_all N c
                (λ t, duals_ok N c min_col K t ∧ nhbor_tight N c t ∧ slack_ok N c 0 t)
                promote_arith adm s2 Hst2)
      as (s3 & Efor & Hst3 & (Hd3 & Hnt3 & Hsl3) & g1 & g2 & g3 & g4 & Hcnt); [| |done|].
    { apply Hnd; [apply NoDup_nil_2|]. intros j Hj. by apply not_elem_of_nil in Hj. }
    { intros j Hj. apply Hin_adm in Hj as (Hj & Hl & Hz).
      split; [done|]. split_and!.
      - apply Hunl. by rewrite f8.
      - done.
      - assert (j ∈ seq 0 N) as Hjs by (apply elem_of_seq; lia).
        assert (decr s1 theta j = 0) as Hz'.
        { rewrite Hdec by done. rewrite <- Hs2 by done. done. }
        apply Hunl in Hl.
        specialize (Hmat j Hjs Hl Hz'). unfold unmatched_U in *. by rewrite f2. }
    rewrite Efor in Er. injection Er as <-.
    destruct (matched_frame s s3) as [Er3 Ec3]; [congruence|congruence|].
    unfold search_inv. rewrite Er3, Ec3.
    split_and!; try done; try congruence.
    rewrite Hcnt. unfold labelled_cols. rewrite f8, e7.
    destruct adm; [done|]. simpl. lia.
Qed.

End DualProofs.

(** * The search returns, the phases run to the end *)

Section RunProofs.
Context (N : nat) (c : list (list Z)) (min_col : list Z) (K : Z).
Hypothesis Hc : costs_ok N c min_col K.

Lemma labelled_cols_lt s :
  search_inv N c min_col K s → (labelled_cols N s < N)%nat.
Proof.
  intros (Hst & _ & _ & _ & _ & Hcl).
  destruct (unmatched_col N s Hst Hcl) as (u & Hu & _ & EL).
  by apply (count_lt _ N u).
Qed.

(** Every turn that does not return labels a column, and an unmatched
    column stays unlabelled: the search returns within as many turns as
    there are unlabelled columns. *)
Lemma search_arith fuel : ∀ s,
  search_inv N c min_col K s → (N - labelled_cols N s ≤ fuel)%nat →
  ∃ u s', search_augmenting_alternating_path fuel N c s = Ok (u, s') ∧
    found_ok N c min_col K u s' ∧ mate_V s' = mate_V s ∧ mate_U s' = mate_U s.
Proof.
  induction fuel as [|fuel IH]; intros s Hinv Hfuel.
  { pose proof (labelled_cols_lt s Hinv). lia. }
  cbn [search_augmenting_alternating_path].
  destruct (search_body_arith N c min_col K Hc s Hinv) as (r & -> & Hr). cbn.
  destruct r as [u s'|adm s'].
  - exists u, s'. done.
  - destruct Hr as (Hinv' & _ & Hlt & e1 & e2).
    destruct (IH s' Hinv') as (u & s'' & -> & Hf & f1 & f2); [lia|].
    exists u, s''. split_and!; congruence.
Qed.

(** Augmenting from the column found keeps the duals and matches one more
    row and one more column; [N] levels of recursion are enough. *)
Lemma augment_arith fuel u s :
  found_ok N c min_col K u s → (N ≤ fuel)%nat →
  ∃ v s', index N (nhbor s !!! u) = Ok v ∧ augment fuel N v u s = Ok s' ∧
    sized N s' ∧ matching N s' ∧ duals_ok N c min_col K s' ∧
    matched_rows N s' = S (matched_rows N s) ∧
    matched_cols N s' = S (matched_cols N s).
Proof.
  intros (Hst & Hd & Hnt & Hu & Hunl & Hunm & Hz & (v & Hv & Env & ELv & Etight)) Hfuel.
  exists v. rewrite Env, index_ok by done.
  destruct Hst as ((lV & lU & la & lb) & _ & [Hm1 Hm2] & [Hl1 Hl2] & Hnb & [rk Ht]).
  assert (EUu : mate_U s !!! u = -1).
  { unfold unmatched_U in Hunm. by apply bool_decide_eq_true in Hunm. }
  assert (ELu : label_U s !!! u = false).
  { unfold unlabelled_U in Hunl. by destruct (label_U s !!! u). }
  assert (Hpre : augment_pre N rk s v u).
  { split_and!; try done.
    - intros w Hw. destruct (Hm1 w Hw) as [?|(u' & Hu' & E1 & E2)]; [by left|right].
      exists u'. split_and!; try done. intros ->. lia.
    - intros u' Hu' _. apply Hm2. done.
    - intros w Hw HLw _. destruct (Ht w Hw HLw) as (_ & Hr & Hmt).
      split; [done|]. intros u' Hu' E. destruct (Hmt u' Hu' E) as (p & ? & ? & ? & ? & ?).
      exists p. done. }
  pose proof (augment_spec N rk fuel s v u Hpre) as Haug.
  destruct (augment fuel N v u s) as [s'|e].
  2:{ destruct Haug as [_ Hle]. destruct (Ht v Hv ELv) as (Hrk & _).
      assert (labelled_cols N s < N)%nat by (by apply (count_lt _ N u)). lia. }
  destruct Haug as (f1&f2&f3&f4&f5&f6&f7&lV'&lU'&Hm'&Hr'&Hc'&Hedges&Hmo1&Hmo2).
  exists s'. split; [done|]. split; [done|].
  split; [unfold sized; by rewrite f3, f4|]. split; [done|].
  split; [|split; [done|rewrite Hc', Hunm; lia]].
  destruct Hd as (Hf & Htg & Hp & (T & HT & HA & HB)).
  split_and!.
  - unfold feasible. by rewrite f3, f4.
  - intros w u' Hw Hu' E. rewrite f3, f4.
    destruct (Hedges w u' Hw Hu' E) as [E1|[[-> ->]|(w' & Hw' & HLw' & _ & E1 & E2)]].
    + by apply Htg.
    + done.
    + destruct (Ht w' Hw' HLw') as (_ & _ & Hmt).
      destruct (Hmt u' Hu' E1) as (p & Hp' & Ep & Enp & _).
      assert (p = w) as -> by lia.
      apply (Hnt u' w); try done.
      apply (Hl1 w' Hw') in HLw' as [?|(u'' & ? & ? & ?)]; [lia|].
      assert (u'' = u') as -> by lia. done.
  - unfold parity. by rewrite f3, f4.
  - exists T. rewrite f3, f4. split; [done|]. split.
    + intros w Hw. destruct (HA w Hw) as [? EA]. split; [done|].
      intros E. apply EA. by apply Hmo1.
    + intros u' Hu'. destruct (HB u' Hu') as [? EB]. split; [done|].
      intros E. apply EB. by apply Hmo2.
Qed.


Lemma seeding_slack_step s n t :
  duals_ok N c min_col K s → (n < N)%nat →
  seeding N s n t → seeding_slack N c s n t →
  seeding_slack N c s (S n) (seed_body N c n t).
Proof.
  intros Hd Hn (e1 & e2 & e3 & e4 & e5 & e6 & l1 & l2 & l3 & HL & Hnb) Hsl.
  pose proof K_bounds N c min_col K Hc as (HK0 & HK5 & _).
  unfold seed_body, unmatched_V. rewrite e1.
  case_bool_decide as Hun.
  - set (t1 := set_label_V t _).
    pose proof (update_slack_spec N c n t1 l2 l1) as Hspec. cbv zeta in Hspec.
    set (t2 := update_slack N c n t1) in *.
    destruct Hspec as (f1 & f2 & f3 & f4 & f5 & f6 & f7 & l4 & l5 & Hpt).
    unfold t1 in f1, f2, f3, f4, f5, f6, f7. fields.
    assert (Hd1 : duals_ok N c min_col K t1) by (by apply (duals_frame N c min_col K s t1)).
    assert (HL2 : ∀ v, label_V t2 !!! v = true ↔ v = n ∨ label_V t !!! v = true).
    { intros v. rewrite f6. apply lookup_total_insert_true. lia. }
    intros u Hu. right. specialize (Hpt u Hu).
    assert (unlabelled_U t1 u = true) as Hunl1.
    { unfold unlabelled_U, t1. fields. rewrite e6, lookup_total_replicate_2 by done. done. }
    rewrite Hunl1 in Hpt.
    rewrite (bound_exact N c min_col K Hc t1 n u Hd1 Hn Hu) in Hpt.
    assert (reduced c t1 n u = reduced c s n u) as Hred.
    { unfold reduced, t1. fields. by rewrite e3, e4. }
    rewrite Hred in Hpt.
    destruct (dual_bounds N c min_col K Hc s n u Hd Hn Hu) as (_ & _ & _ & [Hr0 Hr4] & _).
    change (slack t1) with (slack t) in Hpt. change (nhbor t1) with (nhbor t) in Hpt.
    rewrite (bool_decide_eq_true_2 (0 ≤ reduced c s n u)) in Hpt by done.
    cbn [andb] in Hpt.
    destruct (Hsl u Hu) as [(Hnone & Emax)|(v0 & Hv0 & Env0 & ELv0 & Es0 & Hmin0)].
    + rewrite Emax in Hpt.
      rewrite bool_decide_eq_true_2 in Hpt by (unfold ll_max in *; lia).
      destruct Hpt as [Es En]. exists n. split_and!; try done.
      * apply HL2. by left.
      * intros w Hw ELw. apply HL2 in ELw as [->|ELw]; [lia|].
        apply HL in ELw as [Hwn Ew]; [|done]. by apply Hnone in Ew.
    + case_bool_decide as Hlt.
      * destruct Hpt as [Es En]. exists n. split_and!; try done.
        -- apply HL2. by left.
        -- intros w Hw ELw. apply HL2 in ELw as [->|ELw]; [lia|].
           specialize (Hmin0 w Hw ELw). lia.
      * destruct Hpt as [Es En]. exists v0. rewrite Es, En. split_and!; try done.
        -- apply HL2. by right.
        -- intros w Hw ELw. apply HL2 in ELw as [->|ELw]; [lia|]. by apply Hmin0.
  - intros u Hu.
    destruct (Hsl u Hu) as [(Hnone & Emax)|Hsome]; [left|by right].
    split; [|done]. intros v Hv. destruct (decide (v = n)) as [->|]; [done|].
    apply Hnone. lia.
Qed.

Lemma seeding_slack_all s :
  sized N s → duals_ok N c min_col K s →
  seeding_slack N c s N (seed_roots N c (initialize_search N s)).
Proof.
  intros Hsz Hd. rewrite seed_roots_eq.
  assert (seeding N s N (for_loop N (seed_body N c) (initialize_search N s)) ∧
          seeding_slack N c s N (for_loop N (seed_body N c) (initialize_search N s)))
    as [_ H]; [|done].
  apply (for_loop_inv (λ n t, seeding N s n t ∧ seeding_slack N c s n t)).
  - split; [by apply seeding_init|]. intros u Hu. left. split; [intros; lia|].
    unfold initialize_search. fields. by rewrite lookup_total_replicate_2.
  - intros i t Hi [H1 H2]. split; [by apply seeding_step|].
    by apply seeding_slack_step.
Qed.

(** A phase that starts with feasible tight duals and an unmatched row and
    column seeds a state where the invariant of the search holds. *)
Lemma seeding_search_inv s :
  sized N s → matching N s → duals_ok N c min_col K s →
  (matched_rows N s < N)%nat → (matched_cols N s < N)%nat →
  search_inv N c min_col K (seed_roots N c (initialize_search N s)).
Proof.
  intros Hsz Hm Hd Hr Hcl.
  pose proof (seeding_all N c s Hsz) as Hseed.
  pose proof (seeding_slack_all s Hsz Hd) as Hsl.
  set (t := seed_roots N c (initialize_search N s)) in *.
  pose proof (seeding_structure N s t Hsz Hm Hseed) as Hst.
  destruct Hseed as (e1 & e2 & e3 & e4 & e5 & e6 & l1 & l2 & l3 & HL & Hnb).
  destruct (matched_frame N s t e1 e2) as [Er Ec].
  split_and!; try done; try lia.
  - by apply (duals_frame N c min_col K s t).
  - intros u v Hu Hv EL. rewrite e6, lookup_total_replicate_2 in EL; done.
  - intros u Hu _. rewrite Z.sub_0_r.
    assert (∀ w, reduced c t w u = reduced c s w u) as Hred
      by (intros; unfold reduced; by rewrite e3, e4).
    destruct (Hsl u Hu) as [(Hnone & _)|(v & Hv & Env & ELv & Es & Hmin)].
    + apply count_not_full in Hr as (v & Hv & E).
      unfold unmatched_V in E. apply negb_false_iff, bool_decide_eq_true in E.
      by apply Hnone in E.
    + exists v. rewrite Hred. split_and!; try done.
      intros w Hw ELw. rewrite Hred. by apply Hmin.
Qed.

Lemma phase_arith fuel s :
  sized N s → matching N s → duals_ok N c min_col K s →
  (matched_rows N s < N)%nat → (matched_cols N s < N)%nat → (N ≤ fuel)%nat →
  ∃ s', phase fuel N c s = Ok s' ∧
    sized N s' ∧ matching N s' ∧ duals_ok N c min_col K s' ∧
    matched_rows N s' = S (matched_rows N s) ∧
    matched_cols N s' = S (matched_cols N s).
Proof.
  intros Hsz Hm Hd Hr Hcl Hfuel.
  pose proof (seeding_search_inv s Hsz Hm Hd Hr Hcl) as Hinv.
  pose proof (seeding_all N c s Hsz) as (e1 & e2 & _).
  unfold phase.
  set (t := seed_roots N c (initialize_search N s)) in *.
  destruct (search_arith fuel t Hinv) as (u & t' & -> & Hfound & f1 & f2); [lia|].
  cbn.
  destruct (augment_arith fuel u t' Hfound Hfuel)
    as (v & s' & Ei & Ea & Hsz' & Hm' & Hd' & Hr' & Hc').
  rewrite Ei. cbn. rewrite Ea.
  exists s'. split; [done|].
  destruct (matched_frame N s t' ltac:(congruence) ltac:(congruence)) as [Er Ec].
  split_and!; try done; congruence.
Qed.

Lemma initial_duals_ok :
  duals_ok N c min_col K (initialize_alpha_beta N min_col).
Proof.
  destruct (initialize_alpha_beta_spec N min_col) as (e1 & e2 & e3 & l & Hb).
  destruct Hc as (HK0 & _ & Hcost & Hmc).
  split_and!.
  - intros v u Hv Hu. rewrite e3, lookup_total_replicate_2, Hb by done.
    destruct (Hmc u Hu) as (_ & _ & H). specialize (H v Hv). lia.
  - intros v u Hv Hu E. rewrite e1, lookup_total_replicate_2 in E by done. lia.
  - intros v u Hv Hu. rewrite e3, lookup_total_replicate_2, Hb by done.
    destruct (Hmc u Hu) as (_ & H & _). simpl. done.
  - exists 0. split; [lia|]. split.
    + intros v Hv. rewrite e3, lookup_total_replicate_2 by done. split; [lia|done].
    + intros u Hu. rewrite Hb by done. split; [lia|]. intros; lia.
Qed.

(** The first [k ≤ N] phases return, with [k] rows and columns matched and
    the duals feasible, tight on the matching, even and in range. *)
Lemma phases_arith fuel k :
  (N ≤ fuel)%nat → (k ≤ N)%nat →
  ∃ s, phases fuel N c k (initialize_alpha_beta N min_col) = Ok s ∧
    sized N s ∧ matching N s ∧ duals_ok N c min_col K s ∧
    matched_rows N s = k ∧ matched_cols N s = k.
Proof.
  intros Hfuel. induction k as [|k IH]; intros Hk; cbn [phases].
  { destruct (initialize_alpha_beta_structure N min_col) as (? & ? & ? & ?).
    eexists. split; [done|]. split_and!; try done. apply initial_duals_ok. }
  destruct IH as (s & -> & Hsz & Hm & Hd & Hr & Hcl); [lia|]. cbn.
  destruct (phase_arith fuel s Hsz Hm Hd) as (s' & -> & ? & ? & ? & ? & ?); try lia.
  exists s'. split; [done|]. split_and!; try done; lia.
Qed.

End RunProofs.

(** * What [read_input] stores *)

Lemma cost_insert (c : list (list Z)) v u x v' u' :
  (v < length c)%nat → (u < length (c !!! v))%nat →
  cost (<[v := <[u := x]> (c !!! v)]> c) v' u' =
    if decide (v' = v ∧ u' = u) then x else cost c v' u'.
Proof.
  intros Hv Hu. unfold cost.
  destruct (decide (v' = v)) as [->|Hne].
  - rewrite list_lookup_total_insert_eq by done.
    destruct (decide (u' = u)) as [->|Hne'].
    + rewrite list_lookup_total_insert_eq by done. by rewrite decide_True.
    + rewrite list_lookup_total_insert_ne by done. rewrite decide_False; [done|].
      intros [_ ?]. done.
  - rewrite list_lookup_total_insert_ne by done. rewrite decide_False; [done|].
    intros [? _]. done.
Qed.

Lemma lookup_total_insert_length (c : list (list Z)) v (r : list Z) v' :
  length r = length (c !!! v) →
  length (<[v := r]> c !!! v') = length (c !!! v').
Proof.
  intros Hr. destruct (decide (v < length c)%nat) as [Hv|Hv].
  - destruct (decide (v' = v)) as [->|Hne].
    + by rewrite list_lookup_total_insert_eq.
    + by rewrite list_lookup_total_insert_ne.
  - by rewrite list_insert_ge by lia.
Qed.

Lemma read_input_spec N inp :
  ∃ c min_col, read_input N inp = (c, min_col) ∧
    length c = N ∧ (∀ v, (v < N)%nat → length (c !!! v) = N) ∧
    length min_col = N ∧
    (∀ v u, (v < N)%nat → (u < N)%nat → cost c v u = doubled inp v u) ∧
    (∀ u, (u < N)%nat →
       (∀ v, (v < N)%nat → min_col !!! u ≤ doubled inp v u) ∧
       ∃ v, (v < N)%nat ∧ min_col !!! u = doubled inp v u).
Proof.
  pose (F := λ (n u : nat) (m : Z),
    (∀ v, (v < n)%nat → m ≤ doubled inp v u) ∧
    ((n = O ∧ m = ll_max) ∨ ∃ v, (v < n)%nat ∧ m = doubled inp v u)).
  pose (P := λ (n : nat) (cm : list (list Z) * list Z),
    length cm.1 = N ∧ (∀ v, (v < N)%nat → length (cm.1 !!! v) = N) ∧
    length cm.2 = N ∧
    (∀ v u, (v < n)%nat → (u < N)%nat → cost cm.1 v u = doubled inp v u) ∧
    (∀ u, (u < N)%nat → F n u (cm.2 !!! u))).
  assert (HF : ∀ n u m, F n u m → F (S n) u (Z.min m (doubled inp n u))).
  { intros n u m [Hle Hex]. split.
    - intros v Hv. destruct (decide (v = n)) as [->|]; [lia|].
      assert (m ≤ doubled inp v u) by (apply Hle; lia). lia.
    - right. destruct (Z.min_spec m (doubled inp n u)) as [[Hlt ->]|[Hge ->]].
      + destruct Hex as [[-> ->]|(v & Hv & ->)].
        * pose proof (wrap_range (cost inp 0 u * 2)). unfold doubled, ll_mul in Hlt. lia.
        * exists v. split; [lia|done].
      + exists n. split; [lia|done]. }
  unfold read_input.
  match goal with |- context [for_loop N ?b ?i] =>
    assert (P N (for_loop N b i)) as HP end.
  { apply for_loop_inv.
    - unfold P. cbn [fst snd]. rewrite !length_replicate. split_and!; try done.
      + intros v Hv. by rewrite lookup_total_replicate_2, length_replicate.
      + intros; lia.
      + intros u Hu. rewrite lookup_total_replicate_2 by done. split; [intros; lia|].
        by left.
    - intros n cm Hn (lc & lrow & lm & Hcost & Hmin).
      pose (Q := λ (m : nat) (cm : list (list Z) * list Z),
        length cm.1 = N ∧ (∀ v, (v < N)%nat → length (cm.1 !!! v) = N) ∧
        length cm.2 = N ∧
        (∀ v u, (v < n)%nat → (u < N)%nat → cost cm.1 v u = doubled inp v u) ∧
        (∀ u, (u < m)%nat → cost cm.1 n u = doubled inp n u) ∧
        (∀ u, (u < N)%nat →
           if decide (u < m)%nat then F (S n) u (cm.2 !!! u) else F n u (cm.2 !!! u))).
      match goal with |- context [for_loop N ?b cm] =>
        assert (Q N (for_loop N b cm)) as HQ end.
      { apply for_loop_inv.
        - unfold Q. split_and!; try done; try (intros; lia).
        - intros m [c0 m0] Hm (lc0 & lrow0 & lm0 & Hcost0 & Hrow0 & Hmin0).
          cbn [fst snd] in *. unfold Q. cbn [fst snd].
          rewrite !length_insert. split_and!; try done.
          + intros v Hv. rewrite lookup_total_insert_length; [by apply lrow0|].
            by rewrite length_insert.
          + intros v u Hv Hu. rewrite cost_insert by (rewrite ?lrow0; lia).
            rewrite decide_False by lia. by apply Hcost0.
          + intros u Hu. rewrite cost_insert by (rewrite ?lrow0; lia).
            destruct (decide (n = n ∧ u = m)) as [[_ ->]|Hne]; [done|].
            apply Hrow0. lia.
          + intros u Hu. specialize (Hmin0 u Hu).
            destruct (decide (u = m)) as [->|Hne].
            * rewrite decide_True by lia. rewrite decide_False in Hmin0 by lia.
              rewrite list_lookup_total_insert_eq by lia. by apply HF.
            * rewrite list_lookup_total_insert_ne by done.
              destruct (decide (u < m)%nat); [rewrite decide_True by lia|
                                             rewrite decide_False by lia]; done. }
      destruct HQ as (lc1 & lrow1 & lm1 & Hcost1 & Hrow1 & Hmin1).
      unfold P. split_and!; try done.
      + intros v u Hv Hu. destruct (decide (v = n)) as [->|]; [by apply Hrow1|].
        apply Hcost1; lia.
      + intros u Hu. specialize (Hmin1 u Hu). by rewrite decide_True in Hmin1. }
  destruct (for_loop N _ _) as [c mc]. exists c, mc. split; [done|].
  destruct HP as (lc & lrow & lm & Hcost & Hmin). cbn [fst snd] in *.
  split_and!; try done.
  intros u Hu. destruct (Hmin u Hu) as [Hle [[-> _]|Hex]]; [lia|]. done.
Qed.

(** The doubled costs of a valid input fulfil [costs_ok]. *)
Lemma valid_input_costs N inp c min_col :
  valid_input N inp → read_input N inp = (c, min_col) →
  costs_ok N c min_col (cost_bound N) ∧
  ∀ v u, (v < N)%nat → (u < N)%nat →
    cost c v u = 2 * cost inp v u ∧ 0 ≤ cost inp v u ≤ cost_bound N.
Proof.
  intros [Hlen Hall] Eread.
  destruct (read_input_spec N inp) as (c' & mc' & E & lc & lrow & lm & Hcost & Hmin).
  rewrite Eread in E. injection E as <- <-.
  assert (HK : 0 ≤ cost_bound N ∧ (2 * Z.of_nat N + 5) * cost_bound N ≤ ll_max).
  { unfold cost_bound. split.
    - apply Z.div_pos; [unfold ll_max|]; lia.
    - apply Z.mul_div_le. lia. }
  assert (Hin : ∀ v u, (v < N)%nat → (u < N)%nat → 0 ≤ cost inp v u ≤ cost_bound N).
  { intros v u Hv Hu. unfold cost.
    rewrite Forall_lookup in Hall.
    destruct (lookup_lt_is_Some_2 inp v ltac:(lia)) as [row Hrow].
    destruct (Hall v row Hrow) as [Hl Hr].
    rewrite (list_lookup_total_correct _ _ _ Hrow).
    rewrite Forall_lookup in Hr.
    destruct (lookup_lt_is_Some_2 row u ltac:(lia)) as [x Hx].
    rewrite (list_lookup_total_correct _ _ _ Hx). by apply (Hr u). }
  assert (Hdbl : ∀ v u, (v < N)%nat → (u < N)%nat → doubled inp v u = 2 * cost inp v u).
  { intros v u Hv Hu. specialize (Hin v u Hv Hu). unfold doubled, ll_mul.
    rewrite wrap_id; [lia|]. unfold ll_min, ll_max in *. nia. }
  split.
  - split; [apply HK|]. split; [apply HK|]. split.
    + intros v u Hv Hu. rewrite Hcost, Hdbl by done. specialize (Hin v u Hv Hu). lia.
    + intros u Hu. destruct (Hmin u Hu) as [Hle (v & Hv & E)].
      rewrite E, Hdbl by done. specialize (Hin v u Hv Hu).
      split; [lia|]. split; [lia|].
      intros w Hw. rewrite Hcost, <- Hdbl, <- E by done. by apply Hle.
  - intros v u Hv Hu. rewrite Hcost, Hdbl by done. split; [done|]. by apply Hin.
Qed.

(** * The cost of the final matching *)

Lemma sum_upto_ext f g n :
  (∀ i, (i < n)%nat → f i = g i) → sum_upto f n = sum_upto g n.
Proof.
  induction n; simpl; intros H; [done|].
  rewrite H by lia. rewrite IHn; [done|]. intros; apply H; lia.
Qed.

Lemma sum_upto_le f g n :
  (∀ i, (i < n)%nat → f i ≤ g i) → sum_upto f n ≤ sum_upto g n.
Proof.
  induction n; simpl; intros H; [done|].
  assert (f n ≤ g n) by (apply H; lia).
  assert (sum_upto f n ≤ sum_upto g n) by (apply IHn; intros; apply H; lia). lia.
Qed.

Lemma sum_upto_add f g n :
  sum_upto (λ i, f i + g i) n = sum_upto f n + sum_upto g n.
Proof. induction n; simpl; lia. Qed.

Lemma sum_upto_double f n : sum_upto (λ i, 2 * f i) n = 2 * sum_upto f n.
Proof. induction n; simpl; lia. Qed.

Lemma sum_upto_bound f n B :
  (∀ i, (i < n)%nat → - B ≤ f i ≤ B) →
  - (Z.of_nat n * B) ≤ sum_upto f n ≤ Z.of_nat n * B.
Proof.
  induction n; simpl sum_upto; intros H; [lia|].
  assert (- B ≤ f n ≤ B) by (apply H; lia).
  assert (- (Z.of_nat n * B) ≤ sum_upto f n ≤ Z.of_nat n * B)
    by (apply IHn; intros; apply H; lia).
  lia.
Qed.

Lemma foldr_add_acc (l : list Z) a : foldr Z.add a l = foldr Z.add 0 l + a.
Proof. induction l as [|x l IH]; simpl; lia. Qed.

Lemma sum_upto_lookup (g : nat → Z) (l : list nat) :
  sum_upto (λ v, g (l !!! v)) (length l) = foldr Z.add 0 (g <$> l).
Proof.
  induction l as [|x l IH] using rev_ind; [done|].
  rewrite length_app, Nat.add_1_r. cbn [sum_upto length].
  rewrite fmap_app, foldr_app. cbn [fmap list_fmap foldr].
  rewrite foldr_add_acc, <- IH.
  rewrite lookup_total_app_r by lia. rewrite Nat.sub_diag. cbn.
  rewrite (sum_upto_ext _ (λ v, g (l !!! v))); [lia|].
  intros i Hi. by rewrite lookup_total_app_l.
Qed.

Lemma foldr_add_perm (l k : list Z) :
  l ≡ₚ k → foldr Z.add 0 l = foldr Z.add 0 k.
Proof. induction 1; simpl; lia. Qed.

Lemma sum_upto_seq (g : nat → Z) n :
  foldr Z.add 0 (g <$> seq 0 n) = sum_upto g n.
Proof.
  induction n as [|n IH]; [done|].
  rewrite seq_S, fmap_app, foldr_app. cbn [fmap list_fmap foldr sum_upto].
  rewrite foldr_add_acc, IH. simpl. lia.
Qed.

(** A sum over the columns of an assignment is the sum over all columns. *)
Lemma sum_upto_assignment N (g : nat → Z) sigma :
  is_assignment N sigma →
  sum_upto (λ v, g (sigma !!! v)) N = sum_upto g N.
Proof.
  intros Hp. assert (length sigma = N) as Hlen.
  { rewrite (Permutation_length Hp). apply length_seq. }
  rewrite <- Hlen at 1. rewrite sum_upto_lookup.
  rewrite (foldr_add_perm _ (g <$> seq 0 N)); [apply sum_upto_seq|].
  by apply fmap_Permutation.
Qed.

Lemma assignment_lt N sigma v :
  is_assignment N sigma → (v < N)%nat → (sigma !!! v < N)%nat.
Proof.
  intros Hp Hv. assert (length sigma = N) as Hlen.
  { rewrite (Permutation_length Hp). apply length_seq. }
  assert (sigma !!! v ∈ sigma) as Hin by (apply list_elem_of_lookup_total_2; lia).
  apply (elem_of_Permutation_proper _ _ _ Hp) in Hin. apply elem_of_seq in Hin. lia.
Qed.

Section CostProofs.
Context (N : nat) (c : list (list Z)).

Lemma assignment_of_lookup s v u :
  (v < length (mate_V s))%nat → mate_V s !!! v = Z.of_nat u →
  assignment_of s !!! v = u.
Proof.
  intros Hv E. unfold assignment_of.
  rewrite (list_lookup_total_fmap Z.to_nat (mate_V s) v) by done.
  rewrite E. apply Nat2Z.id.
Qed.

(** The matching of a perfect state is a bijection. *)
Lemma perfect_assignment s :
  sized N s → perfect N s → is_assignment N (assignment_of s).
Proof.
  intros (lV & _) [Hrow Hcol]. unfold is_assignment.
  assert (Hlen : length (assignment_of s) = N).
  { unfold assignment_of. by rewrite length_fmap. }
  apply NoDup_Permutation.
  - apply NoDup_alt. intros i j x Hi Hj.
    assert (i < N)%nat as Hi' by (apply lookup_lt_Some in Hi; lia).
    assert (j < N)%nat as Hj' by (apply lookup_lt_Some in Hj; lia).
    destruct (Hrow i Hi') as (u & Hu & E1 & E2).
    destruct (Hrow j Hj') as (u' & Hu' & E1' & E2').
    apply list_lookup_total_correct in Hi, Hj.
    rewrite (assignment_of_lookup s i u) in Hi by (done || lia).
    rewrite (assignment_of_lookup s j u') in Hj by (done || lia).
    subst. rewrite E2 in E2'. lia.
  - apply NoDup_seq.
  - intros x. rewrite elem_of_seq. split.
    + intros Hin. apply list_elem_of_lookup_total in Hin as (i & Hi & <-).
      destruct (Hrow i ltac:(lia)) as (u & Hu & E1 & _).
      rewrite (assignment_of_lookup s i u) by (done || lia). lia.
    + intros [_ Hx]. destruct (Hcol x ltac:(lia)) as (v & Hv & _ & E).
      rewrite <- (assignment_of_lookup s v x) by (done || lia).
      apply list_elem_of_lookup_total_2. lia.
Qed.

(** Weak duality: the duals bound every assignment from below. *)
Lemma weak_duality s tau :
  feasible N c s → is_assignment N tau →
  sum_upto (λ i, alpha s !!! i + beta s !!! i) N ≤
  sum_upto (λ v, cost c v (tau !!! v)) N.
Proof.
  intros Hf Ht. rewrite sum_upto_add.
  rewrite <- (sum_upto_assignment N (λ u, beta s !!! u) tau Ht).
  rewrite <- sum_upto_add. apply sum_upto_le. intros v Hv.
  apply Hf; [done|]. by apply assignment_lt.
Qed.

(** Strong duality: on a perfect tight matching the bound is reached. *)
Lemma strong_duality s :
  sized N s → perfect N s → tight N c s →
  sum_upto (λ v, cost c v (assignment_of s !!! v)) N =
  sum_upto (λ i, alpha s !!! i + beta s !!! i) N.
Proof.
  intros Hsz Hp Ht. pose proof (perfect_assignment s Hsz Hp) as Ha.
  rewrite sum_upto_add.
  rewrite <- (sum_upto_assignment N (λ u, beta s !!! u) _ Ha).
  rewrite <- sum_upto_add. apply sum_upto_ext. intros v Hv.
  destruct Hsz as (lV & _). destruct Hp as [Hrow _].
  destruct (Hrow v Hv) as (u & Hu & E & _).
  rewrite (assignment_of_lookup s v u) by (done || lia).
  symmetry. by apply Ht.
Qed.

End CostProofs.

(** * The three formulations *)

(** ** part_002 is hungarian.cpp with [augment] moved into the search *)

Lemma part002_search turns fuel N c : ∀ s,
  Part002.search turns fuel N c s =
    (r ← search_augmenting_alternating_path turns N c s;
     let '(u, s') := r in
     v ← index N (nhbor s' !!! u);
     augment fuel N v u s').
Proof.
  induction turns as [|turns IH]; intros s; [done|].
  cbn [Part002.search search_augmenting_alternating_path]. unfold search_body.
  destruct (update_alpha_beta N s) as [theta s1].
  destruct (scan (seq 0 N) theta [] s1) as [u s2|adm s2]; [done|].
  destruct (for_each (promote N c) adm s2) as [s3|e]; [|done].
  cbn. apply IH.
Qed.

Lemma part002_phase fuel N c s : Part002.phase fuel N c s = phase fuel N c s.
Proof. unfold Part002.phase, phase. apply part002_search. Qed.

Lemma part002_phases fuel N c k s : Part002.phases fuel N c k s = phases fuel N c k s.
Proof.
  induction k as [|k IH]; [done|]. cbn [Part002.phases phases]. rewrite IH.
  destruct (phases fuel N c k s); [|done]. cbn. apply part002_phase.
Qed.

Lemma part002_main fuel match_ N inp : Part002.main fuel match_ N inp = main fuel match_ N inp.
Proof.
  unfold Part002.main, main, Part002.hungarian_algorithm, hungarian_algorithm.
  destruct (read_input N inp) as [c mc]. by rewrite part002_phases.
Qed.

(** More fuel does not change what the search returns. *)
Lemma search_fuel_mono N c fuel : ∀ s u s',
  search_augmenting_alternating_path fuel N c s = Ok (u, s') →
  ∀ fuel', (fuel ≤ fuel')%nat →
    search_augmenting_alternating_path fuel' N c s = Ok (u, s').
Proof.
  induction fuel as [|fuel IH]; intros s u s' E fuel' Hle; [done|].
  destruct fuel' as [|fuel']; [lia|].
  cbn [search_augmenting_alternating_path] in *.
  destruct (search_body N c s) as [[u1 s1|adm s1]|e]; cbn in *; [done| |done].
  apply (IH s1 u s' E). lia.
Qed.

(** ** part_001 agrees with hungarian.cpp where the invariant holds *)

Section Part001Proofs.
Context (N : nat) (c : list (list Z)) (min_col : list Z) (K : Z).
Hypothesis Hc : costs_ok N c min_col K.

(** Halving before the test changes nothing: the minimum slack is even. *)
Lemma part001_halving s :
  search_inv N c min_col K s →
  (ll_div (min_slack N s) 2,
   if bool_decide (ll_div (min_slack N s) 2 > 0)
   then shift N (ll_div (min_slack N s) 2) s else s) = update_alpha_beta N s.
Proof.
  intros Hinv.
  destruct (min_slack_arith N c min_col K Hc s Hinv) as ([H0 _] & Heven & _).
  unfold update_alpha_beta, ll_div.
  destruct (decide (min_slack N s = 0)) as [E|Hne].
  - rewrite E. done.
  - assert (min_slack N s ÷ 2 > 0).
    { rewrite Z.quot_div_nonneg by lia. lia. }
    rewrite !bool_decide_eq_true_2 by lia. done.
Qed.

Lemma part001_search_for i fuel : ∀ s,
  search_inv N c min_col K s → (N - labelled_cols N s ≤ i)%nat →
  Part001.search_for i fuel N c s =
    (r ← search_augmenting_alternating_path i N c s;
     let '(u, s') := r in
     v ← index N (nhbor s' !!! u);
     s'' ← augment fuel N v u s';
     Ok (Part001.Augmented, s'')).
Proof.
  induction i as [|i IH]; intros s Hinv Hi.
  { pose proof (labelled_cols_lt N c min_col K s Hinv). lia. }
  cbn [Part001.search_for search_augmenting_alternating_path]. cbv zeta.
  pose proof (part001_halving s Hinv) as Eh.
  destruct (search_body_arith N c min_col K Hc s Hinv) as (r & Er & Hr).
  unfold search_body in *.
  destruct (update_alpha_beta N s) as [theta s1]. injection Eh as -> ->.
  destruct (scan (seq 0 N) theta [] s1) as [u s2|adm s2]; [done|].
  destruct (for_each (promote N c) adm s2) as [s3|e]; [|done].
  injection Er as <-. destruct Hr as (Hinv' & _ & Hlt & _).
  cbn. apply IH; [done|lia].
Qed.

(** A phase of part_001 ends in the state in which the phase of
    hungarian.cpp ends, and its search returns after an augmentation. *)
Lemma part001_phase fuel s :
  sized N s → matching N s → duals_ok N c min_col K s →
  (matched_rows N s < N)%nat → (matched_cols N s < N)%nat → (N ≤ fuel)%nat →
  ∃ s', phase fuel N c s = Ok s' ∧
    Part001.search fuel N c (phase_start N c s) = Ok (Part001.Augmented, s') ∧
    Part001.phase fuel N c s = Ok s'.
Proof.
  intros Hsz Hm Hd Hr Hcl Hfuel.
  pose proof (seeding_search_inv N c min_col K Hc s Hsz Hm Hd Hr Hcl) as Hinv.
  fold (phase_start N c s) in Hinv.
  assert (Part001.search fuel N c (phase_start N c s) =
    (r ← search_augmenting_alternating_path N N c (phase_start N c s);
     let '(u, s') := r in
     v ← index N (nhbor s' !!! u);
     s'' ← augment fuel N v u s';
     Ok (Part001.Augmented, s''))) as E1.
  { unfold Part001.search. apply part001_search_for; [done|lia]. }
  destruct (search_arith N c min_col K Hc N _ Hinv) as (u & t' & Es & Hfound & _); [lia|].
  destruct (search_arith N c min_col K Hc fuel _ Hinv) as (u2 & t2 & Es2 & _); [lia|].
  assert ((u2, t2) = (u, t')) as Eq.
  { pose proof (search_fuel_mono N c N (phase_start N c s) u t' Es fuel Hfuel) as Em.
    congruence. }
  injection Eq as -> ->.
  destruct (augment_arith N c min_col K fuel u t' Hfound Hfuel)
    as (v & s' & Ei & Ea & _).
  rewrite Es in E1. cbn in E1. rewrite Ei in E1. cbn in E1. rewrite Ea in E1. cbn in E1.
  exists s'. split_and!.
  - unfold phase. fold (phase_start N c s). rewrite Es2. cbn. rewrite Ei. cbn. done.
  - done.
  - unfold Part001.phase. fold (phase_start N c s). by rewrite E1.
Qed.

Lemma part001_phases fuel k :
  (N ≤ fuel)%nat → (k ≤ N)%nat →
  Part001.phases fuel N c k (initialize_alpha_beta N min_col) =
  phases fuel N c k (initialize_alpha_beta N min_col).
Proof.
  intros Hfuel. induction k as [|k IH]; intros Hk; [done|].
  cbn [Part001.phases phases]. rewrite IH by lia.
  destruct (phases_arith N c min_col K Hc fuel k Hfuel)
    as (s & -> & Hsz & Hm & Hd & Hr & Hcl); [lia|]. cbn.
  destruct (part001_phase fuel s Hsz Hm Hd) as (s' & -> & _ & ->); (done || lia).
Qed.

End Part001Proofs.

(** * What the programs print *)

Section OutputProofs.
Context (N : nat) (c : list (list Z)) (min_col : list Z) (K : Z).
Hypothesis Hc : costs_ok N c min_col K.

(** The sum of the duals does not wrap. *)
Lemma opt_cost_exact s :
  duals_ok N c min_col K s →
  for_loop N (λ i (opt_cost : Z),
     ll_add opt_cost (ll_add (alpha s !!! i) (beta s !!! i))) 0 =
  sum_upto (λ i, alpha s !!! i + beta s !!! i) N.
Proof.
  intros Hd. pose proof (K_bounds N c min_col K Hc) as (HK0 & HK5 & HKN).
  assert (Hterm : ∀ i, (i < N)%nat →
    - (2 * K) ≤ alpha s !!! i + beta s !!! i ≤ 2 * K).
  { intros i Hi. destruct (dual_bounds N c min_col K Hc s i i Hd Hi Hi) as (? & ? & ? & ? & _).
    unfold reduced in *. lia. }
  assert (∀ n, (n ≤ N)%nat →
    for_loop n (λ i (opt_cost : Z),
      ll_add opt_cost (ll_add (alpha s !!! i) (beta s !!! i))) 0 =
    sum_upto (λ i, alpha s !!! i + beta s !!! i) n) as H; [|apply H; lia].
  induction n as [|n IH]; intros Hn; [done|].
  rewrite for_loop_S, IH by lia. cbn [sum_upto].
  assert (- (Z.of_nat n * (2 * K)) ≤ sum_upto (λ i, alpha s !!! i + beta s !!! i) n
          ≤ Z.of_nat n * (2 * K)) as Hsum.
  { apply sum_upto_bound. intros i Hi. apply Hterm. lia. }
  specialize (Hterm n ltac:(lia)).
  unfold ll_add. rewrite (wrap_id (alpha s !!! n + beta s !!! n))
    by (unfold ll_min, ll_max in *; lia).
  apply wrap_id. unfold ll_min, ll_max in *. nia.
Qed.

(** The sum of the costs of the matched edges, as part_001 adds them up,
    does not wrap and leaves no vector. *)
Lemma min_cost_exact s :
  sized N s → perfect N s →
  for_each (λ v (min_cost : Z),
      u ← index N (mate_V s !!! v);
      Ok (ll_add min_cost (cost c v u))) (seq 0 N) 0 =
  Ok (sum_upto (λ v, cost c v (assignment_of s !!! v)) N).
Proof.
  intros (lV & _) [Hrow _].
  pose proof (K_bounds N c min_col K Hc) as (HK0 & HK5 & HKN).
  destruct Hc as (_ & _ & Hcost & _).
  assert (∀ n, (n ≤ N)%nat → ∀ acc,
    for_each (λ v (min_cost : Z),
      u ← index N (mate_V s !!! v);
      Ok (ll_add min_cost (cost c v u))) (seq 0 n) acc =
    for_each (λ v (min_cost : Z),
      Ok (ll_add min_cost (cost c v (assignment_of s !!! v)))) (seq 0 n) acc) as Hidx.
  { intros n Hn. assert (∀ l, (∀ v, v ∈ l → (v < N)%nat) → ∀ acc,
      for_each (λ v (min_cost : Z),
        u ← index N (mate_V s !!! v);
        Ok (ll_add min_cost (cost c v u))) l acc =
      for_each (λ v (min_cost : Z),
        Ok (ll_add min_cost (cost c v (assignment_of s !!! v)))) l acc) as Hl.
    { induction l as [|v l IHl]; intros Hin acc; [done|]. cbn [for_each].
      destruct (Hrow v) as (u & Hu & E & _); [apply Hin; by left|].
      rewrite E, index_ok by done. cbn.
      rewrite (assignment_of_lookup s v u) by (done || (rewrite lV; apply Hin; by left)).
      apply IHl. intros w Hw. apply Hin. by right. }
    apply Hl. intros v Hv. apply elem_of_seq in Hv. lia. }
  rewrite Hidx by lia.
  assert (∀ n, (n ≤ N)%nat →
    for_each (λ v (min_cost : Z),
      Ok (ll_add min_cost (cost c v (assignment_of s !!! v)))) (seq 0 n) 0 =
    Ok (sum_upto (λ v, cost c v (assignment_of s !!! v)) n)) as H; [|apply H; lia].
  assert (Hsnoc : ∀ (body : nat → Z → res Z) l x acc,
    for_each body (l ++ [x]) acc = (a ← for_each body l acc; body x a)).
  { intros body l. induction l as [|y l IHl]; intros x acc; cbn [for_each app].
    - cbn. by destruct (body x acc).
    - destruct (body y acc) as [a|e]; [|done]. cbn. apply IHl. }
  induction n as [|n IH]; intros Hn; [done|].
  rewrite seq_S, Hsnoc, IH by lia. cbn. f_equal.
  assert (assignment_of s !!! n < N)%nat as Hlt.
  { destruct (Hrow n ltac:(lia)) as (u & Hu & E & _).
    rewrite (assignment_of_lookup s n u) by (done || lia). done. }
  destruct (Hcost n _ ltac:(lia) Hlt) as [Hr _].
  assert (0 ≤ sum_upto (λ v, cost c v (assignment_of s !!! v)) n ≤ Z.of_nat n * (2 * K))
    as Hsum.
  { assert (- (Z.of_nat n * (2 * K)) ≤ sum_upto (λ v, cost c v (assignment_of s !!! v)) n
            ≤ Z.of_nat n * (2 * K)) as [_ Hub].
    { apply sum_upto_bound. intros i Hi.
      assert (assignment_of s !!! i < N)%nat as Hlti.
      { destruct (Hrow i ltac:(lia)) as (u & Hu & E & _).
        rewrite (assignment_of_lookup s i u) by (done || lia). done. }
      destruct (Hcost i _ ltac:(lia) Hlti) as [? _]. lia. }
    split; [|done].
    assert (sum_upto (λ _, 0) n ≤ sum_upto (λ v, cost c v (assignment_of s !!! v)) n) as H0.
    { apply sum_upto_le. intros i Hi.
      assert (assignment_of s !!! i < N)%nat as Hlti.
      { destruct (Hrow i ltac:(lia)) as (u & Hu & E & _).
        rewrite (assignment_of_lookup s i u) by (done || lia). done. }
      destruct (Hcost i _ ltac:(lia) Hlti) as [? _]. lia. }
    assert (sum_upto (λ _, 0) n = 0) as E0 by (clear; induction n; simpl; lia).
    lia. }
  unfold ll_add. apply wrap_id. unfold ll_min, ll_max in *. nia.
Qed.

End OutputProofs.

(** * The invariants hold in every state of a run *)

Lemma loop_head_structure N c s t :
  structure N s → loop_head N c s t → structure N t.
Proof.
  intros Hst Hl. induction Hl as [|t adm t' _ IH E]; [done|].
  destruct (search_body_structure N c t IH) as (r & Er & Hr).
  rewrite E in Er. injection Er as <-. by destruct Hr.
Qed.

Lemma in_search_structure fuel N c min_col k t :
  in_search fuel N c min_col k t → structure N t.
Proof.
  intros (Hk & s & Eph & Hl).
  destruct (initialize_alpha_beta_structure N min_col) as (Hsz & Hm & _).
  pose proof (phases_structure N c fuel k _ Hsz Hm) as H. rewrite Eph in H.
  destruct H as (Hsz' & Hm' & _).
  apply (loop_head_structure N c (phase_start N c s)); [|done].
  apply (seeding_structure N s); [done|done|]. by apply seeding_all.
Qed.

Section ReachProofs.
Context (N : nat) (c : list (list Z)) (min_col : list Z) (K : Z).
Hypothesis Hc : costs_ok N c min_col K.

Lemma loop_head_inv s t :
  search_inv N c min_col K s → loop_head N c s t → search_inv N c min_col K t.
Proof.
  intros Hinv Hl. induction Hl as [|t adm t' _ IH E]; [done|].
  destruct (search_body_arith N c min_col K Hc t IH) as (r & Er & Hr).
  rewrite E in Er. injection Er as <-. by destruct Hr.
Qed.

(** The search of a phase only visits labelled-column counts that grow. *)
Lemma in_search_inv fuel k t :
  (N ≤ fuel)%nat → in_search fuel N c min_col k t → search_inv N c min_col K t.
Proof.
  intros Hfuel (Hk & s & Eph & Hl).
  destruct (phases_arith N c min_col K Hc fuel k Hfuel)
    as (s' & Eph' & Hsz & Hm & Hd & Hr & Hcl); [lia|].
  rewrite Eph in Eph'. injection Eph' as <-.
  apply (loop_head_inv (phase_start N c s)); [|done].
  apply seeding_search_inv; (done || lia).
Qed.

(** The run returns, in a state with a perfect matching and feasible tight
    duals. *)
Lemma run_ok fuel :
  (N ≤ fuel)%nat →
  ∃ s, hungarian_algorithm fuel N c min_col = Ok s ∧
    sized N s ∧ perfect N s ∧ duals_ok N c min_col K s.
Proof.
  intros Hfuel.
  destruct (phases_arith N c min_col K Hc fuel N Hfuel)
    as (s & Eph & Hsz & Hm & Hd & Hr & Hcl); [lia|].
  exists s. split; [done|]. split; [done|]. split; [|done].
  by apply perfect_of_counts.
Qed.

End ReachProofs.

Lemma perfect_bijection N s : perfect N s → bijection N s.
Proof.
  intros [Hrow Hcol]. unfold bijection. split_and!.
  - intros v Hv. destruct (Hrow v Hv) as (u & Hu & E & _). lia.
  - intros v v' Hv Hv' E. destruct (Hrow v Hv) as (u & Hu & E1 & E2).
    destruct (Hrow v' Hv') as (u' & Hu' & E1' & E2').
    assert (u = u') as -> by lia. rewrite E2 in E2'. lia.
  - intros u Hu. destruct (Hcol u Hu) as (v & Hv & E & _). lia.
  - intros u u' Hu Hu' E. destruct (Hcol u Hu) as (v & Hv & E1 & E2).
    destruct (Hcol u' Hu') as (v' & Hv' & E1' & E2').
    assert (v = v') as -> by lia. rewrite E2 in E2'. lia.
  - intros v u Hv Hu. split; intros E.
    + destruct (Hrow v Hv) as (u' & Hu' & E1 & E2). assert (u' = u) as -> by lia. done.
    + destruct (Hcol u Hu) as (v' & Hv' & E1 & E2). assert (v' = v) as -> by lia. done.
Qed.

(** The cost that hungarian.cpp prints is the least cost of an assignment,
    and part_001 prints the same. *)
Lemma run_output N inp fuel :
  valid_input N inp → (N ≤ fuel)%nat →
  ∃ out,
    main fuel false N inp = Ok (OptCost out) ∧
    Part001.main fuel N inp = Ok out ∧
    optimal_cost N inp out.
Proof.
  intros Hvalid Hfuel.
  destruct (read_input N inp) as [c mc] eqn:Eread.
  destruct (valid_input_costs N inp c mc Hvalid Eread) as [Hc Hcost].
  destruct (run_ok N c mc _ Hc fuel Hfuel) as (s & Erun & Hsz & Hperf & Hd).
  pose proof (perfect_assignment N s Hsz Hperf) as Hassign.
  pose proof Hd as (Hfeas & Htight & Hpar & _).
  assert (Hdouble : ∀ sigma, is_assignment N sigma →
    sum_upto (λ v, cost c v (sigma !!! v)) N = 2 * assignment_cost N inp sigma).
  { intros sigma Hs. unfold assignment_cost. rewrite <- sum_upto_double.
    apply sum_upto_ext. intros v Hv.
    destruct (Hcost v (sigma !!! v) Hv) as [-> _]; [by apply assignment_lt|done]. }
  pose proof (strong_duality N c s Hsz Hperf Htight) as Hstrong.
  rewrite (Hdouble _ Hassign) in Hstrong.
  exists (assignment_cost N inp (assignment_of s)). split_and!.
  - unfold main. rewrite Eread, Erun. cbn. do 2 f_equal.
    rewrite (opt_cost_exact N c mc _ Hc s Hd), <- Hstrong.
    unfold ll_div. rewrite Z.mul_comm. apply Z.quot_mul. lia.
  - unfold Part001.main. rewrite Eread.
    rewrite (part001_phases N c mc _ Hc fuel N Hfuel) by lia.
    unfold hungarian_algorithm in Erun. rewrite Erun. cbn.
    rewrite (min_cost_exact N c mc _ Hc s Hsz Hperf). cbn. f_equal.
    rewrite (Hdouble _ Hassign).
    unfold ll_div. rewrite Z.mul_comm. apply Z.quot_mul. lia.
  - split; [by exists (assignment_of s)|].
    intros tau Ht. pose proof (weak_duality N c s tau Hfeas Ht) as Hweak.
    rewrite (Hdouble _ Ht), <- Hstrong in Hweak. lia.
Qed.

(** * Fuel, parent chains and what the scan finds *)

Lemma augment_fuel_mono N fuel : ∀ v e s s',
  augment fuel N v e s = Ok s' →
  ∀ fuel', (fuel ≤ fuel')%nat → augment fuel' N v e s = Ok s'.
Proof.
  induction fuel as [|fuel IH]; intros v e s s' E fuel' Hle; [done|].
  destruct fuel' as [|fuel']; [lia|].
  cbn [augment] in *. cbv zeta in *.
  case_bool_decide; [|done].
  destruct (index N _) as [p|]; [|done]. cbn in *.
  destruct (index N _) as [a|]; [|done]. cbn in *.
  apply (IH _ _ _ _ E). lia.
Qed.

Lemma phase_fuel_mono N c fuel s s' :
  phase fuel N c s = Ok s' →
  ∀ fuel', (fuel ≤ fuel')%nat → phase fuel' N c s = Ok s'.
Proof.
  unfold phase. intros E fuel' Hle.
  destruct (search_augmenting_alternating_path fuel N c _) as [[u t]|] eqn:Es; [|done].
  rewrite (search_fuel_mono N c fuel _ u t Es fuel' Hle). cbn in *.
  destruct (index N _) as [v|]; [|done]. cbn in *.
  by apply (augment_fuel_mono N fuel).
Qed.

(** A turn that changes nothing is repeated for ever. *)
Lemma search_stuck N c s adm :
  search_body N c s = Ok (Collected adm s) →
  ∀ fuel, search_augmenting_alternating_path fuel N c s = Err OutOfFuel.
Proof.
  intros E fuel. induction fuel as [|fuel IH]; [done|].
  cbn [search_augmenting_alternating_path]. rewrite E. cbn. exact IH.
Qed.

(** From a labelled row the parent pointers lead, through distinct labelled
    rows of decreasing rank, to a row without parent. *)
Lemma parent_chain_spec N s :
  structure N s →
  ∃ rk : nat → nat,
    ∀ fuel v, (v < N)%nat → label_V s !!! v = true → (rk v < fuel)%nat →
      ∃ path root,
        parent_chain fuel N s v = Ok path ∧
        last path = Some root ∧ parent s !!! root = -1 ∧
        mate_V s !!! root = -1 ∧
        NoDup path ∧ (length path ≤ S (rk v))%nat ∧
        (rk v ≤ labelled_cols N s)%nat ∧
        ∀ w, w ∈ path → (w < N)%nat ∧ label_V s !!! w = true ∧ (rk w ≤ rk v)%nat.
Proof.
  intros (_ & _ & [Hm1 _] & _ & _ & [rk Ht]). exists rk.
  induction fuel as [|fuel IH]; intros v Hv HL Hrk; [lia|].
  destruct (Ht v Hv HL) as (Hcnt & Hroot & Hmatched).
  cbn [parent_chain].
  destruct (Hm1 v Hv) as [E|(u & Hu & E & _)].
  - rewrite bool_decide_eq_false_2 by (rewrite (Hroot E); lia).
    exists [v], v. split_and!; try done.
    + by apply Hroot.
    + apply NoDup_singleton.
    + simpl. lia.
    + intros w Hw. apply list_elem_of_singleton in Hw as ->. done.
  - destruct (Hmatched u Hu E) as (p & Hp & Epar & _ & HLp & Hlt).
    rewrite bool_decide_eq_true_2 by lia. rewrite Epar, index_ok by done. cbn.
    destruct (IH p Hp HLp ltac:(lia))
      as (path & root & -> & Hlast & Hr1 & Hr2 & Hnd & Hlen & _ & Hin).
    cbn. exists (v :: path), root. split_and!; try done.
    + destruct path; [done|]. done.
    + apply NoDup_cons. split; [|done]. intros Hv'. apply Hin in Hv' as (_ & _ & ?). lia.
    + simpl. lia.
    + intros w Hw. apply elem_of_cons in Hw as [->|Hw]; [done|].
      destruct (Hin w Hw) as (? & ? & ?). split_and!; (done || lia).
Qed.

(** After the dual update and the scan, every column found admissible has
    its [nhbor] among the labelled rows. *)
Lemma scan_structure N s :
  structure N s →
  match scan (seq 0 N) (update_alpha_beta N s).1 [] (update_alpha_beta N s).2 with
  | Found u s' =>
    structure N s' ∧ (u < N)%nat ∧ unlabelled_U s' u = true ∧ slack s' !!! u = 0 ∧
    ∃ v, (v < N)%nat ∧ nhbor s' !!! u = Z.of_nat v ∧ label_V s' !!! v = true
  | Collected adm s' =>
    structure N s' ∧
    ∀ u, u ∈ adm →
      promotable N s' u ∧
      ∃ v, (v < N)%nat ∧ nhbor s' !!! u = Z.of_nat v ∧ label_V s' !!! v = true
  end.
Proof.
  intros Hst.
  pose proof Hst as ((lmV & lmU & la & lb) & (lnb & lpar & lsl & lLV & lLU) & _).
  destruct (update_alpha_beta_spec N s la lb)
    as (theta & s1 & -> & e1 & e2 & e3 & e4 & e5 & e6 & e7 & la1 & lb1 & _).
  cbn [fst snd].
  assert (Hst1 : structure N s1).
  { apply (structure_frame N s s1); try done; [by rewrite e5|].
    intros u Hu. by rewrite e5. }
  assert (lsl1 : length (slack s1) = N) by (by rewrite e5).
  assert (Hseq : ∀ j, j ∈ seq 0 N → (j < N)%nat).
  { intros j Hj. apply elem_of_seq in Hj. lia. }
  assert (Hvalid : ∀ t u, structure N t → (u < N)%nat → slack t !!! u = 0 →
    ∃ v, (v < N)%nat ∧ nhbor t !!! u = Z.of_nat v ∧ label_V t !!! v = true).
  { intros t u (_ & _ & _ & _ & Hnb & _) Hu Hz.
    destruct (Hnb u Hu) as [?|(_ & Hodd & _)]; [done|]. rewrite Hz in Hodd. done. }
  pose proof (scan_spec N theta (seq 0 N) [] s1 lsl1 (NoDup_seq 0 N) Hseq) as Hscan.
  destruct (scan (seq 0 N) theta [] s1) as [u s2|adm s2].
  - destruct Hscan as (f1&f2&f3&f4&f5&f6&f7&f8&l2&Hin&Hunl&Hunm&Hsl&Hz&Hpt).
    assert (Hst2 : structure N s2).
    { apply (structure_frame N s1 s2); try done; [congruence|congruence|].
      intros j Hj. destruct (Hpt j Hj) as [->|[_ ->]]; [done|]. apply decr_parity. }
    assert (u < N)%nat by (by apply Hseq).
    split_and!; try done.
    + unfold unlabelled_U in *. by rewrite f8.
    + congruence.
    + apply Hvalid; [done|done|congruence].
  - destruct Hscan as (f1&f2&f3&f4&f5&f6&f7&f8&l2&Hpt&Hadm&Hmat&Hnd).
    assert (Hst2 : structure N s2).
    { apply (structure_frame N s1 s2); try done; [congruence|congruence|].
      intros j Hj. rewrite (Hpt j Hj).
      destruct (unlabelled_U s1 j && bool_decide (j ∈ seq 0 N)); [|done].
      apply decr_parity. }
    split; [done|]. intros u Hu.
    apply Hadm in Hu as [Hu|(Hu & Hunl & Hz)]; [by apply not_elem_of_nil in Hu|].
    assert (u < N)%nat as Hlt by (by apply Hseq).
    assert (slack s2 !!! u = 0) as Hz2.
    { rewrite (Hpt u Hlt), Hunl. rewrite bool_decide_eq_true_2 by done. done. }
    split; [|by apply Hvalid].
    split; [done|]. split_and!.
    + unfold unlabelled_U in *. by rewrite f8.
    + done.
    + specialize (Hmat u Hu Hunl Hz). unfold unmatched_U in *. by rewrite f2.
Qed.

(** * The claims of the specification *)

(** ** Facts shared by the claims *)

Lemma unscale N inp c s :
  (∀ v u, (v < N)%nat → (u < N)%nat → cost c v u = 2 * cost inp v u) →
  parity N s →
  (feasible N c s → feasible_unscaled N inp s) ∧
  (tight N c s → tight_unscaled N inp s).
Proof.
  intros Hcost Hp. split.
  - intros Hf v u Hv Hu. specialize (Hf v u Hv Hu). specialize (Hp v u Hv Hu).
    rewrite Hcost in Hf by done. split; [done|lia].
  - intros Ht v u Hv Hu E. specialize (Ht v u Hv Hu E). specialize (Hp v u Hv Hu).
    rewrite Hcost in Ht by done. split; [done|lia].
Qed.

Lemma example5_valid : valid_input 5 example5.
Proof. apply (bool_decide_unpack _). vm_compute. exact I. Defined.

Lemma example5_nonneg : nonneg_input 5 example5.
Proof. apply (bool_decide_unpack _). vm_compute. exact I. Defined.

Lemma example5_read : read_input 5 example5 = (example5_c, example5_min_col).
Proof. vm_compute. reflexivity. Defined.

Lemma example5_in_search :
  in_search 5 5 example5_c example5_min_col 0 example5_t0.
Proof.
  split; [lia|]. exists example5_s0. split; [reflexivity|]. apply loop_head_first.
Defined.

Lemma huge2_read : read_input 2 huge2 = (huge2_c, huge2_min_col).
Proof. vm_compute. reflexivity. Qed.

(** On [huge2] the second phase of hungarian.cpp never finds a column: the
    doubled costs wrapped, no slack was recorded, and the search repeats
    one turn for ever. *)
Lemma huge2_hangs fuel :
  hungarian_algorithm fuel 2 huge2_c huge2_min_col = Err OutOfFuel.
Proof.
  unfold hungarian_algorithm.
  destruct fuel as [|fuel]; [vm_compute; reflexivity|].
  cbn [phases mbind res_bind].
  assert (phase (S fuel) 2 huge2_c (initialize_alpha_beta 2 huge2_min_col) = Ok huge2_s1)
    as ->.
  { apply (phase_fuel_mono 2 huge2_c 1); [vm_compute; reflexivity|lia]. }
  cbn [mbind res_bind]. unfold phase. fold (phase_start 2 huge2_c huge2_s1).
  cbn [search_augmenting_alternating_path].
  assert (search_body 2 huge2_c (phase_start 2 huge2_c huge2_s1)
          = Ok (Collected [] huge2_stuck)) as -> by (vm_compute; reflexivity).
  cbn [mbind res_bind].
  rewrite (search_stuck 2 huge2_c huge2_stuck []); [done|].
  vm_compute. reflexivity.
Qed.

Lemma example5_in_search3 :
  in_search 5 5 example5_c example5_min_col 3 example5_t3.
Proof.
  split; [lia|]. exists example5_s3. split; [vm_compute; reflexivity|].
  apply loop_head_first.
Defined.

(** The second turn of the search of the second phase on [huge2]. *)
Lemma huge2_in_search :
  in_search 2 2 huge2_c huge2_min_col 1 huge2_stuck.
Proof.
  split; [lia|]. exists huge2_s1. split; [vm_compute; reflexivity|].
  apply (loop_head_next 2 huge2_c _ (phase_start 2 huge2_c huge2_s1) []);
    [apply loop_head_first|vm_compute; reflexivity].
Qed.

Lemma huge2_slacks u :
  (u < 2)%nat →
  unlabelled_U huge2_stuck u = true ∧
  slack huge2_stuck !!! u = 1 ∧
  decr (update_alpha_beta 2 huge2_stuck).2 (update_alpha_beta 2 huge2_stuck).1 u = 1.
Proof.
  intros Hu. destruct u as [|[|u]]; [| |lia]; vm_compute; done.
Qed.

(** ** C1 *)

(** C1, as stated, fails: the cost [2^62] of the one by one matrix [huge1]
    is a non-negative [long long], its double wraps to [-2^63], and
    hungarian.cpp prints [-2^62], which is not the cost of the only
    assignment. *)
Lemma C1_overflow_counterexample :
  nonneg_input 1 huge1 ∧
  main 1 false 1 huge1 = Ok (OptCost (- 2 ^ 62)) ∧
  ¬ optimal_cost 1 huge1 (- 2 ^ 62).
Proof.
  split; [apply (bool_decide_unpack _); vm_compute; exact I|].
  split; [vm_compute; reflexivity|].
  intros [(sigma & Hs & E) _]. unfold is_assignment in Hs. cbn in Hs.
  symmetry in Hs. apply Permutation_singleton_l in Hs. subst sigma.
  vm_compute in E. discriminate.
Qed.

(** C1 (amended): for every [N] and every [N] by [N] matrix of costs between
    [0] and [cost_bound N] (so that no sum leaves 64 bits), hungarian.cpp in
    cost mode returns, given fuel for [N] turns, and prints the least cost
    of a bijection between rows and columns, in the costs of the input. *)
Theorem C1_cost_is_optimal N inp fuel :
  valid_input N inp → (N ≤ fuel)%nat →
  ∃ out, main fuel false N inp = Ok (OptCost out) ∧ optimal_cost N inp out.
Proof.
  intros Hv Hf. destruct (run_output N inp fuel Hv Hf) as (out & E & _ & Ho).
  by exists out.
Qed.

Lemma C1_cost_is_optimal_witness :
  valid_input 5 example5 ∧ (5 ≤ 5)%nat ∧
  ∃ out, main 5 false 5 example5 = Ok (OptCost out) ∧ optimal_cost 5 example5 out.
Proof.
  split; [exact example5_valid|]. split; [lia|].
  apply (C1_cost_is_optimal 5 example5 5); [exact example5_valid|lia].
Defined.

(** ** C2 *)

(** C2: for every [N] by [N] matrix of non-negative integers, whenever
    [hungarian_algorithm] returns, [mate_V] maps the rows into [0, N) without
    repetition, [mate_U] maps the columns into [0, N) without repetition, and
    [mate_V[v] = u] exactly when [mate_U[u] = v]; and it does return, given
    fuel for [N] turns, when the costs are at most [cost_bound N]. *)
Theorem C2_matching_is_bijection N inp c min_col fuel :
  nonneg_input N inp → read_input N inp = (c, min_col) →
  (∀ s, hungarian_algorithm fuel N c min_col = Ok s → bijection N s) ∧
  (valid_input N inp → (N ≤ fuel)%nat →
     ∃ s, hungarian_algorithm fuel N c min_col = Ok s).
Proof.
  intros _ Eread. split.
  - intros s E. pose proof (hungarian_algorithm_structure N c fuel min_col) as H.
    rewrite E in H. destruct H as [_ Hp]. by apply perfect_bijection.
  - intros Hv Hf. destruct (valid_input_costs N inp c min_col Hv Eread) as [Hc _].
    destruct (run_ok N c min_col _ Hc fuel Hf) as (s & E & _). by exists s.
Qed.

Lemma C2_matching_is_bijection_witness :
  nonneg_input 5 example5 ∧
  read_input 5 example5 = (example5_c, example5_min_col) ∧
  (∀ s, hungarian_algorithm 5 5 example5_c example5_min_col = Ok s → bijection 5 s) ∧
  (valid_input 5 example5 → (5 ≤ 5)%nat →
     ∃ s, hungarian_algorithm 5 5 example5_c example5_min_col = Ok s).
Proof.
  split; [exact example5_nonneg|]. split; [exact example5_read|].
  apply (C2_matching_is_bijection 5 example5 example5_c example5_min_col 5);
    [exact example5_nonneg|exact example5_read].
Defined.

(** ** C3 *)

(** C3, as stated, fails: on the two by two matrix [huge2] of non-negative
    [long long] costs, hungarian.cpp and part_002 never leave the search of
    the second phase, whatever the fuel, while the loop of part_001 runs
    to its end without an augmentation and [main] then reads
    [c[0][mate_V[0]]] with [mate_V[0] = -1]. *)
Lemma C3_overflow_counterexample :
  nonneg_input 2 huge2 ∧
  (∀ fuel, main fuel false 2 huge2 = Err OutOfFuel) ∧
  (∀ fuel, Part002.main fuel false 2 huge2 = Err OutOfFuel) ∧
  (∀ fuel, Part001.main (S fuel) 2 huge2 = Err OutOfBounds).
Proof.
  assert (∀ fuel, main fuel false 2 huge2 = Err OutOfFuel) as Hmain.
  { intros fuel. unfold main. rewrite huge2_read, huge2_hangs. reflexivity. }
  split; [apply (bool_decide_unpack _); vm_compute; exact I|].
  split; [exact Hmain|]. split.
  - intros fuel. rewrite part002_main. apply Hmain.
  - intros fuel. vm_compute. reflexivity.
Qed.

(** C3 (amended): for every [N] and every [N] by [N] matrix of costs between
    [0] and [cost_bound N], hungarian.cpp, part_001 and part_002 print the
    same cost, the least cost of an assignment, although part_001 adds up
    the costs of the matched edges and the other two the duals. *)
Theorem C3_same_output N inp fuel :
  valid_input N inp → (N ≤ fuel)%nat →
  ∃ out,
    main fuel false N inp = Ok (OptCost out) ∧
    Part001.main fuel N inp = Ok out ∧
    Part002.main fuel false N inp = Ok (OptCost out) ∧
    optimal_cost N inp out.
Proof.
  intros Hv Hf. destruct (run_output N inp fuel Hv Hf) as (out & E & E1 & Ho).
  exists out. rewrite part002_main. done.
Qed.

Lemma C3_same_output_witness :
  valid_input 5 example5 ∧ (5 ≤ 5)%nat ∧
  ∃ out,
    main 5 false 5 example5 = Ok (OptCost out) ∧
    Part001.main 5 5 example5 = Ok out ∧
    Part002.main 5 false 5 example5 = Ok (OptCost out) ∧
    optimal_cost 5 example5 out.
Proof.
  split; [exact example5_valid|]. split; [lia|].
  apply (C3_same_output 5 example5 5); [exact example5_valid|lia].
Defined.

(** ** C4 *)

(** C4, as stated, fails: on the three by three matrix [huge3] of
    non-negative [long long] costs the doubled first column wraps to
    [-2^63]; the dual shift of the third phase takes [beta[0]] from [-2^63]
    to [2^63 - 1], and at the end of that phase [alpha[0] + beta[0] = 2^63]
    exceeds [c[0][0] = -2^63]; hungarian.cpp then prints a negative cost. *)
Lemma C4_overflow_counterexample :
  nonneg_input 3 huge3 ∧
  read_input 3 huge3 = (huge3_c, huge3_min_col) ∧
  phases 3 3 huge3_c 3 (initialize_alpha_beta 3 huge3_min_col) = Ok huge3_s3 ∧
  alpha huge3_s3 !!! 0%nat + beta huge3_s3 !!! 0%nat = 2 ^ 63 ∧
  cost huge3_c 0 0 = - 2 ^ 63 ∧
  ¬ feasible 3 huge3_c huge3_s3 ∧
  main 3 false 3 huge3 = Ok (OptCost (- (2 ^ 62 - 1))).
Proof.
  split; [apply (bool_decide_unpack _); vm_compute; exact I|].
  split; [vm_compute; reflexivity|]. split; [vm_compute; reflexivity|].
  split; [vm_compute; reflexivity|]. split; [vm_compute; reflexivity|].
  split; [|vm_compute; reflexivity].
  intros Hf. specialize (Hf O O ltac:(lia) ltac:(lia)). vm_compute in Hf. done.
Qed.

(** C4 (amended): for every [N] by [N] matrix of costs between [0] and
    [cost_bound N] (so that no sum leaves 64 bits),
    [alpha[v] + beta[u] <= c[v][u]] holds for all rows and columns, in the
    doubled costs and, the duals halved, in the costs of the input: in the
    state that [initialize_alpha_beta] builds, at the end of every phase,
    and at every turn of every search before and after the dual update. *)
Theorem C4_dual_feasibility N inp c min_col fuel :
  valid_input N inp → read_input N inp = (c, min_col) → (N ≤ fuel)%nat →
  feasible N c (initialize_alpha_beta N min_col) ∧
  (∀ k, (k ≤ N)%nat →
     ∃ s, phases fuel N c k (initialize_alpha_beta N min_col) = Ok s ∧
          feasible N c s ∧ feasible_unscaled N inp s) ∧
  (∀ k t, in_search fuel N c min_col k t →
     feasible N c t ∧ feasible_unscaled N inp t ∧
     feasible N c (update_alpha_beta N t).2 ∧
     feasible_unscaled N inp (update_alpha_beta N t).2).
Proof.
  intros Hv Eread Hf.
  destruct (valid_input_costs N inp c min_col Hv Eread) as [Hc Hcost].
  assert (Hcost' : ∀ v u, (v < N)%nat → (u < N)%nat → cost c v u = 2 * cost inp v u).
  { intros v u Hv' Hu'. by destruct (Hcost v u Hv' Hu'). }
  split_and!.
  - by destruct (initial_duals_ok N c min_col _ Hc).
  - intros k Hk.
    destruct (phases_arith N c min_col _ Hc fuel k Hf Hk)
      as (s & E & _ & _ & (Hfe & _ & Hp & _) & _).
    exists s. split; [done|]. split; [done|].
    by apply (unscale N inp c s Hcost' Hp).
  - intros k t Hin.
    pose proof (in_search_inv N c min_col _ Hc fuel k t Hf Hin) as Hinv.
    destruct (update_alpha_beta_arith N c min_col _ Hc t Hinv)
      as (theta & t1 & -> & _ & _ & _ & _ & _ & _ & _ & _ & _ & _ & (Hf1 & _ & Hp1 & _) & _).
    destruct Hinv as (_ & (Hfe & _ & Hp & _) & _). cbn [snd].
    split_and!; try done.
    + by apply (unscale N inp c t Hcost' Hp).
    + by apply (unscale N inp c t1 Hcost' Hp1).
Qed.

Lemma C4_dual_feasibility_witness :
  valid_input 5 example5 ∧
  read_input 5 example5 = (example5_c, example5_min_col) ∧ (5 ≤ 5)%nat ∧
  feasible 5 example5_c (initialize_alpha_beta 5 example5_min_col) ∧
  (∀ k, (k ≤ 5)%nat →
     ∃ s, phases 5 5 example5_c k (initialize_alpha_beta 5 example5_min_col) = Ok s ∧
          feasible 5 example5_c s ∧ feasible_unscaled 5 example5 s) ∧
  (∀ k t, in_search 5 5 example5_c example5_min_col k t →
     feasible 5 example5_c t ∧ feasible_unscaled 5 example5 t ∧
     feasible 5 example5_c (update_alpha_beta 5 t).2 ∧
     feasible_unscaled 5 example5 (update_alpha_beta 5 t).2).
Proof.
  split; [exact example5_valid|]. split; [exact example5_read|]. split; [lia|].
  apply (C4_dual_feasibility 5 example5 example5_c example5_min_col 5);
    [exact example5_valid|exact example5_read|lia].
Defined.

(** ** C5 *)

(** C5, as stated, fails: on the two by two matrix [huge4] of non-negative
    [long long] costs the run returns with row [1] matched to column [1],
    whose doubled cost wrapped to [-2^63]: half of
    [alpha[1] + beta[1]] is [-2^62], not the cost [2^62] of that edge. And
    on [huge3] the matched edge of row [1], to column [0], is not tight in
    the doubled costs at the end of the third phase:
    [alpha[1] + beta[0] = 2^63] and [c[1][0] = -2^63]. *)
Lemma C5_overflow_counterexample :
  nonneg_input 2 huge4 ∧
  read_input 2 huge4 = (huge4_c, huge4_min_col) ∧
  phases 2 2 huge4_c 2 (initialize_alpha_beta 2 huge4_min_col) = Ok huge4_s2 ∧
  mate_V huge4_s2 !!! 1%nat = 1 ∧
  (alpha huge4_s2 !!! 1%nat + beta huge4_s2 !!! 1%nat) / 2 = - 2 ^ 62 ∧
  cost huge4 1 1 = 2 ^ 62 ∧
  ¬ tight_unscaled 2 huge4 huge4_s2 ∧
  nonneg_input 3 huge3 ∧
  read_input 3 huge3 = (huge3_c, huge3_min_col) ∧
  phases 3 3 huge3_c 3 (initialize_alpha_beta 3 huge3_min_col) = Ok huge3_s3 ∧
  mate_V huge3_s3 !!! 1%nat = 0 ∧
  alpha huge3_s3 !!! 1%nat + beta huge3_s3 !!! 0%nat = 2 ^ 63 ∧
  cost huge3_c 1 0 = - 2 ^ 63 ∧
  ¬ tight 3 huge3_c huge3_s3.
Proof.
  split; [apply (bool_decide_unpack _); vm_compute; exact I|].
  split; [vm_compute; reflexivity|]. split; [vm_compute; reflexivity|].
  split; [vm_compute; reflexivity|]. split; [vm_compute; reflexivity|].
  split; [vm_compute; reflexivity|].
  split.
  { intros Ht.
    destruct (Ht 1%nat 1%nat ltac:(lia) ltac:(lia) ltac:(vm_compute; reflexivity))
      as [_ E].
    vm_compute in E. done. }
  split; [apply (bool_decide_unpack _); vm_compute; exact I|].
  split; [vm_compute; reflexivity|]. split; [vm_compute; reflexivity|].
  split; [vm_compute; reflexivity|]. split; [vm_compute; reflexivity|].
  split; [vm_compute; reflexivity|].
  intros Ht.
  specialize (Ht 1%nat O ltac:(lia) ltac:(lia) ltac:(vm_compute; reflexivity)).
  vm_compute in Ht. done.
Qed.

(** C5 (amended): for every [N] by [N] matrix of costs between [0] and
    [cost_bound N], at the end of every phase every matched pair
    is tight, [alpha[v] + beta[mate_V[v]] = c[v][mate_V[v]]], in the doubled
    costs and, the duals halved, in the costs of the input; and the edge
    from [nhbor[u]] to the column [u] that the search of a phase returns,
    the first edge that [augment] puts into the matching, is tight when
    the search returns. *)
Theorem C5_matched_edges_tight N inp c min_col fuel :
  valid_input N inp → read_input N inp = (c, min_col) → (N ≤ fuel)%nat →
  (∀ k, (k ≤ N)%nat →
     ∃ s, phases fuel N c k (initialize_alpha_beta N min_col) = Ok s ∧
          tight N c s ∧ tight_unscaled N inp s) ∧
  (∀ k, (k < N)%nat →
     ∃ s u t v, phases fuel N c k (initialize_alpha_beta N min_col) = Ok s ∧
       search_augmenting_alternating_path fuel N c (phase_start N c s) = Ok (u, t) ∧
       nhbor t !!! u = Z.of_nat v ∧ (v < N)%nat ∧ (u < N)%nat ∧
       alpha t !!! v + beta t !!! u = cost c v u).
Proof.
  intros Hv Eread Hf.
  destruct (valid_input_costs N inp c min_col Hv Eread) as [Hc Hcost].
  assert (Hcost' : ∀ v u, (v < N)%nat → (u < N)%nat → cost c v u = 2 * cost inp v u).
  { intros v u Hv' Hu'. by destruct (Hcost v u Hv' Hu'). }
  split.
  - intros k Hk.
    destruct (phases_arith N c min_col _ Hc fuel k Hf Hk)
      as (s & E & _ & _ & (_ & Ht & Hp & _) & _).
    exists s. split; [done|]. split; [done|].
    by apply (unscale N inp c s Hcost' Hp).
  - intros k Hk.
    destruct (phases_arith N c min_col _ Hc fuel k Hf ltac:(lia))
      as (s & E & Hsz & Hm & Hd & Hr & Hcl).
    pose proof (seeding_search_inv N c min_col _ Hc s Hsz Hm Hd ltac:(lia) ltac:(lia))
      as Hinv.
    destruct (search_arith N c min_col _ Hc fuel _ Hinv)
      as (u & t & Es & (_ & _ & _ & Hu & _ & _ & _ & (v & Hv' & Env & _ & Et)) & _);
      [lia|].
    exists s, u, t, v. done.
Qed.

Lemma C5_matched_edges_tight_witness :
  valid_input 5 example5 ∧
  read_input 5 example5 = (example5_c, example5_min_col) ∧ (5 ≤ 5)%nat ∧
  (∀ k, (k ≤ 5)%nat →
     ∃ s, phases 5 5 example5_c k (initialize_alpha_beta 5 example5_min_col) = Ok s ∧
          tight 5 example5_c s ∧ tight_unscaled 5 example5 s) ∧
  (∀ k, (k < 5)%nat →
     ∃ s u t v,
       phases 5 5 example5_c k (initialize_alpha_beta 5 example5_min_col) = Ok s ∧
       search_augmenting_alternating_path 5 5 example5_c (phase_start 5 example5_c s)
         = Ok (u, t) ∧
       nhbor t !!! u = Z.of_nat v ∧ (v < 5)%nat ∧ (u < 5)%nat ∧
       alpha t !!! v + beta t !!! u = cost example5_c v u).
Proof.
  split; [exact example5_valid|]. split; [exact example5_read|]. split; [lia|].
  apply (C5_matched_edges_tight 5 example5 example5_c example5_min_col 5);
    [exact example5_valid|exact example5_read|lia].
Defined.

(** ** C6 *)

(** C6, as stated, fails: on the two by two matrix [huge2] of non-negative
    [long long] costs, at the second turn of the search of the second
    phase, the least slack of the unlabelled columns is [1], positive and
    odd: [theta /= 2LL] leaves [0], twice of which is not the least slack,
    nothing is added to the duals or taken off the slacks, and every
    slack is still [1] after [slack[u] -= 2LL*theta]. *)
Lemma C6_overflow_counterexample :
  nonneg_input 2 huge2 ∧
  read_input 2 huge2 = (huge2_c, huge2_min_col) ∧
  in_search 2 2 huge2_c huge2_min_col 1 huge2_stuck ∧
  min_slack 2 huge2_stuck = 1 ∧
  (min_slack 2 huge2_stuck) mod 2 = 1 ∧
  (update_alpha_beta 2 huge2_stuck).1 = 0 ∧
  2 * ll_div (min_slack 2 huge2_stuck) 2 ≠ min_slack 2 huge2_stuck ∧
  (∀ u, (u < 2)%nat →
     unlabelled_U huge2_stuck u = true ∧
     decr (update_alpha_beta 2 huge2_stuck).2 (update_alpha_beta 2 huge2_stuck).1 u
     ≠ slack huge2_stuck !!! u - min_slack 2 huge2_stuck).
Proof.
  split; [apply (bool_decide_unpack _); vm_compute; exact I|].
  split; [exact huge2_read|]. split; [exact huge2_in_search|].
  split; [vm_compute; reflexivity|]. split; [vm_compute; reflexivity|].
  split; [vm_compute; reflexivity|]. split; [vm_compute; done|].
  intros u Hu. destruct (huge2_slacks u Hu) as (Hl & Hs & Hd).
  split; [done|]. rewrite Hd, Hs. vm_compute. done.
Qed.

(** C6 (amended): for every [N] by [N] matrix of costs between [0] and
    [cost_bound N], at every turn of every search the minimum
    [theta] of the slacks of the unlabelled columns is finite, non-negative
    and even, so that [theta /= 2LL] is exact, and [slack[u] -= 2LL*theta]
    takes exactly that minimum off every unlabelled slack; the dual update
    adds or subtracts the halved [theta] as integers, without wrap-around;
    and [alpha[v] + beta[u]] is even for all rows and columns before and
    after the dual update. *)
Theorem C6_theta_is_even N inp c min_col fuel k t :
  valid_input N inp → read_input N inp = (c, min_col) → (N ≤ fuel)%nat →
  in_search fuel N c min_col k t →
  0 ≤ min_slack N t < ll_max ∧ (min_slack N t) mod 2 = 0 ∧
  2 * ll_div (min_slack N t) 2 = min_slack N t ∧
  (∀ u, (u < N)%nat → unlabelled_U t u = true →
     decr (update_alpha_beta N t).2 (update_alpha_beta N t).1 u
     = slack t !!! u - min_slack N t) ∧
  (∀ i, (i < N)%nat →
     alpha (update_alpha_beta N t).2 !!! i =
       alpha t !!! i +
       (if (label_V t !!! i : bool) then (update_alpha_beta N t).1
        else - (update_alpha_beta N t).1) ∧
     beta (update_alpha_beta N t).2 !!! i =
       beta t !!! i +
       (if (label_U t !!! i : bool) then - (update_alpha_beta N t).1
        else (update_alpha_beta N t).1)) ∧
  parity N t ∧ parity N (update_alpha_beta N t).2.
Proof.
  intros Hv Eread Hf Hin.
  destruct (valid_input_costs N inp c min_col Hv Eread) as [Hc _].
  pose proof (in_search_inv N c min_col _ Hc fuel k t Hf Hin) as Hinv.
  pose proof (K_bounds N c min_col _ Hc) as (HK0 & HK5 & _).
  destruct (min_slack_arith N c min_col _ Hc t Hinv) as ([H0 H4] & Heven & Hmle & _).
  pose proof (λ i, update_alpha_beta_exact N c min_col _ Hc t i Hinv) as Hexact.
  destruct (update_alpha_beta_arith N c min_col _ Hc t Hinv)
    as (theta & t1 & Eu & H2t & Ht0 & _ & _ & _ & _ & Esl & _ & _ & _ & (_ & _ & Hp1 & _) & _).
  rewrite Eu in *.
  destruct Hinv as (_ & Hd & _ & Hsl & _). cbn [fst snd] in *.
  split; [unfold ll_max in *; lia|]. split; [done|].
  split; [unfold ll_div; rewrite Z.quot_div_nonneg by lia; lia|].
  split; [|split; [exact Hexact|split; [by destruct Hd as (_ & _ & ? & _)|done]]].
  intros u Hu Hunl.
  assert (label_U t !!! u = false) as EL.
  { unfold unlabelled_U in Hunl. by destruct (label_U t !!! u). }
  destruct (Hsl u Hu EL) as (v & Hv' & _ & _ & E & _).
  destruct (dual_bounds N c min_col _ Hc t v u Hd Hv' Hu) as (_ & _ & _ & ? & _).
  specialize (Hmle u Hu EL).
  rewrite (decr_exact N c min_col _ Hc t1 theta u); rewrite ?Esl; lia.
Qed.

Lemma C6_theta_is_even_witness :
  valid_input 5 example5 ∧
  read_input 5 example5 = (example5_c, example5_min_col) ∧ (5 ≤ 5)%nat ∧
  in_search 5 5 example5_c example5_min_col 3 example5_t3 ∧
  (0 ≤ min_slack 5 example5_t3 < ll_max ∧ (min_slack 5 example5_t3) mod 2 = 0 ∧
   2 * ll_div (min_slack 5 example5_t3) 2 = min_slack 5 example5_t3 ∧
   (∀ u, (u < 5)%nat → unlabelled_U example5_t3 u = true →
      decr (update_alpha_beta 5 example5_t3).2 (update_alpha_beta 5 example5_t3).1 u
      = slack example5_t3 !!! u - min_slack 5 example5_t3) ∧
   (∀ i, (i < 5)%nat →
      alpha (update_alpha_beta 5 example5_t3).2 !!! i =
        alpha example5_t3 !!! i +
        (if (label_V example5_t3 !!! i : bool) then (update_alpha_beta 5 example5_t3).1
         else - (update_alpha_beta 5 example5_t3).1) ∧
      beta (update_alpha_beta 5 example5_t3).2 !!! i =
        beta example5_t3 !!! i +
        (if (label_U example5_t3 !!! i : bool) then - (update_alpha_beta 5 example5_t3).1
         else (update_alpha_beta 5 example5_t3).1)) ∧
   parity 5 example5_t3 ∧ parity 5 (update_alpha_beta 5 example5_t3).2).
Proof.
  split; [exact example5_valid|]. split; [exact example5_read|]. split; [lia|].
  split; [exact example5_in_search3|].
  apply (C6_theta_is_even 5 example5 example5_c example5_min_col 5 3 example5_t3);
    [exact example5_valid|exact example5_read|lia|exact example5_in_search3].
Defined.

(** ** C7 *)

(** C7, as stated, fails: on the two by two matrix [huge2] of non-negative
    [long long] costs the search of the second phase of hungarian.cpp
    never returns, whatever the fuel, and the loop of [search] in part_001
    runs to its end without an augmentation. *)
Lemma C7_overflow_counterexample :
  nonneg_input 2 huge2 ∧
  read_input 2 huge2 = (huge2_c, huge2_min_col) ∧
  phases 2 2 huge2_c 1 (initialize_alpha_beta 2 huge2_min_col) = Ok huge2_s1 ∧
  Part001.phases 2 2 huge2_c 1 (initialize_alpha_beta 2 huge2_min_col) = Ok huge2_s1 ∧
  (∀ fuel, search_augmenting_alternating_path fuel 2 huge2_c
             (phase_start 2 huge2_c huge2_s1) = Err OutOfFuel) ∧
  (∀ fuel, Part001.search fuel 2 huge2_c (phase_start 2 huge2_c huge2_s1)
           = Ok (Part001.FellThrough, huge2_stuck)).
Proof.
  split; [apply (bool_decide_unpack _); vm_compute; exact I|].
  split; [exact huge2_read|]. split; [vm_compute; reflexivity|].
  split; [vm_compute; reflexivity|]. split.
  - intros [|fuel]; [done|].
    cbn [search_augmenting_alternating_path].
    assert (search_body 2 huge2_c (phase_start 2 huge2_c huge2_s1)
            = Ok (Collected [] huge2_stuck)) as -> by (vm_compute; reflexivity).
    cbn [mbind res_bind].
    apply (search_stuck 2 huge2_c huge2_stuck []). vm_compute. reflexivity.
  - intros fuel. reflexivity.
Qed.

(** C7 (amended): for every [N] by [N] matrix of costs between [0] and
    [cost_bound N] and every phase, the search of hungarian.cpp
    returns within [N] turns of its [while] loop, with a column that is
    unmatched and admissible; and the loop of [search] in part_001, bounded
    by [N], returns after an augmentation, not by running to its end. *)
Theorem C7_search_returns N inp c min_col fuel k :
  valid_input N inp → read_input N inp = (c, min_col) → (N ≤ fuel)%nat →
  (k < N)%nat →
  ∃ s u t s',
    phases fuel N c k (initialize_alpha_beta N min_col) = Ok s ∧
    search_augmenting_alternating_path N N c (phase_start N c s) = Ok (u, t) ∧
    unmatched_U t u = true ∧ admissible_U t u = true ∧
    Part001.phases fuel N c k (initialize_alpha_beta N min_col) = Ok s ∧
    Part001.search fuel N c (phase_start N c s) = Ok (Part001.Augmented, s').
Proof.
  intros Hv Eread Hf Hk.
  destruct (valid_input_costs N inp c min_col Hv Eread) as [Hc _].
  destruct (phases_arith N c min_col _ Hc fuel k Hf ltac:(lia))
    as (s & E & Hsz & Hm & Hd & Hr & Hcl).
  pose proof (seeding_search_inv N c min_col _ Hc s Hsz Hm Hd ltac:(lia) ltac:(lia))
    as Hinv.
  destruct (search_arith N c min_col _ Hc N _ Hinv)
    as (u & t & Es & (_ & _ & _ & Hu & _ & Hunm & Hz & _) & _); [lia|].
  destruct (part001_phase N c min_col _ Hc fuel s Hsz Hm Hd ltac:(lia) ltac:(lia) Hf)
    as (s' & _ & E1 & _).
  exists s, u, t, s'. split_and!; try done.
  - unfold admissible_U. by apply bool_decide_eq_true_2.
  - rewrite (part001_phases N c min_col _ Hc fuel k Hf) by lia. done.
Qed.

Lemma C7_search_returns_witness :
  valid_input 5 example5 ∧
  read_input 5 example5 = (example5_c, example5_min_col) ∧ (5 ≤ 5)%nat ∧ (3 < 5)%nat ∧
  ∃ s u t s',
    phases 5 5 example5_c 3 (initialize_alpha_beta 5 example5_min_col) = Ok s ∧
    search_augmenting_alternating_path 5 5 example5_c (phase_start 5 example5_c s)
      = Ok (u, t) ∧
    unmatched_U t u = true ∧ admissible_U t u = true ∧
    Part001.phases 5 5 example5_c 3 (initialize_alpha_beta 5 example5_min_col) = Ok s ∧
    Part001.search 5 5 example5_c (phase_start 5 example5_c s)
      = Ok (Part001.Augmented, s').
Proof.
  split; [exact example5_valid|]. split; [exact example5_read|]. split; [lia|].
  split; [lia|].
  apply (C7_search_returns 5 example5 example5_c example5_min_col 5 3);
    [exact example5_valid|exact example5_read|lia|lia].
Defined.

(** ** C8 *)

(** C8, as stated, fails: on the two by two matrix [huge2] of non-negative
    [long long] costs, at the second turn of the search of the second
    phase, every column is unlabelled and every slack is [1] after
    [slack[u] -= 2LL*theta]: none is [0], and the scan neither returns a
    column nor collects one. *)
Lemma C8_overflow_counterexample :
  nonneg_input 2 huge2 ∧
  read_input 2 huge2 = (huge2_c, huge2_min_col) ∧
  in_search 2 2 huge2_c huge2_min_col 1 huge2_stuck ∧
  (∀ u, (u < 2)%nat →
     unlabelled_U huge2_stuck u = true ∧
     decr (update_alpha_beta 2 huge2_stuck).2 (update_alpha_beta 2 huge2_stuck).1 u = 1) ∧
  scan (seq 0 2) (update_alpha_beta 2 huge2_stuck).1 []
    (update_alpha_beta 2 huge2_stuck).2 = Collected [] huge2_stuck.
Proof.
  split; [apply (bool_decide_unpack _); vm_compute; exact I|].
  split; [exact huge2_read|]. split; [exact huge2_in_search|].
  split; [|vm_compute; reflexivity].
  intros u Hu. by destruct (huge2_slacks u Hu) as (Hl & _ & Hd).
Qed.

(** C8 (amended): for every [N] by [N] matrix of costs between [0] and
    [cost_bound N], at every turn of every search the slack of
    every unlabelled column is non-negative, before the dual update and
    after the decrement [slack[u] -= 2LL*theta]; the least decremented
    slack of an unlabelled column is exactly [0]; and the scan detects an
    admissible column: it returns one, or it collects at least one. *)
Theorem C8_slack_reaches_zero N inp c min_col fuel k t :
  valid_input N inp → read_input N inp = (c, min_col) → (N ≤ fuel)%nat →
  in_search fuel N c min_col k t →
  (∀ u, (u < N)%nat → unlabelled_U t u = true → 0 ≤ slack t !!! u) ∧
  (∀ u, (u < N)%nat → unlabelled_U t u = true →
     0 ≤ decr (update_alpha_beta N t).2 (update_alpha_beta N t).1 u) ∧
  (∃ u, (u < N)%nat ∧ unlabelled_U t u = true ∧
     decr (update_alpha_beta N t).2 (update_alpha_beta N t).1 u = 0) ∧
  match scan (seq 0 N) (update_alpha_beta N t).1 [] (update_alpha_beta N t).2 with
  | Found u t' => unlabelled_U t u = true ∧ admissible_U t' u = true
  | Collected adm t' =>
    adm ≠ [] ∧
    (∀ u, u ∈ adm → unlabelled_U t u = true ∧ admissible_U t' u = true) ∧
    (∀ u, (u < N)%nat → unlabelled_U t u = true → 0 ≤ slack t' !!! u)
  end.
Proof.
  intros Hv Eread Hf Hin.
  destruct (valid_input_costs N inp c min_col Hv Eread) as [Hc _].
  pose proof (in_search_inv N c min_col _ Hc fuel k t Hf Hin) as Hinv.
  destruct (min_slack_arith N c min_col _ Hc t Hinv)
    as ([H0 H4] & Heven & Hmle & (um & Hum & ELum & Eum)).
  destruct (update_alpha_beta_arith N c min_col _ Hc t Hinv)
    as (theta & t1 & -> & H2t & Ht0 & _ & _ & _ & _ & Esl & _ & ELU & Hst1 & _).
  destruct Hinv as (_ & Hd & _ & Hsl & _). cbn [fst snd].
  assert (Hunl : ∀ u, unlabelled_U t u = true ↔ label_U t !!! u = false).
  { intros u. unfold unlabelled_U. by destruct (label_U t !!! u). }
  assert (Hunl1 : ∀ u, unlabelled_U t1 u = unlabelled_U t u).
  { intros u. unfold unlabelled_U. by rewrite ELU. }
  assert (Hrange : ∀ u, (u < N)%nat → unlabelled_U t u = true →
    min_slack N t ≤ slack t !!! u ≤ 4 * cost_bound N).
  { intros u Hu Hl. apply Hunl in Hl. specialize (Hmle u Hu Hl).
    destruct (Hsl u Hu Hl) as (v & Hv' & _ & _ & E & _).
    destruct (dual_bounds N c min_col _ Hc t v u Hd Hv' Hu) as (_ & _ & _ & ? & _). lia. }
  assert (Hdec : ∀ u, (u < N)%nat → unlabelled_U t u = true →
    decr t1 theta u = slack t !!! u - min_slack N t).
  { intros u Hu Hl. specialize (Hrange u Hu Hl).
    rewrite (decr_exact N c min_col _ Hc t1 theta u); rewrite ?Esl; lia. }
  split; [intros u Hu Hl; specialize (Hrange u Hu Hl); lia|].
  split; [intros u Hu Hl; rewrite Hdec by done; specialize (Hrange u Hu Hl); lia|].
  split.
  { exists um. split; [done|]. split; [by apply Hunl|].
    rewrite Hdec by (done || by apply Hunl). lia. }
  pose proof Hst1 as (_ & (_ & _ & lsl1 & _) & _).
  assert (Hseq : ∀ j, j ∈ seq 0 N → (j < N)%nat).
  { intros j Hj. apply elem_of_seq in Hj. lia. }
  pose proof (scan_spec N theta (seq 0 N) [] t1 lsl1 (NoDup_seq 0 N) Hseq) as Hscan.
  destruct (scan (seq 0 N) theta [] t1) as [u t2|adm t2].
  - destruct Hscan as (_&_&_&_&_&_&_&_&_&Hin'&Hl&_&Es&Hz&_).
    rewrite Hunl1 in Hl. split; [done|].
    unfold admissible_U. apply bool_decide_eq_true_2. congruence.
  - destruct Hscan as (_&_&_&_&_&_&_&_&_&Hpt&Hadm&_&_).
    split_and!.
    + assert (um ∈ adm) as Hum'; [|intros ->; by apply not_elem_of_nil in Hum'].
      apply Hadm. right. split; [apply elem_of_seq; lia|].
      rewrite Hunl1. split; [by apply Hunl|].
      rewrite Hdec by (done || by apply Hunl). lia.
    + intros u Hu. apply Hadm in Hu as [Hu|(Hu & Hl & Hz)];
        [by apply not_elem_of_nil in Hu|].
      rewrite Hunl1 in Hl. split; [done|].
      unfold admissible_U. apply bool_decide_eq_true_2.
      rewrite (Hpt u (Hseq u Hu)), Hunl1, Hl.
      rewrite bool_decide_eq_true_2 by done. done.
    + intros u Hu Hl. rewrite (Hpt u Hu), Hunl1, Hl.
      rewrite bool_decide_eq_true_2 by (apply elem_of_seq; lia). cbn [andb].
      rewrite Hdec by done. specialize (Hrange u Hu Hl). lia.
Qed.

Lemma C8_slack_reaches_zero_witness :
  valid_input 5 example5 ∧
  read_input 5 example5 = (example5_c, example5_min_col) ∧ (5 ≤ 5)%nat ∧
  in_search 5 5 example5_c example5_min_col 3 example5_t3 ∧
  ((∀ u, (u < 5)%nat → unlabelled_U example5_t3 u = true →
      0 ≤ slack example5_t3 !!! u) ∧
   (∀ u, (u < 5)%nat → unlabelled_U example5_t3 u = true →
      0 ≤ decr (update_alpha_beta 5 example5_t3).2 (update_alpha_beta 5 example5_t3).1 u) ∧
   (∃ u, (u < 5)%nat ∧ unlabelled_U example5_t3 u = true ∧
      decr (update_alpha_beta 5 example5_t3).2 (update_alpha_beta 5 example5_t3).1 u = 0) ∧
   match scan (seq 0 5) (update_alpha_beta 5 example5_t3).1 []
           (update_alpha_beta 5 example5_t3).2 with
   | Found u t' => unlabelled_U example5_t3 u = true ∧ admissible_U t' u = true
   | Collected adm t' =>
     adm ≠ [] ∧
     (∀ u, u ∈ adm → unlabelled_U example5_t3 u = true ∧ admissible_U t' u = true) ∧
     (∀ u, (u < 5)%nat → unlabelled_U example5_t3 u = true → 0 ≤ slack t' !!! u)
   end).
Proof.
  split; [exact example5_valid|]. split; [exact example5_read|]. split; [lia|].
  split; [exact example5_in_search3|].
  apply (C8_slack_reaches_zero 5 example5 example5_c example5_min_col 5 3 example5_t3);
    [exact example5_valid|exact example5_read|lia|exact example5_in_search3].
Defined.

(** ** C9 *)

(** C9: whenever the search of a phase returns column [u] and [augment] is
    called on [nhbor[u]], whatever the costs, the parent pointers from row
    [nhbor[u]] run through pairwise distinct rows, at most [N] of them, to
    a row whose parent is [-1], an unmatched row; and [augment] returns
    within [N] levels of recursion. *)
Theorem C9_parent_chain_ends N c min_col fuel k s u t :
  (k < N)%nat →
  phases fuel N c k (initialize_alpha_beta N min_col) = Ok s →
  search_augmenting_alternating_path fuel N c (phase_start N c s) = Ok (u, t) →
  ∃ v path root,
    index N (nhbor t !!! u) = Ok v ∧
    parent_chain N N t v = Ok path ∧ NoDup path ∧ (length path ≤ N)%nat ∧
    last path = Some root ∧ parent t !!! root = -1 ∧ mate_V t !!! root = -1 ∧
    ∃ s', augment N N v u t = Ok s'.
Proof.
  intros Hk Eph Es.
  destruct (initialize_alpha_beta_structure N min_col) as (Hsz0 & Hm0 & _).
  pose proof (phases_structure N c fuel k _ Hsz0 Hm0) as H. rewrite Eph in H.
  destruct H as (Hsz & Hm & _).
  assert (structure N (phase_start N c s)) as Hst0.
  { apply (seeding_structure N s); [done|done|]. by apply seeding_all. }
  pose proof (search_structure N c fuel _ Hst0) as H. rewrite Es in H.
  destruct H as (Hst & Hu & Hunl & Hunm & Hz & _).
  pose proof Hst as (_ & _ & [Hm1 Hm2] & _ & Hnb & [rk Ht]).
  destruct (Hnb u Hu) as [(v & Hv & Env & HLv)|(_ & Hodd & _)];
    [|rewrite Hz in Hodd; done].
  assert (Hcnt : (labelled_cols N t < N)%nat).
  { apply (count_lt _ N u); [done|]. unfold unlabelled_U in Hunl.
    by destruct (label_U t !!! u). }
  destruct (parent_chain_spec N t Hst) as (rk' & Hchain).
  assert (rk' v < N)%nat as Hrk'.
  { destruct (Hchain (S (rk' v)) v Hv HLv ltac:(lia)) as (_ & _ & _ & _ & _ & _ & _ & _ & ? & _).
    lia. }
  destruct (Hchain N v Hv HLv Hrk')
    as (path & root & Ec & Hlast & Hr1 & Hr2 & Hnd & Hlen & _ & _).
  exists v, path, root. rewrite Env, index_ok by done.
  split_and!; try done; [lia|].
  assert (Hpre : augment_pre N rk t v u).
  { assert (mate_U t !!! u = -1) as EUu.
    { unfold unmatched_U in Hunm. by apply bool_decide_eq_true in Hunm. }
    destruct Hst as ((lV & lU & _) & _).
    split_and!; try done.
    - intros w Hw. destruct (Hm1 w Hw) as [?|(u' & Hu' & E1 & E2)]; [by left|right].
      exists u'. split_and!; try done. intros ->. lia.
    - intros u' Hu' _. apply Hm2. done.
    - intros w Hw HLw _. destruct (Ht w Hw HLw) as (_ & Hr & Hmt).
      split; [done|]. intros u' Hu' E. destruct (Hmt u' Hu' E) as (p & ? & ? & ? & ? & ?).
      exists p. done. }
  pose proof (augment_spec N rk N t v u Hpre) as Haug.
  destruct (augment N N v u t) as [s'|e]; [by exists s'|].
  destruct Haug as [_ Hle]. destruct (Ht v Hv HLv) as (? & _). lia.
Qed.

Lemma C9_parent_chain_ends_witness :
  (0 < 5)%nat ∧
  phases 5 5 example5_c 0 (initialize_alpha_beta 5 example5_min_col) = Ok example5_s0 ∧
  search_augmenting_alternating_path 5 5 example5_c (phase_start 5 example5_c example5_s0)
    = Ok (example5_found.1, example5_found.2) ∧
  ∃ v path root,
    index 5 (nhbor example5_found.2 !!! example5_found.1) = Ok v ∧
    parent_chain 5 5 example5_found.2 v = Ok path ∧ NoDup path ∧
    (length path ≤ 5)%nat ∧
    last path = Some root ∧ parent example5_found.2 !!! root = -1 ∧
    mate_V example5_found.2 !!! root = -1 ∧
    ∃ s', augment 5 5 v example5_found.1 example5_found.2 = Ok s'.
Proof.
  assert (phases 5 5 example5_c 0 (initialize_alpha_beta 5 example5_min_col)
          = Ok example5_s0) as E1 by reflexivity.
  assert (search_augmenting_alternating_path 5 5 example5_c
            (phase_start 5 example5_c example5_s0)
          = Ok (example5_found.1, example5_found.2)) as E2
    by (vm_compute; reflexivity).
  split; [lia|]. split; [exact E1|]. split; [exact E2|].
  apply (C9_parent_chain_ends 5 example5_c example5_min_col 5 0 example5_s0
           example5_found.1 example5_found.2); [lia|exact E1|exact E2].
Defined.

(** ** C10 *)

(** C10: whatever the costs, at every turn of every search, each column
    that the scan finds admissible, the one it returns and those it
    collects, has slack [0] and an [nhbor] that is a labelled row in
    [0, N), not the initial [-1]; and the run never leaves a vector: it
    fails by lack of fuel only. *)
Theorem C10_nhbor_is_labelled_row N c min_col fuel k t :
  in_search fuel N c min_col k t →
  match scan (seq 0 N) (update_alpha_beta N t).1 [] (update_alpha_beta N t).2 with
  | Found u t' =>
    slack t' !!! u = 0 ∧
    ∃ v, (v < N)%nat ∧ nhbor t' !!! u = Z.of_nat v ∧ label_V t' !!! v = true
  | Collected adm t' =>
    ∀ u, u ∈ adm →
      slack t' !!! u = 0 ∧
      ∃ v, (v < N)%nat ∧ nhbor t' !!! u = Z.of_nat v ∧ label_V t' !!! v = true
  end ∧
  ∀ fuel', hungarian_algorithm fuel' N c min_col ≠ Err OutOfBounds.
Proof.
  intros Hin. split.
  - pose proof (in_search_structure fuel N c min_col k t Hin) as Hst.
    pose proof (scan_structure N t Hst) as H.
    destruct (scan (seq 0 N) _ [] _) as [u t'|adm t'].
    + destruct H as (_ & _ & _ & Hz & Hv). done.
    + destruct H as [_ H]. intros u Hu. destruct (H u Hu) as [(_ & _ & Hz & _) Hv]. done.
  - intros fuel' E.
    pose proof (hungarian_algorithm_structure N c fuel' min_col) as H.
    rewrite E in H. discriminate.
Qed.

Lemma C10_nhbor_is_labelled_row_witness :
  in_search 5 5 example5_c example5_min_col 0 example5_t0 ∧
  (match scan (seq 0 5) (update_alpha_beta 5 example5_t0).1 []
           (update_alpha_beta 5 example5_t0).2 with
   | Found u t' =>
     slack t' !!! u = 0 ∧
     ∃ v, (v < 5)%nat ∧ nhbor t' !!! u = Z.of_nat v ∧ label_V t' !!! v = true
   | Collected adm t' =>
     ∀ u, u ∈ adm →
       slack t' !!! u = 0 ∧
       ∃ v, (v < 5)%nat ∧ nhbor t' !!! u = Z.of_nat v ∧ label_V t' !!! v = true
   end ∧
   ∀ fuel', hungarian_algorithm fuel' 5 example5_c example5_min_col ≠ Err OutOfBounds).
Proof.
  split; [exact example5_in_search|].
  apply (C10_nhbor_is_labelled_row 5 example5_c example5_min_col 5 0 example5_t0).
  exact example5_in_search.
Defined.

(** * Further properties of the functions *)

(** ** 64-bit arithmetic *)

Lemma wrap_congr a b : a mod 2 ^ 64 = b mod 2 ^ 64 → wrap a = wrap b.
Proof.
  intros H. unfold wrap. f_equal.
  rewrite <- (Z.add_mod_idemp_l a), <- (Z.add_mod_idemp_l b) by lia.
  by rewrite H.
Qed.

Lemma wrap_eq x : ∃ k, wrap x = x + k * 2 ^ 64.
Proof.
  exists (- ((x + 2 ^ 63) / 2 ^ 64)). unfold wrap.
  rewrite Z.mod_eq by lia. lia.
Qed.

(** Equations between 64-bit expressions: both sides are compared modulo
    [2 ^ 64], every inner [wrap] being some multiple of [2 ^ 64] away from
    its argument. *)
Ltac unwrap :=
  apply wrap_congr;
  repeat match goal with
  | |- context [wrap ?x] =>
    let k := fresh "k" in let E := fresh "E" in
    destruct (wrap_eq x) as [k E]; rewrite E; clear E
  end;
  match goal with
  | |- ?a mod _ = ?b mod _ =>
    replace a with (b + ((a - b) / 2 ^ 64) * 2 ^ 64); [apply Z.mod_add; lia|lia]
  end.

(** ** States *)

Lemma state_eq (s t : state) :
  mate_V s = mate_V t → mate_U s = mate_U t → nhbor s = nhbor t →
  parent s = parent t → alpha s = alpha t → beta s = beta t →
  slack s = slack t → label_V s = label_V t → label_U s = label_U t → s = t.
Proof. destruct s, t. cbn. intros. by subst. Qed.

Lemma list_eq_total {A : Type} `{Inhabited A} (l k : list A) n :
  length l = n → length k = n →
  (∀ i, (i < n)%nat → l !!! i = k !!! i) → l = k.
Proof.
  intros Hl Hk E. apply (list_eq_same_length l k n); [done|done|].
  intros i x y Hi Hx Hy.
  apply list_lookup_total_correct in Hx, Hy. specialize (E i Hi). congruence.
Qed.

(** ** Reading the instance *)

(** X1: for every stream that holds [N] rows of [N] integers that
    [long long] holds, of either sign (the streams on which no [cin >>]
    fails), [read_input] leaves an [N] by [N] matrix [c] whose entries are
    the doubles of the input in 64 bits, and a vector [min_col] of size [N]
    whose entry [u] is the least doubled cost of column [u], the cost of
    one of its rows. *)
Theorem X1_read_input_doubles N inp :
  ll_input N inp →
  length (read_input N inp).1 = N ∧
  (∀ v, (v < N)%nat → length ((read_input N inp).1 !!! v) = N) ∧
  length (read_input N inp).2 = N ∧
  (∀ v u, (v < N)%nat → (u < N)%nat →
     cost (read_input N inp).1 v u = wrap (cost inp v u * 2)) ∧
  (∀ u, (u < N)%nat →
     (∀ v, (v < N)%nat →
        (read_input N inp).2 !!! u ≤ cost (read_input N inp).1 v u) ∧
     ∃ v, (v < N)%nat ∧
        (read_input N inp).2 !!! u = cost (read_input N inp).1 v u).
Proof.
  intros _.
  destruct (read_input_spec N inp) as (c & mc & -> & lc & lr & lm & Hc & Hm).
  cbn [fst snd]. split_and!; try done.
  intros u Hu. destruct (Hm u Hu) as [Hle (v & Hv & E)]. split.
  - intros v' Hv'. rewrite Hc by done. by apply Hle.
  - exists v. split; [done|]. by rewrite Hc.
Qed.

Lemma X1_read_input_doubles_witness :
  ll_input 2 huge2 ∧
  length (read_input 2 huge2).1 = 2%nat ∧
  (∀ v, (v < 2)%nat → length ((read_input 2 huge2).1 !!! v) = 2%nat) ∧
  length (read_input 2 huge2).2 = 2%nat ∧
  (∀ v u, (v < 2)%nat → (u < 2)%nat →
     cost (read_input 2 huge2).1 v u = wrap (cost huge2 v u * 2)) ∧
  (∀ u, (u < 2)%nat →
     (∀ v, (v < 2)%nat →
        (read_input 2 huge2).2 !!! u ≤ cost (read_input 2 huge2).1 v u) ∧
     ∃ v, (v < 2)%nat ∧
        (read_input 2 huge2).2 !!! u = cost (read_input 2 huge2).1 v u).
Proof.
  assert (ll_input 2 huge2) as H
    by (apply (bool_decide_unpack _); vm_compute; exact I).
  split; [exact H|]. apply (X1_read_input_doubles 2 huge2 H).
Defined.

(** ** [update_slack] *)

(** X2: [update_slack v] writes [slack] and [nhbor] only; it never raises a
    slack and never touches a labelled column; a column whose slack it
    lowers gets the bound of row [v], which is not negative, as its slack
    and [v] as its [nhbor]; and afterwards the slack of an unlabelled column
    is at most the bound of row [v], when that bound is not negative. *)
Theorem X2_update_slack_lowers N c v s :
  length (slack s) = N → length (nhbor s) = N →
  mate_V (update_slack N c v s) = mate_V s ∧
  mate_U (update_slack N c v s) = mate_U s ∧
  parent (update_slack N c v s) = parent s ∧
  alpha (update_slack N c v s) = alpha s ∧
  beta (update_slack N c v s) = beta s ∧
  label_V (update_slack N c v s) = label_V s ∧
  label_U (update_slack N c v s) = label_U s ∧
  ∀ u, (u < N)%nat →
    slack (update_slack N c v s) !!! u ≤ slack s !!! u ∧
    (label_U s !!! u = true →
       slack (update_slack N c v s) !!! u = slack s !!! u ∧
       nhbor (update_slack N c v s) !!! u = nhbor s !!! u) ∧
    (slack (update_slack N c v s) !!! u < slack s !!! u →
       slack (update_slack N c v s) !!! u = bound c s v u ∧
       0 ≤ bound c s v u ∧
       nhbor (update_slack N c v s) !!! u = Z.of_nat v) ∧
    (slack (update_slack N c v s) !!! u = slack s !!! u →
       nhbor (update_slack N c v s) !!! u = nhbor s !!! u) ∧
    (label_U s !!! u = false → 0 ≤ bound c s v u →
       slack (update_slack N c v s) !!! u ≤ bound c s v u).
Proof.
  intros Hs Hn.
  destruct (update_slack_spec N c v s Hs Hn) as (e1&e2&e3&e4&e5&e6&e7&_&_&H).
  split_and!; try done. intros u Hu. specialize (H u Hu).
  unfold unlabelled_U in H.
  destruct (label_U s !!! u) eqn:EL; cbn in H.
  { destruct H as [-> ->]. split_and!; (done || lia). }
  destruct (bool_decide (0 ≤ bound c s v u)) eqn:E0; cbn in H.
  2:{ apply bool_decide_eq_false in E0. destruct H as [-> ->].
      split_and!; (done || lia). }
  apply bool_decide_eq_true in E0.
  destruct (bool_decide (bound c s v u < slack s !!! u)) eqn:E1.
  - apply bool_decide_eq_true in E1. destruct H as [-> ->].
    split_and!; (done || lia).
  - apply bool_decide_eq_false in E1. destruct H as [-> ->].
    split_and!; (done || lia).
Qed.

Lemma X2_update_slack_lowers_witness :
  length (slack example5_t0) = 5%nat ∧ length (nhbor example5_t0) = 5%nat ∧
  mate_V (update_slack 5 example5_c 1 example5_t0) = mate_V example5_t0 ∧
  mate_U (update_slack 5 example5_c 1 example5_t0) = mate_U example5_t0 ∧
  parent (update_slack 5 example5_c 1 example5_t0) = parent example5_t0 ∧
  alpha (update_slack 5 example5_c 1 example5_t0) = alpha example5_t0 ∧
  beta (update_slack 5 example5_c 1 example5_t0) = beta example5_t0 ∧
  label_V (update_slack 5 example5_c 1 example5_t0) = label_V example5_t0 ∧
  label_U (update_slack 5 example5_c 1 example5_t0) = label_U example5_t0 ∧
  ∀ u, (u < 5)%nat →
    slack (update_slack 5 example5_c 1 example5_t0) !!! u ≤ slack example5_t0 !!! u ∧
    (label_U example5_t0 !!! u = true →
       slack (update_slack 5 example5_c 1 example5_t0) !!! u = slack example5_t0 !!! u ∧
       nhbor (update_slack 5 example5_c 1 example5_t0) !!! u = nhbor example5_t0 !!! u) ∧
    (slack (update_slack 5 example5_c 1 example5_t0) !!! u < slack example5_t0 !!! u →
       slack (update_slack 5 example5_c 1 example5_t0) !!! u = bound example5_c example5_t0 1 u ∧
       0 ≤ bound example5_c example5_t0 1 u ∧
       nhbor (update_slack 5 example5_c 1 example5_t0) !!! u = Z.of_nat 1) ∧
    (slack (update_slack 5 example5_c 1 example5_t0) !!! u = slack example5_t0 !!! u →
       nhbor (update_slack 5 example5_c 1 example5_t0) !!! u = nhbor example5_t0 !!! u) ∧
    (label_U example5_t0 !!! u = false → 0 ≤ bound example5_c example5_t0 1 u →
       slack (update_slack 5 example5_c 1 example5_t0) !!! u ≤ bound example5_c example5_t0 1 u).
Proof.
  split; [reflexivity|]. split; [reflexivity|].
  apply (X2_update_slack_lowers 5 example5_c 1 example5_t0); reflexivity.
Defined.

(** X3: a second call of [update_slack] for the same row changes nothing. *)
Theorem X3_update_slack_idempotent N c v s :
  length (slack s) = N → length (nhbor s) = N →
  update_slack N c v (update_slack N c v s) = update_slack N c v s.
Proof.
  intros Hs Hn.
  destruct (update_slack_spec N c v s Hs Hn) as (e1&e2&e3&e4&e5&e6&e7&l1&l2&H).
  destruct (update_slack_spec N c v (update_slack N c v s) l1 l2)
    as (f1&f2&f3&f4&f5&f6&f7&m1&m2&H').
  set (s1 := update_slack N c v s) in *.
  set (s2 := update_slack N c v s1) in *.
  assert (∀ u, (u < N)%nat →
    slack s2 !!! u = slack s1 !!! u ∧ nhbor s2 !!! u = nhbor s1 !!! u) as Hpt.
  { intros u Hu. specialize (H u Hu). specialize (H' u Hu).
    assert (bound c s1 v u = bound c s v u) as Eb
      by (unfold bound; by rewrite e4, e5).
    assert (unlabelled_U s1 u = unlabelled_U s u) as El
      by (unfold unlabelled_U; by rewrite e7).
    rewrite Eb, El in H'.
    destruct (unlabelled_U s u); cbn in H, H'; [|done].
    destruct (bool_decide (0 ≤ bound c s v u)); cbn in H, H'; [|done].
    destruct (bool_decide (bound c s v u < slack s !!! u)) eqn:E1.
    - destruct H as [Es En]. rewrite Es in H'.
      rewrite bool_decide_eq_false_2 in H' by lia. rewrite Es. exact H'.
    - destruct H as [Es En]. rewrite Es, E1 in H'. rewrite Es. exact H'. }
  apply state_eq; try done.
  - apply (list_eq_total _ _ N); try done. intros i Hi. by destruct (Hpt i Hi).
  - apply (list_eq_total _ _ N); try done. intros i Hi. by destruct (Hpt i Hi).
Qed.

Lemma X3_update_slack_idempotent_witness :
  length (slack example5_t0) = 5%nat ∧ length (nhbor example5_t0) = 5%nat ∧
  update_slack 5 example5_c 1 (update_slack 5 example5_c 1 example5_t0)
  = update_slack 5 example5_c 1 example5_t0.
Proof.
  split; [reflexivity|]. split; [reflexivity|].
  apply (X3_update_slack_idempotent 5 example5_c 1 example5_t0); reflexivity.
Defined.

(** ** [update_alpha_beta] *)

(** X4: [theta], before it is halved, is at most [numeric_limits<ll>::max()]
    and at most the slack of every unlabelled column; it is the slack of one
    of them, or still [numeric_limits<ll>::max()] when no unlabelled column
    has a smaller slack (in particular when every column is labelled). *)
Theorem X4_theta_is_least_slack N s :
  min_slack N s ≤ ll_max ∧
  (∀ u, (u < N)%nat → label_U s !!! u = false → min_slack N s ≤ slack s !!! u) ∧
  ((∃ u, (u < N)%nat ∧ label_U s !!! u = false ∧ slack s !!! u = min_slack N s) ∨
   (min_slack N s = ll_max ∧
    ∀ u, (u < N)%nat → label_U s !!! u = false → ll_max ≤ slack s !!! u)) ∧
  ((∀ u, (u < N)%nat → label_U s !!! u = true) → min_slack N s = ll_max).
Proof.
  destruct (min_slack_spec N s) as [Hle Hmin].
  assert (∀ u, unlabelled_U s u = true ↔ label_U s !!! u = false) as Hun.
  { intros u. unfold unlabelled_U. by destruct (label_U s !!! u). }
  assert (min_slack N s ≤ ll_max) as Hmax.
  { unfold min_slack. apply (for_loop_inv (λ _ (theta : Z), theta ≤ ll_max)); [done|].
    intros i th _ Hth. destruct (unlabelled_U s i); lia. }
  split_and!.
  - done.
  - intros u Hu HL. apply Hle; [done|]. by apply Hun.
  - destruct Hmin as [[E Hall]|(u & Hu & HL & E)].
    + right. split; [done|]. intros u Hu HL. apply Hall; [done|]. by apply Hun.
    + left. exists u. split_and!; try done. by apply Hun.
  - intros Hall. destruct Hmin as [[E _]|(u & Hu & HL & E)]; [done|].
    apply Hun in HL. rewrite Hall in HL by done. done.
Qed.

(** X5: the loop of the dual shift, in 64 bits and whatever [theta]: the
    bound [c[v][u] - alpha[v] - beta[u]] of a labelled row and an unlabelled
    column goes down by [2LL*theta], the amount that the search then takes
    off [slack[u]]; that of an unlabelled row and a labelled column goes up
    by as much; the bound of two labelled or two unlabelled ends is
    unchanged. *)
Theorem X5_shift_moves_bounds N c theta s v u :
  length (alpha s) = N → length (beta s) = N → (v < N)%nat → (u < N)%nat →
  bound c (shift N theta s) v u =
    match (label_V s !!! v : bool), (label_U s !!! u : bool) with
    | true, false => ll_sub (bound c s v u) (ll_mul 2 theta)
    | false, true => ll_add (bound c s v u) (ll_mul 2 theta)
    | _, _ => bound c s v u
    end.
Proof.
  intros la lb Hv Hu.
  destruct (shift_spec N theta s la lb) as (_&_&_&_&_&_&_&_&_&H).
  unfold bound. destruct (H v Hv) as [-> _]. destruct (H u Hu) as [_ ->].
  unfold ll_sub, ll_add, ll_mul.
  destruct (label_V s !!! v), (label_U s !!! u); unwrap.
Qed.

Lemma X5_shift_moves_bounds_witness :
  length (alpha example5_t0) = 5%nat ∧ length (beta example5_t0) = 5%nat ∧
  (0 < 5)%nat ∧ (2 < 5)%nat ∧
  bound example5_c (shift 5 1 example5_t0) 0 2 =
    match (label_V example5_t0 !!! 0%nat : bool), (label_U example5_t0 !!! 2%nat : bool) with
    | true, false => ll_sub (bound example5_c example5_t0 0 2) (ll_mul 2 1)
    | false, true => ll_add (bound example5_c example5_t0 0 2) (ll_mul 2 1)
    | _, _ => bound example5_c example5_t0 0 2
    end.
Proof.
  split; [reflexivity|]. split; [reflexivity|]. split; [lia|]. split; [lia|].
  apply (X5_shift_moves_bounds 5 example5_c 1 example5_t0 0 2); (reflexivity || lia).
Defined.

(** ** The scan of the unlabelled columns *)

(** The column that the scan returns is the first of its kind. *)
Lemma scan_found_first N theta : ∀ us adm s u s',
  length (slack s) = N → NoDup us → (∀ j, j ∈ us → (j < N)%nat) →
  scan us theta adm s = Found u s' →
  ∃ pre post, us = pre ++ u :: post ∧
    ∀ j, j ∈ pre → unlabelled_U s j = true → decr s theta j = 0 →
      unmatched_U s j = false.
Proof.
  induction us as [|u0 us IH]; intros adm s u s' Hlen Hnd Hlt Hscan;
    cbn [scan] in Hscan; [done|].
  apply NoDup_cons in Hnd as [Hnotin Hnd].
  assert (Hlt' : ∀ j, j ∈ us → (j < N)%nat) by (intros; apply Hlt; by right).
  assert (Hu0 : (u0 < N)%nat) by (apply Hlt; by left).
  destruct (unlabelled_U s u0) eqn:Eu.
  2:{ destruct (IH adm s u s' Hlen Hnd Hlt' Hscan) as (pre & post & -> & Hpre).
      exists (u0 :: pre), post. split; [done|].
      intros j Hj. apply elem_of_cons in Hj as [->|Hj]; [congruence|by apply Hpre]. }
  set (s1 := set_slack s (<[u0:=ll_sub (slack s !!! u0) (ll_mul 2 theta)]> (slack s))) in *.
  assert (Hs1 : slack s1 !!! u0 = decr s theta u0).
  { unfold s1, decr. fields. apply list_lookup_total_insert_eq. lia. }
  assert (Hrec : ∀ adm', scan us theta adm' s1 = Found u s' →
    ∃ pre post, us = pre ++ u :: post ∧
      ∀ j, j ∈ pre → unlabelled_U s j = true → decr s theta j = 0 →
        unmatched_U s j = false).
  { intros adm' Hsc.
    destruct (IH adm' s1 u s') as (pre & post & E & Hpre); try done.
    { unfold s1. fields. by rewrite length_insert. }
    exists pre, post. split; [done|]. intros j Hj Hun Hz.
    assert (j ≠ u0) as Hne.
    { intros ->. apply Hnotin. rewrite E. apply elem_of_app. by left. }
    apply (Hpre j Hj Hun). unfold decr in *. unfold s1. fields.
    by rewrite list_lookup_total_insert_ne. }
  destruct (admissible_U s1 u0) eqn:Ea.
  - destruct (unmatched_U s1 u0) eqn:Em.
    + injection Hscan as <- <-. exists [], us. split; [done|].
      intros j Hj. by apply not_elem_of_nil in Hj.
    + destruct (Hrec _ Hscan) as (pre & post & -> & Hpre).
      exists (u0 :: pre), post. split; [done|].
      intros j Hj. apply elem_of_cons in Hj as [->|Hj]; [|by apply Hpre].
      intros _ _. exact Em.
  - destruct (Hrec _ Hscan) as (pre & post & -> & Hpre).
    exists (u0 :: pre), post. split; [done|].
    intros j Hj. apply elem_of_cons in Hj as [->|Hj]; [|by apply Hpre].
    intros _ Hz. unfold admissible_U in Ea. apply bool_decide_eq_false in Ea.
    congruence.
Qed.

Lemma seq_prefix n (pre post : list nat) u j :
  seq 0 n = pre ++ u :: post → (j < u)%nat → j ∈ pre.
Proof.
  intros E Hj.
  assert (u = length pre) as ->.
  { assert (seq 0 n !! length pre = Some u) as Hl.
    { rewrite E. rewrite lookup_app_r by lia.
      by rewrite Nat.sub_diag. }
    apply lookup_seq in Hl. lia. }
  assert (seq 0 n !! j = Some j) as Hl.
  { apply lookup_seq. split; [lia|].
    assert (length (seq 0 n) = length (pre ++ length pre :: post)) as El by (by rewrite E).
    rewrite length_seq, length_app in El. cbn in El. lia. }
  rewrite E, lookup_app_l in Hl by done.
  by apply list_elem_of_lookup_2 in Hl.
Qed.

(** X6: the scan of the [while] loop, in any state and for any [theta]: it
    writes [slack] only. When it returns column [u], that column is
    unlabelled and unmatched, its decremented slack is [0], and no column
    before it is of that kind. Otherwise [admissibles] holds, each once,
    exactly the unlabelled columns whose decremented slack is [0], all of
    them matched, and every unlabelled column has its slack decremented. *)
Theorem X6_scan_first_or_all N theta s :
  length (slack s) = N →
  match scan (seq 0 N) theta [] s with
  | Found u s' =>
    mate_V s' = mate_V s ∧ mate_U s' = mate_U s ∧ nhbor s' = nhbor s ∧
    parent s' = parent s ∧ alpha s' = alpha s ∧ beta s' = beta s ∧
    label_V s' = label_V s ∧ label_U s' = label_U s ∧
    (u < N)%nat ∧ label_U s !!! u = false ∧ mate_U s !!! u = -1 ∧
    decr s theta u = 0 ∧ slack s' !!! u = 0 ∧
    (∀ j, (j < u)%nat → label_U s !!! j = false → decr s theta j = 0 →
       mate_U s !!! j ≠ -1)
  | Collected admissibles s' =>
    mate_V s' = mate_V s ∧ mate_U s' = mate_U s ∧ nhbor s' = nhbor s ∧
    parent s' = parent s ∧ alpha s' = alpha s ∧ beta s' = beta s ∧
    label_V s' = label_V s ∧ label_U s' = label_U s ∧
    NoDup admissibles ∧
    (∀ j, j ∈ admissibles ↔
       (j < N)%nat ∧ label_U s !!! j = false ∧ decr s theta j = 0) ∧
    (∀ j, j ∈ admissibles → mate_U s !!! j ≠ -1) ∧
    (∀ j, (j < N)%nat →
       slack s' !!! j =
         if (label_U s !!! j : bool) then slack s !!! j else decr s theta j)
  end.
Proof.
  intros Hlen.
  assert (Hseq : ∀ j, j ∈ seq 0 N → (j < N)%nat).
  { intros j Hj. apply elem_of_seq in Hj. lia. }
  assert (Hun : ∀ j, unlabelled_U s j = true ↔ label_U s !!! j = false).
  { intros j. unfold unlabelled_U. by destruct (label_U s !!! j). }
  assert (Hum : ∀ j b, unmatched_U s j = b →
            if b then mate_U s !!! j = -1 else mate_U s !!! j ≠ -1).
  { intros j b <-. unfold unmatched_U. case_bool_decide; done. }
  pose proof (scan_spec N theta (seq 0 N) [] s Hlen (NoDup_seq 0 N) Hseq) as Hscan.
  pose proof (scan_found_first N theta (seq 0 N) [] s) as Hfirst.
  destruct (scan (seq 0 N) theta [] s) as [u s'|adm s'].
  - destruct Hscan as (f1&f2&f3&f4&f5&f6&f7&f8&l2&Hin&Hunl&Hunm&Hsl&Hz&Hpt).
    destruct (Hfirst u s' Hlen (NoDup_seq 0 N) Hseq eq_refl)
      as (pre & post & E & Hpre).
    split_and!; try done.
    + by apply Hseq.
    + by apply Hun.
    + exact (Hum u true Hunm).
    + by rewrite Hsl.
    + intros j Hj HL Hd.
      apply (Hum j false). apply Hpre; [|by apply Hun|done].
      by apply (seq_prefix N pre post u).
  - destruct Hscan as (f1&f2&f3&f4&f5&f6&f7&f8&l2&Hpt&Hadm&Hmat&Hnd).
    split_and!; try done.
    + apply Hnd; [apply NoDup_nil_2|]. intros j Hj. by apply not_elem_of_nil in Hj.
    + intros j. rewrite Hadm, <- Hun. split.
      * intros [Hj|(Hj & ? & ?)]; [by apply not_elem_of_nil in Hj|].
        split; [by apply Hseq|done].
      * intros (Hj & ? & ?). right. split; [|done]. apply elem_of_seq. lia.
    + intros j Hj. apply Hadm in Hj as [Hj|(Hj & ? & ?)];
        [by apply not_elem_of_nil in Hj|].
      apply (Hum j false). by apply Hmat.
    + intros j Hj. rewrite (Hpt j Hj). unfold unlabelled_U.
      rewrite bool_decide_eq_true_2 by (apply elem_of_seq; lia).
      by destruct (label_U s !!! j).
Qed.

Lemma X6_scan_first_or_all_witness :
  length (slack (update_alpha_beta 5 example5_t0).2) = 5%nat ∧
  match scan (seq 0 5) (update_alpha_beta 5 example5_t0).1 []
          (update_alpha_beta 5 example5_t0).2 with
  | Found u s' =>
    mate_V s' = mate_V (update_alpha_beta 5 example5_t0).2 ∧
    mate_U s' = mate_U (update_alpha_beta 5 example5_t0).2 ∧
    nhbor s' = nhbor (update_alpha_beta 5 example5_t0).2 ∧
    parent s' = parent (update_alpha_beta 5 example5_t0).2 ∧
    alpha s' = alpha (update_alpha_beta 5 example5_t0).2 ∧
    beta s' = beta (update_alpha_beta 5 example5_t0).2 ∧
    label_V s' = label_V (update_alpha_beta 5 example5_t0).2 ∧
    label_U s' = label_U (update_alpha_beta 5 example5_t0).2 ∧
    (u < 5)%nat ∧ label_U (update_alpha_beta 5 example5_t0).2 !!! u = false ∧
    mate_U (update_alpha_beta 5 example5_t0).2 !!! u = -1 ∧
    decr (update_alpha_beta 5 example5_t0).2 (update_alpha_beta 5 example5_t0).1 u = 0 ∧
    slack s' !!! u = 0 ∧
    (∀ j, (j < u)%nat → label_U (update_alpha_beta 5 example5_t0).2 !!! j = false →
       decr (update_alpha_beta 5 example5_t0).2 (update_alpha_beta 5 example5_t0).1 j = 0 →
       mate_U (update_alpha_beta 5 example5_t0).2 !!! j ≠ -1)
  | Collected admissibles s' =>
    mate_V s' = mate_V (update_alpha_beta 5 example5_t0).2 ∧
    mate_U s' = mate_U (update_alpha_beta 5 example5_t0).2 ∧
    nhbor s' = nhbor (update_alpha_beta 5 example5_t0).2 ∧
    parent s' = parent (update_alpha_beta 5 example5_t0).2 ∧
    alpha s' = alpha (update_alpha_beta 5 example5_t0).2 ∧
    beta s' = beta (update_alpha_beta 5 example5_t0).2 ∧
    label_V s' = label_V (update_alpha_beta 5 example5_t0).2 ∧
    label_U s' = label_U (update_alpha_beta 5 example5_t0).2 ∧
    NoDup admissibles ∧
    (∀ j, j ∈ admissibles ↔
       (j < 5)%nat ∧ label_U (update_alpha_beta 5 example5_t0).2 !!! j = false ∧
       decr (update_alpha_beta 5 example5_t0).2 (update_alpha_beta 5 example5_t0).1 j = 0) ∧
    (∀ j, j ∈ admissibles → mate_U (update_alpha_beta 5 example5_t0).2 !!! j ≠ -1) ∧
    (∀ j, (j < 5)%nat →
       slack s' !!! j =
         if (label_U (update_alpha_beta 5 example5_t0).2 !!! j : bool)
         then slack (update_alpha_beta 5 example5_t0).2 !!! j
         else decr (update_alpha_beta 5 example5_t0).2 (update_alpha_beta 5 example5_t0).1 j)
  end.
Proof.
  split; [reflexivity|].
  apply (X6_scan_first_or_all 5 (update_alpha_beta 5 example5_t0).1
           (update_alpha_beta 5 example5_t0).2); reflexivity.
Defined.

(** ** The start of a phase *)

(** X7: in the state in which the search of a phase starts (after
    [initialize_search] and the loop that seeds the roots), the matching
    and the duals are those of the end of the previous phase, the labelled
    rows are exactly the unmatched rows, no column is labelled, no row has
    a parent, and [nhbor[u]] is an unmatched row or still [-1]. *)
Theorem X7_seeding_labels_roots N c s :
  sized N s →
  mate_V (phase_start N c s) = mate_V s ∧
  mate_U (phase_start N c s) = mate_U s ∧
  alpha (phase_start N c s) = alpha s ∧
  beta (phase_start N c s) = beta s ∧
  parent (phase_start N c s) = replicate N (-1) ∧
  label_U (phase_start N c s) = replicate N false ∧
  length (label_V (phase_start N c s)) = N ∧
  length (slack (phase_start N c s)) = N ∧
  length (nhbor (phase_start N c s)) = N ∧
  (∀ v, (v < N)%nat →
     label_V (phase_start N c s) !!! v = true ↔ mate_V s !!! v = -1) ∧
  (∀ u, (u < N)%nat →
     nhbor (phase_start N c s) !!! u = -1 ∨
     ∃ v, (v < N)%nat ∧ nhbor (phase_start N c s) !!! u = Z.of_nat v ∧
          mate_V s !!! v = -1).
Proof.
  intros Hsz. unfold phase_start.
  destruct (seeding_all N c s Hsz) as (e1&e2&e3&e4&e5&e6&l1&l2&l3&HL&Hnb).
  split_and!; try done.
  - intros v Hv. rewrite (HL v Hv). intuition lia.
  - intros u Hu. destruct (Hnb u Hu) as [(v & Hv & E & HLv)|(E & _)]; [right|by left].
    exists v. split_and!; try done. apply (HL v Hv) in HLv. by destruct HLv.
Qed.

Lemma X7_seeding_labels_roots_witness :
  sized 5 example5_s0 ∧
  mate_V (phase_start 5 example5_c example5_s0) = mate_V example5_s0 ∧
  mate_U (phase_start 5 example5_c example5_s0) = mate_U example5_s0 ∧
  alpha (phase_start 5 example5_c example5_s0) = alpha example5_s0 ∧
  beta (phase_start 5 example5_c example5_s0) = beta example5_s0 ∧
  parent (phase_start 5 example5_c example5_s0) = replicate 5 (-1) ∧
  label_U (phase_start 5 example5_c example5_s0) = replicate 5 false ∧
  length (label_V (phase_start 5 example5_c example5_s0)) = 5%nat ∧
  length (slack (phase_start 5 example5_c example5_s0)) = 5%nat ∧
  length (nhbor (phase_start 5 example5_c example5_s0)) = 5%nat ∧
  (∀ v, (v < 5)%nat →
     label_V (phase_start 5 example5_c example5_s0) !!! v = true ↔
     mate_V example5_s0 !!! v = -1) ∧
  (∀ u, (u < 5)%nat →
     nhbor (phase_start 5 example5_c example5_s0) !!! u = -1 ∨
     ∃ v, (v < 5)%nat ∧
          nhbor (phase_start 5 example5_c example5_s0) !!! u = Z.of_nat v ∧
          mate_V example5_s0 !!! v = -1).
Proof.
  assert (sized 5 example5_s0) as Hsz by (repeat split).
  split; [exact Hsz|].
  apply (X7_seeding_labels_roots 5 example5_c example5_s0 Hsz).
Defined.

(** The slacks while the roots are seeded, whatever the costs. *)
Lemma seeding_bounds N c s :
  sized N s →
  seeding N s N (phase_start N c s) ∧
  ∀ u, (u < N)%nat →
    (slack (phase_start N c s) !!! u = ll_max ∧
     nhbor (phase_start N c s) !!! u = -1 ∧
     ∀ w, (w < N)%nat → mate_V s !!! w = -1 → ¬ (0 ≤ bound c s w u < ll_max)) ∨
    (∃ v, (v < N)%nat ∧ mate_V s !!! v = -1 ∧
       nhbor (phase_start N c s) !!! u = Z.of_nat v ∧
       slack (phase_start N c s) !!! u = bound c s v u ∧
       0 ≤ bound c s v u < ll_max ∧
       (∀ w, (w < N)%nat → mate_V s !!! w = -1 → 0 ≤ bound c s w u →
          bound c s v u ≤ bound c s w u) ∧
       (∀ w, (w < v)%nat → mate_V s !!! w = -1 → 0 ≤ bound c s w u →
          bound c s v u < bound c s w u)).
Proof.
  intros Hsz. unfold phase_start. rewrite seed_roots_eq.
  pose (Q := λ (n : nat) (t : state),
    ∀ u, (u < N)%nat →
      (slack t !!! u = ll_max ∧ nhbor t !!! u = -1 ∧
       ∀ w, (w < n)%nat → mate_V s !!! w = -1 → ¬ (0 ≤ bound c s w u < ll_max)) ∨
      (∃ v, (v < n)%nat ∧ mate_V s !!! v = -1 ∧
         nhbor t !!! u = Z.of_nat v ∧
         slack t !!! u = bound c s v u ∧
         0 ≤ bound c s v u < ll_max ∧
         (∀ w, (w < n)%nat → mate_V s !!! w = -1 → 0 ≤ bound c s w u →
            bound c s v u ≤ bound c s w u) ∧
         (∀ w, (w < v)%nat → mate_V s !!! w = -1 → 0 ≤ bound c s w u →
            bound c s v u < bound c s w u))).
  assert (seeding N s N (for_loop N (seed_body N c) (initialize_search N s)) ∧
          Q N (for_loop N (seed_body N c) (initialize_search N s))) as [Hseed HQ].
  { apply (for_loop_inv (λ n t, seeding N s n t ∧ Q n t)).
    - split; [by apply seeding_init|].
      intros u Hu. left. unfold initialize_search. fields.
      rewrite !lookup_total_replicate_2 by done. split_and!; try done. intros; lia.
    - intros i t Hi [Hsd HQ]. split; [by apply seeding_step|].
      destruct Hsd as (e1&e2&e3&e4&e5&e6&l1&l2&l3&HL&Hnb).
      unfold seed_body, unmatched_V. rewrite e1.
      case_bool_decide as Em.
      2:{ intros u Hu. destruct (HQ u Hu) as [(Es & En & Hno)|(v & Hv & Emv & En & Es & Hr & Hmin & Hfirst)].
          - left. split_and!; try done. intros w Hw Ew.
            destruct (decide (w = i)) as [->|]; [done|]. apply Hno; [lia|done].
          - right. exists v. split_and!; try done; try lia.
            intros w Hw Ew Hb. destruct (decide (w = i)) as [->|]; [done|].
            apply Hmin; [lia|done|done]. }
      set (t' := set_label_V t (<[i:=true]> (label_V t))).
      assert (length (slack t') = N) as ls' by done.
      assert (length (nhbor t') = N) as ln' by done.
      destruct (update_slack_spec N c i t' ls' ln') as (_&_&_&_&_&_&_&_&_&H).
      intros u Hu. specialize (H u Hu).
      assert (unlabelled_U t' u = true) as El.
      { unfold unlabelled_U, t'. fields. rewrite e6.
        by rewrite lookup_total_replicate_2. }
      assert (bound c t' i u = bound c s i u) as Eb.
      { unfold bound, t'. fields. by rewrite e3, e4. }
      assert (slack t' = slack t ∧ nhbor t' = nhbor t) as [Est Ent] by done.
      rewrite El, Eb, Est, Ent in H. cbn [andb] in H.
      destruct (HQ u Hu) as [(Es & En & Hno)|(v & Hv & Emv & En & Es & Hr & Hmin & Hfirst)].
      + rewrite Es in H.
        destruct (bool_decide (0 ≤ bound c s i u)) eqn:E0;
          [apply bool_decide_eq_true in E0|apply bool_decide_eq_false in E0];
          cbn [andb] in H.
        * destruct (bool_decide (bound c s i u < ll_max)) eqn:E1;
            [apply bool_decide_eq_true in E1|apply bool_decide_eq_false in E1].
          -- destruct H as [Hs' Hn']. right. exists i.
             split_and!; try done; try lia.
             ++ intros w Hw Ew Hb. destruct (decide (w = i)) as [->|]; [lia|].
                assert (¬ (0 ≤ bound c s w u < ll_max)) by (apply Hno; [lia|done]). lia.
             ++ intros w Hw Ew Hb.
                assert (¬ (0 ≤ bound c s w u < ll_max)) by (apply Hno; [lia|done]). lia.
          -- destruct H as [Hs' Hn']. left. split_and!; try done; try congruence.
             intros w Hw Ew. destruct (decide (w = i)) as [->|]; [lia|].
             apply Hno; [lia|done].
        * destruct H as [Hs' Hn']. left. split_and!; try done; try congruence.
          intros w Hw Ew. destruct (decide (w = i)) as [->|]; [lia|].
          apply Hno; [lia|done].
      + rewrite Es in H. right.
        destruct (bool_decide (0 ≤ bound c s i u)) eqn:E0;
          [apply bool_decide_eq_true in E0|apply bool_decide_eq_false in E0];
          cbn [andb] in H.
        * destruct (bool_decide (bound c s i u < bound c s v u)) eqn:E1;
            [apply bool_decide_eq_true in E1|apply bool_decide_eq_false in E1].
          -- destruct H as [Hs' Hn']. exists i. split_and!; try done; try lia.
             ++ intros w Hw Ew Hb. destruct (decide (w = i)) as [->|]; [lia|].
                assert (bound c s v u ≤ bound c s w u) by (apply Hmin; [lia|done|done]). lia.
             ++ intros w Hw Ew Hb.
                assert (bound c s v u ≤ bound c s w u) by (apply Hmin; [lia|done|done]). lia.
          -- destruct H as [Hs' Hn']. exists v. split_and!; try done; try congruence; try lia.
             intros w Hw Ew Hb. destruct (decide (w = i)) as [->|]; [lia|].
             apply Hmin; [lia|done|done].
        * destruct H as [Hs' Hn']. exists v. split_and!; try done; try congruence; try lia.
          intros w Hw Ew Hb. destruct (decide (w = i)) as [->|]; [lia|].
          apply Hmin; [lia|done|done]. }
  split; [done|]. exact HQ.
Qed.

(** X8: when the search of a phase starts, whatever the costs: [slack[u]]
    is the least of the bounds [c[v][u] - alpha[v] - beta[u]], computed in
    64 bits, of the unmatched rows [v] whose bound is not negative, and
    [nhbor[u]] is the first row with that bound; when no unmatched row has
    a bound between [0] and [numeric_limits<ll>::max()], [slack[u]] is
    still [numeric_limits<ll>::max()] and [nhbor[u]] is [-1]. *)
Theorem X8_seeding_slack_is_least_bound N c s u :
  sized N s → (u < N)%nat →
  (slack (phase_start N c s) !!! u = ll_max ∧
   nhbor (phase_start N c s) !!! u = -1 ∧
   ∀ w, (w < N)%nat → mate_V s !!! w = -1 → ¬ (0 ≤ bound c s w u < ll_max)) ∨
  (∃ v, (v < N)%nat ∧ mate_V s !!! v = -1 ∧
     nhbor (phase_start N c s) !!! u = Z.of_nat v ∧
     slack (phase_start N c s) !!! u = bound c s v u ∧
     0 ≤ bound c s v u < ll_max ∧
     (∀ w, (w < N)%nat → mate_V s !!! w = -1 → 0 ≤ bound c s w u →
        bound c s v u ≤ bound c s w u) ∧
     (∀ w, (w < v)%nat → mate_V s !!! w = -1 → 0 ≤ bound c s w u →
        bound c s v u < bound c s w u)).
Proof.
  intros Hsz Hu. destruct (seeding_bounds N c s Hsz) as [_ H]. by apply H.
Qed.

Lemma X8_seeding_slack_is_least_bound_witness :
  sized 5 example5_s0 ∧ (3 < 5)%nat ∧
  ((slack (phase_start 5 example5_c example5_s0) !!! 3%nat = ll_max ∧
    nhbor (phase_start 5 example5_c example5_s0) !!! 3%nat = -1 ∧
    ∀ w, (w < 5)%nat → mate_V example5_s0 !!! w = -1 →
      ¬ (0 ≤ bound example5_c example5_s0 w 3 < ll_max)) ∨
   (∃ v, (v < 5)%nat ∧ mate_V example5_s0 !!! v = -1 ∧
      nhbor (phase_start 5 example5_c example5_s0) !!! 3%nat = Z.of_nat v ∧
      slack (phase_start 5 example5_c example5_s0) !!! 3%nat = bound example5_c example5_s0 v 3 ∧
      0 ≤ bound example5_c example5_s0 v 3 < ll_max ∧
      (∀ w, (w < 5)%nat → mate_V example5_s0 !!! w = -1 →
         0 ≤ bound example5_c example5_s0 w 3 →
         bound example5_c example5_s0 v 3 ≤ bound example5_c example5_s0 w 3) ∧
      (∀ w, (w < v)%nat → mate_V example5_s0 !!! w = -1 →
         0 ≤ bound example5_c example5_s0 w 3 →
         bound example5_c example5_s0 v 3 < bound example5_c example5_s0 w 3))).
Proof.
  assert (sized 5 example5_s0) as Hsz by (repeat split).
  split; [exact Hsz|]. split; [lia|].
  apply (X8_seeding_slack_is_least_bound 5 example5_c example5_s0 3 Hsz). lia.
Defined.

(** ** The initial duals *)

(** X9: whatever the integers of the input, in the state that
    [initialize_alpha_beta] builds from what [read_input] left, no row and
    no column is matched, [alpha] is zero, [beta[u]] is [min_col[u]], the
    duals are feasible for the doubled costs, and every column has a tight
    edge. *)
Theorem X9_initial_duals N inp :
  mate_V (initialize_alpha_beta N (read_input N inp).2) = replicate N (-1) ∧
  mate_U (initialize_alpha_beta N (read_input N inp).2) = replicate N (-1) ∧
  alpha (initialize_alpha_beta N (read_input N inp).2) = replicate N 0 ∧
  (∀ u, (u < N)%nat →
     beta (initialize_alpha_beta N (read_input N inp).2) !!! u
     = (read_input N inp).2 !!! u) ∧
  feasible N (read_input N inp).1 (initialize_alpha_beta N (read_input N inp).2) ∧
  (∀ u, (u < N)%nat → ∃ v, (v < N)%nat ∧
     alpha (initialize_alpha_beta N (read_input N inp).2) !!! v +
     beta (initialize_alpha_beta N (read_input N inp).2) !!! u
     = cost (read_input N inp).1 v u).
Proof.
  destruct (read_input_spec N inp) as (c & mc & -> & lc & lr & lm & Hc & Hm).
  cbn [fst snd].
  destruct (initialize_alpha_beta_spec N mc) as (e1 & e2 & e3 & lb & Hb).
  split_and!; try done.
  - intros v u Hv Hu. rewrite e3, lookup_total_replicate_2, (Hb u Hu), (Hc v u) by done.
    destruct (Hm u Hu) as [Hle _]. specialize (Hle v Hv). lia.
  - intros u Hu. destruct (Hm u Hu) as [_ (v & Hv & E)]. exists v. split; [done|].
    rewrite e3, lookup_total_replicate_2, (Hb u Hu), (Hc v u) by done. lia.
Qed.

(** ** One more matched pair per phase *)

Lemma phase_keeps_mates N c fuel s s' :
  sized N s → matching N s → phase fuel N c s = Ok s' →
  (∀ v, (v < N)%nat → mate_V s' !!! v = -1 → mate_V s !!! v = -1) ∧
  (∀ u, (u < N)%nat → mate_U s' !!! u = -1 → mate_U s !!! u = -1).
Proof.
  intros Hsz Hm. unfold phase.
  pose proof (seeding_all N c s Hsz) as Hseed.
  set (s1 := seed_roots N c (initialize_search N s)) in *.
  pose proof (seeding_structure N s s1 Hsz Hm Hseed) as Hst1.
  pose proof (search_structure N c fuel s1 Hst1) as Hsearch.
  destruct (search_augmenting_alternating_path fuel N c s1) as [[u s2]|e]; [|done].
  destruct Hsearch as (Hst2 & Hu & Hunl & Hunm & Hz & e1 & e2). cbn.
  destruct Hst2 as ((lV & lU & la & lb) & _ & [Hm1 Hm2] & [Hl1 Hl2] & Hnb & [rk Ht]).
  destruct (Hnb u Hu) as [(v & Hv & Enb & HLv)|(_ & Hodd & _)];
    [|rewrite Hz in Hodd; done].
  rewrite Enb, index_ok by done. cbn.
  assert (Hpre : augment_pre N rk s2 v u).
  { split_and!; try done.
    - intros w Hw. destruct (Hm1 w Hw) as [?|(u' & Hu' & E1 & E2)]; [by left|right].
      exists u'. split_and!; try done. intros ->.
      unfold unmatched_U in Hunm. apply bool_decide_eq_true in Hunm. lia.
    - intros u' Hu' _. apply Hm2. done.
    - intros w Hw HLw _. destruct (Ht w Hw HLw) as (_ & Hr & Hmt).
      split; [done|]. intros u' Hu' E. destruct (Hmt u' Hu' E) as (p & ? & ? & ? & ? & ?).
      exists p. done. }
  pose proof (augment_spec N rk fuel s2 v u Hpre) as Haug.
  intros Es'. rewrite Es' in Haug.
  destruct Haug as (_&_&_&_&_&_&_&_&_&_&_&_&_&Hrow&Hcol).
  destruct Hseed as (g1 & g2 & _).
  split.
  - intros w Hw E. rewrite <- g1, <- e1. by apply Hrow.
  - intros w Hw E. rewrite <- g2, <- e2. by apply Hcol.
Qed.

(** X10: whatever the costs, when the first [k] turns of the loop of
    [hungarian_algorithm] have returned, exactly [k] rows and [k] columns
    are matched, by a matching in which [mate_V] and [mate_U] are inverse
    of each other; the next turn, when it returns, leaves exactly one more
    matched row and one more matched column, and no row and no column that
    was matched loses its mate. *)
Theorem X10_phase_matches_one_more N c min_col fuel k s s' :
  phases fuel N c k (initialize_alpha_beta N min_col) = Ok s →
  phase fuel N c s = Ok s' →
  matching N s ∧ matched_rows N s = k ∧ matched_cols N s = k ∧
  matching N s' ∧ matched_rows N s' = S k ∧ matched_cols N s' = S k ∧
  (∀ v, (v < N)%nat → mate_V s !!! v ≠ -1 → mate_V s' !!! v ≠ -1) ∧
  (∀ u, (u < N)%nat → mate_U s !!! u ≠ -1 → mate_U s' !!! u ≠ -1).
Proof.
  intros Eph Es'.
  destruct (initialize_alpha_beta_structure N min_col) as (Hsz0 & Hm0 & Hr0 & Hc0).
  pose proof (phases_structure N c fuel k _ Hsz0 Hm0) as Hph.
  rewrite Eph in Hph. destruct Hph as (Hsz & Hm & Hr & Hc).
  pose proof (phase_structure N c fuel s Hsz Hm) as Hp.
  rewrite Es' in Hp. destruct Hp as (Hsz' & Hm' & Hr' & Hc').
  destruct (phase_keeps_mates N c fuel s s' Hsz Hm Es') as [Hrow Hcol].
  split_and!; try done; try lia.
  - intros v Hv Hne E. by apply Hne, Hrow.
  - intros u Hu Hne E. by apply Hne, Hcol.
Qed.

Lemma X10_phase_matches_one_more_witness :
  phases 5 5 example5_c 0 (initialize_alpha_beta 5 example5_min_col) = Ok example5_s0 ∧
  phase 5 5 example5_c example5_s0 = Ok example5_s1 ∧
  matching 5 example5_s0 ∧ matched_rows 5 example5_s0 = O ∧
  matched_cols 5 example5_s0 = O ∧
  matching 5 example5_s1 ∧ matched_rows 5 example5_s1 = 1%nat ∧
  matched_cols 5 example5_s1 = 1%nat ∧
  (∀ v, (v < 5)%nat → mate_V example5_s0 !!! v ≠ -1 → mate_V example5_s1 !!! v ≠ -1) ∧
  (∀ u, (u < 5)%nat → mate_U example5_s0 !!! u ≠ -1 → mate_U example5_s1 !!! u ≠ -1).
Proof.
  assert (phases 5 5 example5_c 0 (initialize_alpha_beta 5 example5_min_col)
          = Ok example5_s0) as E1 by reflexivity.
  assert (phase 5 5 example5_c example5_s0 = Ok example5_s1) as E2
    by (vm_compute; reflexivity).
  split; [exact E1|]. split; [exact E2|].
  apply (X10_phase_matches_one_more 5 example5_c example5_min_col 5 0
           example5_s0 example5_s1 E1 E2).
Defined.

(** ** The two outputs of [main] *)

Lemma match_output (l : list Z) N :
  length l = N → for_loop N (λ v (out : list Z), out ++ [l !!! v]) [] = l.
Proof.
  intros Hl.
  assert (∀ n, (n ≤ N)%nat →
    for_loop n (λ v (out : list Z), out ++ [l !!! v]) [] = take n l) as H.
  { induction n as [|n IH]; intros Hn; [by rewrite for_loop_0|].
    rewrite for_loop_S, IH by lia. symmetry. apply take_S_r.
    apply list_lookup_lookup_total_lt. lia. }
  rewrite H by lia. apply take_ge. lia.
Qed.

(** X11: for every valid input, with fuel for [N] turns, [main] in match
    mode prints one column per row, a permutation of the columns; the cost
    of that assignment in the costs of the input is what [main] prints in
    cost mode, and no assignment costs less. *)
Theorem X11_match_mode_is_optimal N inp fuel :
  valid_input N inp → (N ≤ fuel)%nat →
  ∃ l out,
    main fuel true N inp = Ok (Assignment l) ∧
    main fuel false N inp = Ok (OptCost out) ∧
    length l = N ∧
    (∀ v, (v < N)%nat → 0 ≤ l !!! v < Z.of_nat N) ∧
    is_assignment N (Z.to_nat <$> l) ∧
    assignment_cost N inp (Z.to_nat <$> l) = out ∧
    ∀ tau, is_assignment N tau → out ≤ assignment_cost N inp tau.
Proof.
  intros Hvalid Hfuel.
  destruct (read_input N inp) as [c mc] eqn:Eread.
  destruct (valid_input_costs N inp c mc Hvalid Eread) as [Hc Hcost].
  destruct (run_ok N c mc _ Hc fuel Hfuel) as (s & Erun & Hsz & Hperf & Hd).
  pose proof (perfect_assignment N s Hsz Hperf) as Hassign.
  pose proof Hd as (Hfeas & Htight & Hpar & _).
  pose proof Hsz as (lV & _).
  assert (Hdouble : ∀ sigma, is_assignment N sigma →
    sum_upto (λ v, cost c v (sigma !!! v)) N = 2 * assignment_cost N inp sigma).
  { intros sigma Hs. unfold assignment_cost. rewrite <- sum_upto_double.
    apply sum_upto_ext. intros v Hv.
    destruct (Hcost v (sigma !!! v) Hv) as [-> _]; [by apply assignment_lt|done]. }
  pose proof (strong_duality N c s Hsz Hperf Htight) as Hstrong.
  rewrite (Hdouble _ Hassign) in Hstrong.
  exists (mate_V s), (assignment_cost N inp (assignment_of s)). split_and!.
  - unfold main. rewrite Eread, Erun. cbn. by rewrite match_output.
  - unfold main. rewrite Eread, Erun. cbn. do 2 f_equal.
    rewrite (opt_cost_exact N c mc _ Hc s Hd), <- Hstrong.
    unfold ll_div. rewrite Z.mul_comm. apply Z.quot_mul. lia.
  - done.
  - intros v Hv. destruct Hperf as [Hrow _].
    destruct (Hrow v Hv) as (u & Hu & -> & _). lia.
  - done.
  - done.
  - intros tau Ht. pose proof (weak_duality N c s tau Hfeas Ht) as Hweak.
    rewrite (Hdouble _ Ht), <- Hstrong in Hweak. lia.
Qed.

Lemma X11_match_mode_is_optimal_witness :
  valid_input 5 example5 ∧ (5 ≤ 5)%nat ∧
  ∃ l out,
    main 5 true 5 example5 = Ok (Assignment l) ∧
    main 5 false 5 example5 = Ok (OptCost out) ∧
    length l = 5%nat ∧
    (∀ v, (v < 5)%nat → 0 ≤ l !!! v < Z.of_nat 5) ∧
    is_assignment 5 (Z.to_nat <$> l) ∧
    assignment_cost 5 example5 (Z.to_nat <$> l) = out ∧
    ∀ tau, is_assignment 5 tau → out ≤ assignment_cost 5 example5 tau.
Proof.
  split; [exact example5_valid|]. split; [lia|].
  apply (X11_match_mode_is_optimal 5 example5 5 example5_valid). lia.
Defined.

(** ** The three programs *)

(** X12: on every input, whatever its integers, and in both output modes,
    part_002 behaves as hungarian.cpp: its [search], which calls [augment]
    itself, is [search_augmenting_alternating_path] followed by the call
    of [augment] in [hungarian_algorithm], so that each phase and the
    whole run return the same state, or return in neither program. *)
Theorem X12_part002_is_hungarian fuel match_ N inp c s :
  Part002.phase fuel N c s = phase fuel N c s ∧
  Part002.hungarian_algorithm fuel N (read_input N inp).1 (read_input N inp).2
    = hungarian_algorithm fuel N (read_input N inp).1 (read_input N inp).2 ∧
  Part002.main fuel match_ N inp = main fuel match_ N inp.
Proof.
  split_and!.
  - apply part002_phase.
  - apply part002_phases.
  - apply part002_main.
Qed.

(** X13: part_001 halves [theta] before it tests [theta > 0LL] and
    hungarian.cpp after. The values of [theta] that the two leave are the
    same exactly when the least slack is not negative; and when moreover it
    is not [1], the duals they leave are the same too. *)
Theorem X13_halving_order N s :
  (ll_div (min_slack N s) 2 = (update_alpha_beta N s).1 ↔ 0 ≤ min_slack N s) ∧
  (0 ≤ min_slack N s → min_slack N s ≠ 1 →
   (if bool_decide (ll_div (min_slack N s) 2 > 0)
    then shift N (ll_div (min_slack N s) 2) s else s) = (update_alpha_beta N s).2).
Proof.
  unfold update_alpha_beta, ll_div. split.
  - case_bool_decide as Hpos; cbn [fst]; [split; [lia|done]|].
    split.
    + intros E. assert (min_slack N s = 0 ∨ min_slack N s < 0) as [->|Hneg] by lia; [done|].
      pose proof (Z.quot_lt_upper_bound (- min_slack N s) 2 (- min_slack N s)).
      rewrite <- (Z.opp_involutive (min_slack N s)) in E at 1.
      rewrite Z.quot_opp_l in E by lia.
      assert (0 ≤ - min_slack N s ÷ 2) by (apply Z.quot_pos; lia).
      assert (- min_slack N s ÷ 2 < - min_slack N s) by (apply Z.quot_lt; lia).
      lia.
    + intros H0. assert (min_slack N s = 0) as -> by lia. done.
  - intros H0 H1. case_bool_decide as Hpos; cbn [snd].
    + rewrite bool_decide_eq_true_2; [done|].
      assert (1 ≤ min_slack N s ÷ 2); [|lia].
      apply Z.quot_le_lower_bound; lia.
    + assert (min_slack N s = 0) as -> by lia. done.
Qed.

(** ** The search on valid inputs *)

(** X14: for every valid input, at every turn of every search, before and
    after the dual update, the bound [c[v][u] - alpha[v] - beta[u]] that
    [update_slack] computes does not wrap and is not negative, for every
    row and column: the test [0LL <= bound] never fails. *)
Theorem X14_bound_never_negative N inp c min_col fuel k t v u :
  valid_input N inp → read_input N inp = (c, min_col) → (N ≤ fuel)%nat →
  in_search fuel N c min_col k t → (v < N)%nat → (u < N)%nat →
  bound c t v u = cost c v u - alpha t !!! v - beta t !!! u ∧
  0 ≤ bound c t v u ∧
  bound c (update_alpha_beta N t).2 v u =
    cost c v u - alpha (update_alpha_beta N t).2 !!! v
               - beta (update_alpha_beta N t).2 !!! u ∧
  0 ≤ bound c (update_alpha_beta N t).2 v u.
Proof.
  intros Hvalid Eread Hfuel Hin Hv Hu.
  destruct (valid_input_costs N inp c min_col Hvalid Eread) as [Hc _].
  pose proof (in_search_inv N c min_col _ Hc fuel k t Hfuel Hin) as Hinv.
  destruct (update_alpha_beta_arith N c min_col _ Hc t Hinv)
    as (theta & t1 & -> & _ & _ & _ & _ & _ & _ & _ & _ & _ & _ & Hd1 & _).
  destruct Hinv as (_ & Hd & _). cbn [snd].
  rewrite (bound_exact N c min_col _ Hc t v u Hd Hv Hu).
  rewrite (bound_exact N c min_col _ Hc t1 v u Hd1 Hv Hu).
  destruct (dual_bounds N c min_col _ Hc t v u Hd Hv Hu) as (_ & _ & _ & [? _] & _).
  destruct (dual_bounds N c min_col _ Hc t1 v u Hd1 Hv Hu) as (_ & _ & _ & [? _] & _).
  unfold reduced in *. done.
Qed.

Lemma X14_bound_never_negative_witness :
  valid_input 5 example5 ∧
  read_input 5 example5 = (example5_c, example5_min_col) ∧ (5 ≤ 5)%nat ∧
  in_search 5 5 example5_c example5_min_col 0 example5_t0 ∧
  (1 < 5)%nat ∧ (2 < 5)%nat ∧
  bound example5_c example5_t0 1 2 =
    cost example5_c 1 2 - alpha example5_t0 !!! 1%nat - beta example5_t0 !!! 2%nat ∧
  0 ≤ bound example5_c example5_t0 1 2 ∧
  bound example5_c (update_alpha_beta 5 example5_t0).2 1 2 =
    cost example5_c 1 2 - alpha (update_alpha_beta 5 example5_t0).2 !!! 1%nat
                        - beta (update_alpha_beta 5 example5_t0).2 !!! 2%nat ∧
  0 ≤ bound example5_c (update_alpha_beta 5 example5_t0).2 1 2.
Proof.
  split; [exact example5_valid|]. split; [exact example5_read|]. split; [lia|].
  split; [exact example5_in_search|]. split; [lia|]. split; [lia|].
  apply (X14_bound_never_negative 5 example5 example5_c example5_min_col 5 0
           example5_t0 1 2);
    [exact example5_valid|exact example5_read|lia|exact example5_in_search|lia|lia].
Defined.

(** X15: for every valid input, at every turn of every search, the slack
    of an unlabelled column [u] is the least reduced cost
    [c[v][u] - alpha[v] - beta[u]] of an edge from a labelled row to [u],
    and [nhbor[u]] is a labelled row with that reduced cost. *)
Theorem X15_slack_is_least_reduced_cost N inp c min_col fuel k t u :
  valid_input N inp → read_input N inp = (c, min_col) → (N ≤ fuel)%nat →
  in_search fuel N c min_col k t → (u < N)%nat → label_U t !!! u = false →
  ∃ v, (v < N)%nat ∧ nhbor t !!! u = Z.of_nat v ∧ label_V t !!! v = true ∧
    slack t !!! u = cost c v u - alpha t !!! v - beta t !!! u ∧
    ∀ w, (w < N)%nat → label_V t !!! w = true →
      slack t !!! u ≤ cost c w u - alpha t !!! w - beta t !!! u.
Proof.
  intros Hvalid Eread Hfuel Hin Hu HL.
  destruct (valid_input_costs N inp c min_col Hvalid Eread) as [Hc _].
  pose proof (in_search_inv N c min_col _ Hc fuel k t Hfuel Hin) as Hinv.
  destruct Hinv as (_ & _ & _ & Hsl & _).
  destruct (Hsl u Hu HL) as (v & Hv & En & HLv & Es & Hmin).
  exists v. unfold reduced in *. split_and!; try done; [lia|].
  intros w Hw HLw. specialize (Hmin w Hw HLw). lia.
Qed.

Lemma X15_slack_is_least_reduced_cost_witness :
  valid_input 5 example5 ∧
  read_input 5 example5 = (example5_c, example5_min_col) ∧ (5 ≤ 5)%nat ∧
  in_search 5 5 example5_c example5_min_col 0 example5_t0 ∧
  (2 < 5)%nat ∧ label_U example5_t0 !!! 2%nat = false ∧
  ∃ v, (v < 5)%nat ∧ nhbor example5_t0 !!! 2%nat = Z.of_nat v ∧
    label_V example5_t0 !!! v = true ∧
    slack example5_t0 !!! 2%nat =
      cost example5_c v 2 - alpha example5_t0 !!! v - beta example5_t0 !!! 2%nat ∧
    ∀ w, (w < 5)%nat → label_V example5_t0 !!! w = true →
      slack example5_t0 !!! 2%nat ≤
        cost example5_c w 2 - alpha example5_t0 !!! w - beta example5_t0 !!! 2%nat.
Proof.
  split; [exact example5_valid|]. split; [exact example5_read|]. split; [lia|].
  split; [exact example5_in_search|]. split; [lia|]. split; [reflexivity|].
  apply (X15_slack_is_least_reduced_cost 5 example5 example5_c example5_min_col 5 0
           example5_t0 2);
    [exact example5_valid|exact example5_read|lia|exact example5_in_search|lia
    |reflexivity].
Defined.

(** X16: whatever the costs, at every turn of every search the labelled
    rows are exactly the unmatched rows and the mates of the labelled
    columns, every labelled column is matched, and the matching is the one
    the phase started with: the search does not write [mate_V] or
    [mate_U]. *)
Theorem X16_labels_follow_matching N c min_col fuel k s t :
  phases fuel N c k (initialize_alpha_beta N min_col) = Ok s →
  loop_head N c (phase_start N c s) t →
  mate_V t = mate_V s ∧ mate_U t = mate_U s ∧
  (∀ v, (v < N)%nat →
     label_V t !!! v = true ↔
     (mate_V t !!! v = -1 ∨
      ∃ u, (u < N)%nat ∧ mate_V t !!! v = Z.of_nat u ∧ label_U t !!! u = true)) ∧
  (∀ u, (u < N)%nat → label_U t !!! u = true → mate_U t !!! u ≠ -1).
Proof.
  intros Eph Hl.
  destruct (initialize_alpha_beta_structure N min_col) as (Hsz0 & Hm0 & _).
  pose proof (phases_structure N c fuel k _ Hsz0 Hm0) as Hph.
  rewrite Eph in Hph. destruct Hph as (Hsz & Hm & _).
  pose proof (seeding_all N c s Hsz) as Hseed.
  pose proof (seeding_structure N s _ Hsz Hm Hseed) as Hst0.
  fold (phase_start N c s) in Hseed, Hst0.
  destruct Hseed as (g1 & g2 & _).
  assert (structure N t ∧ mate_V t = mate_V s ∧ mate_U t = mate_U s)
    as ((_ & _ & _ & [HL1 HL2] & _) & e1 & e2).
  { induction Hl as [|t adm t' Hl IH Hbody]; [done|].
    destruct IH as (Hst & e1 & e2).
    destruct (search_body_structure N c t Hst) as (r & Er & Hr).
    rewrite Hbody in Er. injection Er as <-.
    destruct Hr as (Hst' & f1 & f2 & _). split_and!; congruence. }
  done.
Qed.

Lemma X16_labels_follow_matching_witness :
  phases 5 5 example5_c 0 (initialize_alpha_beta 5 example5_min_col) = Ok example5_s0 ∧
  loop_head 5 example5_c (phase_start 5 example5_c example5_s0) example5_t0 ∧
  mate_V example5_t0 = mate_V example5_s0 ∧ mate_U example5_t0 = mate_U example5_s0 ∧
  (∀ v, (v < 5)%nat →
     label_V example5_t0 !!! v = true ↔
     (mate_V example5_t0 !!! v = -1 ∨
      ∃ u, (u < 5)%nat ∧ mate_V example5_t0 !!! v = Z.of_nat u ∧
           label_U example5_t0 !!! u = true)) ∧
  (∀ u, (u < 5)%nat → label_U example5_t0 !!! u = true → mate_U example5_t0 !!! u ≠ -1).
Proof.
  assert (phases 5 5 example5_c 0 (initialize_alpha_beta 5 example5_min_col)
          = Ok example5_s0) as E1 by reflexivity.
  assert (loop_head 5 example5_c (phase_start 5 example5_c example5_s0) example5_t0)
    as E2 by apply loop_head_first.
  split; [exact E1|]. split; [exact E2|].
  apply (X16_labels_follow_matching 5 example5_c example5_min_col 5 0
           example5_s0 example5_t0 E1 E2).
Defined.

(** X17: the empty instance. With [N = 0] every loop is empty: the three
    programs return at once, whatever else the input holds, and print the
    cost [0]; in match mode hungarian.cpp and part_002 print nothing. *)
Theorem X17_empty_instance fuel inp :
  main fuel false 0 inp = Ok (OptCost 0) ∧
  main fuel true 0 inp = Ok (Assignment []) ∧
  Part002.main fuel false 0 inp = Ok (OptCost 0) ∧
  Part002.main fuel true 0 inp = Ok (Assignment []) ∧
  Part001.main fuel 0 inp = Ok 0.
Proof. split_and!; reflexivity. Qed.

(** X18: for every valid input, at every turn of every search and at the
    end of every phase, the duals are within the bound of the costs: with
    [T] the sum of the shifts so far, at most [cost_bound N], every
    [alpha[v]] lies between [-T] and [T] and is [T] on the unmatched rows,
    and every [beta[u]] lies within [T] of [min_col[u]] and is
    [min_col[u] + T] on the unmatched columns. *)
Theorem X18_duals_stay_in_range N inp c min_col fuel :
  valid_input N inp → read_input N inp = (c, min_col) → (N ≤ fuel)%nat →
  (∀ k, (k ≤ N)%nat →
     ∃ s, phases fuel N c k (initialize_alpha_beta N min_col) = Ok s ∧
       ∃ T, 0 ≤ T ≤ cost_bound N ∧
         (∀ v, (v < N)%nat →
            - T ≤ alpha s !!! v ≤ T ∧ (mate_V s !!! v = -1 → alpha s !!! v = T)) ∧
         (∀ u, (u < N)%nat →
            min_col !!! u - T ≤ beta s !!! u ≤ min_col !!! u + T ∧
            (mate_U s !!! u = -1 → beta s !!! u = min_col !!! u + T))) ∧
  (∀ k t, in_search fuel N c min_col k t →
     ∃ T, 0 ≤ T ≤ cost_bound N ∧
       (∀ v, (v < N)%nat →
          - T ≤ alpha t !!! v ≤ T ∧ (mate_V t !!! v = -1 → alpha t !!! v = T)) ∧
       (∀ u, (u < N)%nat →
          min_col !!! u - T ≤ beta t !!! u ≤ min_col !!! u + T ∧
          (mate_U t !!! u = -1 → beta t !!! u = min_col !!! u + T))).
Proof.
  intros Hvalid Eread Hfuel.
  destruct (valid_input_costs N inp c min_col Hvalid Eread) as [Hc _].
  split.
  - intros k Hk.
    destruct (phases_arith N c min_col _ Hc fuel k Hfuel Hk)
      as (s & Eph & _ & _ & (_ & _ & _ & Hr) & _).
    exists s. split; [done|]. exact Hr.
  - intros k t Hin.
    pose proof (in_search_inv N c min_col _ Hc fuel k t Hfuel Hin)
      as (_ & (_ & _ & _ & Hr) & _).
    exact Hr.
Qed.

Lemma X18_duals_stay_in_range_witness :
  valid_input 5 example5 ∧
  read_input 5 example5 = (example5_c, example5_min_col) ∧ (5 ≤ 5)%nat ∧
  (∀ k, (k ≤ 5)%nat →
     ∃ s, phases 5 5 example5_c k (initialize_alpha_beta 5 example5_min_col) = Ok s ∧
       ∃ T, 0 ≤ T ≤ cost_bound 5 ∧
         (∀ v, (v < 5)%nat →
            - T ≤ alpha s !!! v ≤ T ∧ (mate_V s !!! v = -1 → alpha s !!! v = T)) ∧
         (∀ u, (u < 5)%nat →
            example5_min_col !!! u - T ≤ beta s !!! u ≤ example5_min_col !!! u + T ∧
            (mate_U s !!! u = -1 → beta s !!! u = example5_min_col !!! u + T))) ∧
  (∀ k t, in_search 5 5 example5_c example5_min_col k t →
     ∃ T, 0 ≤ T ≤ cost_bound 5 ∧
       (∀ v, (v < 5)%nat →
          - T ≤ alpha t !!! v ≤ T ∧ (mate_V t !!! v = -1 → alpha t !!! v = T)) ∧
       (∀ u, (u < 5)%nat →
          example5_min_col !!! u - T ≤ beta t !!! u ≤ example5_min_col !!! u + T ∧
          (mate_U t !!! u = -1 → beta t !!! u = example5_min_col !!! u + T))).
Proof.
  split; [exact example5_valid|]. split; [exact example5_read|]. split; [lia|].
  apply (X18_duals_stay_in_range 5 example5 example5_c example5_min_col 5);
    [exact example5_valid|exact example5_read|lia].
Defined.

(** ** part_001, whatever the costs *)

(** A turn of the loop from the scan on, for any [theta]. *)
Lemma turn_structure N c theta s1 :
  structure N s1 →
  match scan (seq 0 N) theta [] s1 with
  | Found u s2 =>
    structure N s2 ∧ (u < N)%nat ∧ unlabelled_U s2 u = true ∧
    unmatched_U s2 u = true ∧ slack s2 !!! u = 0 ∧
    mate_V s2 = mate_V s1 ∧ mate_U s2 = mate_U s1
  | Collected adm s2 =>
    ∃ s3, for_each (promote N c) adm s2 = Ok s3 ∧ structure N s3 ∧
      mate_V s3 = mate_V s1 ∧ mate_U s3 = mate_U s1
  end.
Proof.
  intros Hst1.
  pose proof Hst1 as ((lmV & lmU & la & lb) & (lnb & lpar & lsl1 & lLV & lLU) & _).
  assert (Hseq : ∀ j, j ∈ seq 0 N → (j < N)%nat).
  { intros j Hj. apply elem_of_seq in Hj. lia. }
  pose proof (scan_spec N theta (seq 0 N) [] s1 lsl1 (NoDup_seq 0 N) Hseq) as Hscan.
  destruct (scan (seq 0 N) theta [] s1) as [u s2|adm s2].
  - destruct Hscan as (f1&f2&f3&f4&f5&f6&f7&f8&l2&Hin&Hunl&Hunm&Hsl&Hz&Hpt).
    split_and!; try congruence.
    + apply (structure_frame N s1 s2); try done; [congruence|congruence|].
      intros j Hj. destruct (Hpt j Hj) as [->|[_ ->]]; [done|]. apply decr_parity.
    + apply elem_of_seq in Hin. lia.
    + unfold unlabelled_U in *. by rewrite f8.
    + unfold unmatched_U in *. by rewrite f2.
  - destruct Hscan as (f1&f2&f3&f4&f5&f6&f7&f8&l2&Hpt&Hadm&Hmat&Hnd).
    assert (Hst2 : structure N s2).
    { apply (structure_frame N s1 s2); try done; [congruence|congruence|].
      intros j Hj. rewrite (Hpt j Hj).
      destruct (unlabelled_U s1 j && bool_decide (j ∈ seq 0 N)); [|done].
      apply decr_parity. }
    destruct (promote_all N c (λ _, True) (λ _ _ _ _ _ _ _, I) adm s2 Hst2)
      as (s3 & E3 & Hst3 & _ & g1 & g2 & _); [| |done|].
    { apply Hnd; [apply NoDup_nil_2|]. intros j Hj. by apply not_elem_of_nil in Hj. }
    { intros j Hj. apply Hadm in Hj as [Hj|(Hj & Hunl & Hz)];
        [by apply not_elem_of_nil in Hj|].
      assert (j < N)%nat as Hlt by (apply elem_of_seq in Hj; lia).
      split; [done|]. split_and!.
      - unfold unlabelled_U in *. by rewrite f8.
      - rewrite (Hpt j Hlt), Hunl. rewrite bool_decide_eq_true_2 by done. done.
      - specialize (Hmat j Hj Hunl Hz). unfold unmatched_U in *. by rewrite f2. }
    exists s3. split_and!; congruence.
Qed.

(** The call of [augment] on the column that a scan returned. *)
Lemma augment_found N fuel s u :
  structure N s → (u < N)%nat → unlabelled_U s u = true →
  unmatched_U s u = true → slack s !!! u = 0 →
  ∃ v, index N (nhbor s !!! u) = Ok v ∧
    match augment fuel N v u s with
    | Ok s' =>
      sized N s' ∧ matching N s' ∧
      matched_rows N s' = S (matched_rows N s) ∧
      matched_cols N s' = S (matched_cols N s)
    | Err e => e = OutOfFuel ∧ (fuel < N)%nat
    end.
Proof.
  intros Hst Hu Hunl Hunm Hz.
  pose proof Hst as ((lV & lU & la & lb) & _ & [Hm1 Hm2] & _ & Hnb & [rk Ht]).
  assert (EUu : mate_U s !!! u = -1).
  { unfold unmatched_U in Hunm. by apply bool_decide_eq_true in Hunm. }
  destruct (Hnb u Hu) as [(v & Hv & Enb & HLv)|(_ & Hodd & _)];
    [|rewrite Hz in Hodd; done].
  exists v. rewrite Enb, index_ok by done. split; [done|].
  assert (Hcnt : (labelled_cols N s < N)%nat).
  { apply (count_lt _ N u); [done|]. unfold unlabelled_U in Hunl.
    by destruct (label_U s !!! u). }
  assert (Hpre : augment_pre N rk s v u).
  { split_and!; try done.
    - intros w Hw. destruct (Hm1 w Hw) as [?|(u' & Hu' & E1 & E2)]; [by left|right].
      exists u'. split_and!; try done. intros ->. lia.
    - intros u' Hu' _. apply Hm2. done.
    - intros w Hw HLw _. destruct (Ht w Hw HLw) as (_ & Hr & Hmt).
      split; [done|]. intros u' Hu' E. destruct (Hmt u' Hu' E) as (p & ? & ? & ? & ? & ?).
      exists p. done. }
  pose proof (augment_spec N rk fuel s v u Hpre) as Haug.
  destruct (augment fuel N v u s) as [s'|e].
  - destruct Haug as (f1&f2&f3&f4&f5&f6&f7&lV3&lU3&Hm3&Hr3&Hc3&_).
    split_and!; try done.
    + unfold sized. rewrite f3, f4. done.
    + rewrite Hc3, Hunm. lia.
  - destruct Haug as [-> Hle]. split; [done|].
    destruct (Ht v Hv HLv) as (? & _). lia.
Qed.

Lemma part001_search_for_structure N c fuel : ∀ i s,
  structure N s →
  match Part001.search_for i fuel N c s with
  | Ok (Part001.Augmented, s') =>
    sized N s' ∧ matching N s' ∧
    matched_rows N s' = S (matched_rows N s) ∧
    matched_cols N s' = S (matched_cols N s)
  | Ok (Part001.FellThrough, s') =>
    sized N s' ∧ matching N s' ∧ mate_V s' = mate_V s ∧ mate_U s' = mate_U s
  | Err e => e = OutOfFuel ∧ (fuel < N)%nat
  end.
Proof.
  induction i as [|i IH]; intros s Hst; cbn [Part001.search_for].
  { destruct Hst as (? & _ & ? & _). done. }
  pose proof Hst as ((lmV & lmU & la & lb) & (lnb & lpar & lsl & lLV & lLU) & _).
  set (theta := ll_div (min_slack N s) 2).
  set (s1 := if bool_decide (theta > 0) then shift N theta s else s).
  assert (structure N s1 ∧ mate_V s1 = mate_V s ∧ mate_U s1 = mate_U s)
    as (Hst1 & e1 & e2).
  { unfold s1. case_bool_decide; [|done].
    destruct (shift_spec N theta s la lb) as (f1&f2&f3&f4&f5&f6&f7&la1&lb1&_).
    split_and!; try done.
    apply (structure_frame N s); try done; [by rewrite f5|].
    intros u Hu. by rewrite f5. }
  pose proof (turn_structure N c theta s1 Hst1) as Hturn.
  destruct (scan (seq 0 N) theta [] s1) as [u s2|adm s2].
  - destruct Hturn as (Hst2 & Hu & Hunl & Hunm & Hz & g1 & g2).
    destruct (augment_found N fuel s2 u Hst2 Hu Hunl Hunm Hz) as (v & -> & Haug).
    cbn. destruct (augment fuel N v u s2) as [s3|e]; [|done]. cbn.
    destruct Haug as (? & ? & Hr & Hc).
    destruct (matched_frame N s s2) as [Er Ec]; [congruence|congruence|].
    split_and!; try done; congruence.
  - destruct Hturn as (s3 & -> & Hst3 & g1 & g2). cbn.
    specialize (IH s3 Hst3).
    destruct (Part001.search_for i fuel N c s3) as [[[|] s4]|e]; [| |done].
    + destruct IH as (? & ? & Hr & Hc).
      destruct (matched_frame N s s3) as [Er Ec]; [congruence|congruence|].
      split_and!; try done; congruence.
    + destruct IH as (? & ? & ? & ?). split_and!; try done; congruence.
Qed.

Lemma part001_phase_structure N c fuel s :
  sized N s → matching N s →
  match Part001.phase fuel N c s with
  | Ok s' =>
    sized N s' ∧ matching N s' ∧
    ((matched_rows N s' = S (matched_rows N s) ∧
      matched_cols N s' = S (matched_cols N s)) ∨
     (mate_V s' = mate_V s ∧ mate_U s' = mate_U s))
  | Err e => e = OutOfFuel ∧ (fuel < N)%nat
  end.
Proof.
  intros Hsz Hm. unfold Part001.phase, Part001.search.
  pose proof (seeding_all N c s Hsz) as Hseed.
  pose proof (seeding_structure N s _ Hsz Hm Hseed) as Hst1.
  destruct Hseed as (g1 & g2 & _).
  set (s1 := seed_roots N c (initialize_search N s)) in *.
  pose proof (part001_search_for_structure N c fuel N s1 Hst1) as H.
  destruct (Part001.search_for N fuel N c s1) as [[[|] s2]|e]; [| |done]; cbn.
  - destruct H as (? & ? & Hr & Hc).
    destruct (matched_frame N s s1) as [Er Ec]; [done|done|].
    split_and!; try done. left. split; congruence.
  - destruct H as (? & ? & ? & ?). split_and!; try done. right. split; congruence.
Qed.

Lemma part001_phases_structure N c fuel k : ∀ s,
  sized N s → matching N s →
  match Part001.phases fuel N c k s with
  | Ok s' =>
    sized N s' ∧ matching N s' ∧
    (matched_rows N s ≤ matched_rows N s' ≤ matched_rows N s + k)%nat ∧
    (matched_cols N s' + matched_rows N s = matched_rows N s' + matched_cols N s)%nat
  | Err e => e = OutOfFuel ∧ (fuel < N)%nat
  end.
Proof.
  induction k as [|k IH]; intros s Hsz Hm; cbn [Part001.phases].
  { split_and!; (done || lia). }
  specialize (IH s Hsz Hm).
  destruct (Part001.phases fuel N c k s) as [s1|e]; [|done]. cbn.
  destruct IH as (Hsz1 & Hm1 & Hr & Hc).
  pose proof (part001_phase_structure N c fuel s1 Hsz1 Hm1) as Hph.
  destruct (Part001.phase fuel N c s1) as [s2|e]; [|done].
  destruct Hph as (? & ? & [[Er Ec]|[EV EU]]).
  - split_and!; (done || lia).
  - destruct (matched_frame N s1 s2 EV EU) as [Er Ec].
    split_and!; (done || lia).
Qed.

Lemma min_cost_loop N (c : list (list Z)) s : ∀ (l : list nat) (acc : Z),
  (∀ v, v ∈ l → (v < N)%nat) → matching N s →
  if bool_decide (Forall (λ v, mate_V s !!! v ≠ -1) l)
  then ∃ out, for_each (λ v (min_cost : Z),
                  u ← index N (mate_V s !!! v);
                  Ok (ll_add min_cost (cost c v u))) l acc = Ok out
  else for_each (λ v (min_cost : Z),
          u ← index N (mate_V s !!! v);
          Ok (ll_add min_cost (cost c v u))) l acc = Err OutOfBounds.
Proof.
  intros l acc Hl [Hm _]. revert acc.
  induction l as [|v l IH]; intros acc; cbn [for_each].
  { rewrite bool_decide_eq_true_2 by constructor. by eexists. }
  assert (Hl' : ∀ w, w ∈ l → (w < N)%nat) by (intros; apply Hl; by right).
  specialize (IH Hl').
  destruct (Hm v) as [E|(u & Hu & E & _)]; [apply Hl; by left| |].
  - rewrite bool_decide_eq_false_2.
    2:{ intros HF. apply Forall_cons in HF as [? _]. done. }
    rewrite E. done.
  - rewrite E, index_ok by done. cbn.
    specialize (IH (ll_add acc (cost c v u))).
    case_bool_decide as HF.
    + rewrite bool_decide_eq_true_2; [done|]. constructor; [lia|done].
    + rewrite bool_decide_eq_false_2; [done|].
      intros HF'. apply Forall_cons in HF' as [_ ?]. done.
Qed.

(** X19: part_001 on any matrix, whatever its integers, with room for [N]
    levels of recursion: the main cycle returns, without reading or writing
    outside a vector, and leaves a matching in which [mate_V] and [mate_U]
    are inverse of each other, with as many matched rows as matched
    columns. The loop that adds up the costs then returns when every row
    is matched, and reads [c[v][-1]] when some row is not. *)
Theorem X19_part001_stays_in_bounds N inp fuel :
  (N ≤ fuel)%nat →
  ∃ s,
    Part001.phases fuel N (read_input N inp).1 N
      (initialize_alpha_beta N (read_input N inp).2) = Ok s ∧
    sized N s ∧ matching N s ∧
    (matched_rows N s ≤ N)%nat ∧ matched_cols N s = matched_rows N s ∧
    ((∀ v, (v < N)%nat → mate_V s !!! v ≠ -1) →
       ∃ out, Part001.main fuel N inp = Ok out) ∧
    ((∃ v, (v < N)%nat ∧ mate_V s !!! v = -1) →
       Part001.main fuel N inp = Err OutOfBounds).
Proof.
  intros Hfuel. unfold Part001.main.
  destruct (read_input N inp) as [c mc]. cbn [fst snd].
  destruct (initialize_alpha_beta_structure N mc) as (Hsz0 & Hm0 & Hr0 & Hc0).
  pose proof (part001_phases_structure N c fuel N _ Hsz0 Hm0) as H.
  destruct (Part001.phases fuel N c N (initialize_alpha_beta N mc)) as [s|e];
    [|destruct H; lia].
  destruct H as (Hsz & Hm & Hr & Hc).
  exists s. cbn.
  assert (Hseq : ∀ v, v ∈ seq 0 N → (v < N)%nat).
  { intros v Hv. apply elem_of_seq in Hv. lia. }
  pose proof (min_cost_loop N c s (seq 0 N) 0 Hseq Hm) as Hloop.
  split_and!; try done; try lia.
  - intros Hall. rewrite bool_decide_eq_true_2 in Hloop.
    + destruct Hloop as [out ->]. cbn. by eexists.
    + apply Forall_forall. intros v Hv. by apply Hall, Hseq.
  - intros (v & Hv & E). rewrite bool_decide_eq_false_2 in Hloop.
    + by rewrite Hloop.
    + intros HF. rewrite Forall_forall in HF. apply (HF v); [|done].
      apply elem_of_seq. lia.
Qed.

Lemma X19_part001_stays_in_bounds_witness :
  (2 ≤ 2)%nat ∧
  ∃ s,
    Part001.phases 2 2 (read_input 2 huge2).1 2
      (initialize_alpha_beta 2 (read_input 2 huge2).2) = Ok s ∧
    sized 2 s ∧ matching 2 s ∧
    (matched_rows 2 s ≤ 2)%nat ∧ matched_cols 2 s = matched_rows 2 s ∧
    ((∀ v, (v < 2)%nat → mate_V s !!! v ≠ -1) →
       ∃ out, Part001.main 2 2 huge2 = Ok out) ∧
    ((∃ v, (v < 2)%nat ∧ mate_V s !!! v = -1) →
       Part001.main 2 2 huge2 = Err OutOfBounds).
Proof.
  split; [lia|]. apply (X19_part001_stays_in_bounds 2 huge2 2). lia.
Defined.

(** ** hungarian.cpp, whatever the costs *)

(** X20: on any matrix, whatever its integers (negative, or too large to be
    doubled in 64 bits), when hungarian.cpp in match mode returns, it has
    printed one column per row and every column once. *)
Theorem X20_match_mode_prints_permutation N inp fuel out :
  main fuel true N inp = Ok out →
  ∃ l, out = Assignment l ∧ length l = N ∧
    (∀ v, (v < N)%nat → 0 ≤ l !!! v < Z.of_nat N) ∧
    (∀ v v', (v < N)%nat → (v' < N)%nat → l !!! v = l !!! v' → v = v') ∧
    is_assignment N (Z.to_nat <$> l).
Proof.
  unfold main. destruct (read_input N inp) as [c mc].
  pose proof (hungarian_algorithm_structure N c fuel mc) as H.
  destruct (hungarian_algorithm fuel N c mc) as [s|e]; [|done]. cbn.
  destruct H as [Hsz Hperf]. pose proof Hsz as (lV & _).
  rewrite match_output by done. intros [= <-].
  destruct (perfect_bijection N s Hperf) as (Hr & Hinj & _).
  exists (mate_V s). split_and!; try done.
  by apply perfect_assignment.
Qed.

Lemma X20_match_mode_prints_permutation_witness :
  main 5 true 5 example5 = Ok (Assignment example5_assignment) ∧
  ∃ l, Assignment example5_assignment = Assignment l ∧ length l = 5%nat ∧
    (∀ v, (v < 5)%nat → 0 ≤ l !!! v < Z.of_nat 5) ∧
    (∀ v v', (v < 5)%nat → (v' < 5)%nat → l !!! v = l !!! v' → v = v') ∧
    is_assignment 5 (Z.to_nat <$> l).
Proof.
  assert (main 5 true 5 example5 = Ok (Assignment example5_assignment)) as E
    by (vm_compute; reflexivity).
  split; [exact E|].
  apply (X20_match_mode_prints_permutation 5 example5 5 _ E).
Defined.

Lemma parent_chain_ext N s s' : parent s' = parent s →
  ∀ fuel v, parent_chain fuel N s' v = parent_chain fuel N s v.
Proof.
  intros E. induction fuel as [|fuel IH]; intros v; [done|].
  cbn [parent_chain]. rewrite E. case_bool_decide; [|done].
  destruct (index N (parent s !!! v)) as [p|]; [|done]. cbn. by rewrite IH.
Qed.

Lemma parent_chain_head N s fuel v path :
  parent_chain fuel N s v = Ok path → ∃ rest, path = v :: rest.
Proof.
  destruct fuel as [|fuel]; [done|]. cbn [parent_chain].
  case_bool_decide.
  - destruct (index N (parent s !!! v)) as [p|]; [|done]. cbn.
    destruct (parent_chain fuel N s p) as [l|]; [|done]. cbn.
    intros [= <-]. by eexists.
  - intros [= <-]. by eexists.
Qed.

(** [augment] walks the parent pointers and hands the old mate of each row
    to the next one. *)
Lemma augment_path N : ∀ fuel s v e path,
  parent_chain fuel N s v = Ok path → NoDup path →
  length (mate_V s) = N → (∀ w, w ∈ path → (w < N)%nat) →
  (∀ w, w ∈ path → parent s !!! w ≠ -1 →
     ∃ a, (a < N)%nat ∧ mate_V s !!! w = Z.of_nat a) →
  ∃ s', augment fuel N v e s = Ok s' ∧
    length (mate_V s') = N ∧
    mate_V s' !!! v = Z.of_nat e ∧
    (∀ i w w', path !! i = Some w → path !! S i = Some w' →
       mate_V s' !!! w' = mate_V s !!! w) ∧
    (∀ w, w ∉ path → mate_V s' !!! w = mate_V s !!! w).
Proof.
  induction fuel as [|fuel IH]; intros s v e path Hchain Hnd Hlen Hlt Hmate; [done|].
  cbn [parent_chain] in Hchain. cbn [augment]. fields.
  set (s1 := set_mate_U (set_mate_V s (<[v:=Z.of_nat e]> (mate_V s)))
               (<[e:=Z.of_nat v]> (mate_U s))).
  assert (parent s1 = parent s) as Epar by done.
  assert (mate_V s1 = <[v:=Z.of_nat e]> (mate_V s)) as EV by done.
  case_bool_decide as Hp.
  2:{ injection Hchain as <-. exists s1. rewrite EV, length_insert.
      assert (v < N)%nat by (apply Hlt; by left).
      split_and!; try done; try (apply list_lookup_total_insert_eq; lia).
      intros w Hw. apply list_lookup_total_insert_ne. intros ->. apply Hw. by left. }
  destruct (index N (parent s !!! v)) as [p|] eqn:Ep; [|done]. cbn in Hchain.
  destruct (parent_chain fuel N s p) as [l|] eqn:El; [|done]. cbn in Hchain.
  injection Hchain as <-.
  apply NoDup_cons in Hnd as [Hv Hnd].
  assert (v < N)%nat as HvN by (apply Hlt; by left).
  destruct (Hmate v ltac:(by left) Hp) as (a & Ha & Ea).
  cbn. rewrite Ea, index_ok by done. cbn.
  destruct (IH s1 p a l) as (s' & -> & Hlen' & Hp' & Hcons & Hoff).
  { by rewrite (parent_chain_ext N s s1 Epar). }
  { done. }
  { by rewrite EV, length_insert. }
  { intros w Hw. apply Hlt. by right. }
  { intros w Hw Hpw. rewrite Epar in Hpw.
    destruct (Hmate w ltac:(by right) Hpw) as (a' & Ha' & Ea').
    exists a'. split; [done|]. rewrite EV, list_lookup_total_insert_ne; [done|].
    intros ->. done. }
  exists s'. split_and!; try done.
  - rewrite (Hoff v Hv), EV. apply list_lookup_total_insert_eq. lia.
  - intros i w w' Hw Hw'. destruct i as [|i].
    + cbn in Hw. injection Hw as <-.
      destruct (parent_chain_head N s fuel p l El) as (rest & ->).
      cbn in Hw'. injection Hw' as <-. by rewrite Hp'.
    + cbn in Hw, Hw'. rewrite (Hcons i w w' Hw Hw'), EV.
      apply list_lookup_total_insert_ne. intros ->.
      apply Hv. by apply list_elem_of_lookup_2 in Hw.
  - intros w Hw. rewrite Hoff, EV.
    + apply list_lookup_total_insert_ne. intros ->. apply Hw. by left.
    + intros Hw'. apply Hw. by right.
Qed.

(** X21: whatever the costs, when the search of a phase has returned column
    [u], the call [augment(nhbor[u], u)] flips the path of the parent
    pointers: row [nhbor[u]] is matched to [u], every further row of the
    path takes the former mate of the row before it, the rows off the path
    keep their mates, and [mate_U] is again the inverse of [mate_V]; the
    duals are not touched. *)
Theorem X21_augment_flips_path N c min_col fuel k s u t :
  phases fuel N c k (initialize_alpha_beta N min_col) = Ok s →
  search_augmenting_alternating_path fuel N c (phase_start N c s) = Ok (u, t) →
  ∃ v path s',
    index N (nhbor t !!! u) = Ok v ∧
    parent_chain N N t v = Ok path ∧
    augment N N v u t = Ok s' ∧
    mate_V s' !!! v = Z.of_nat u ∧
    (∀ i w w', path !! i = Some w → path !! S i = Some w' →
       mate_V s' !!! w' = mate_V t !!! w) ∧
    (∀ w, w ∉ path → mate_V s' !!! w = mate_V t !!! w) ∧
    (∀ w a, (w < N)%nat → (a < N)%nat →
       mate_V s' !!! w = Z.of_nat a ↔ mate_U s' !!! a = Z.of_nat w) ∧
    alpha s' = alpha t ∧ beta s' = beta t.
Proof.
  intros Eph Es.
  destruct (initialize_alpha_beta_structure N min_col) as (Hsz0 & Hm0 & _).
  pose proof (phases_structure N c fuel k _ Hsz0 Hm0) as H. rewrite Eph in H.
  destruct H as (Hsz & Hm & _).
  assert (structure N (phase_start N c s)) as Hst0.
  { apply (seeding_structure N s); [done|done|]. by apply seeding_all. }
  pose proof (search_structure N c fuel _ Hst0) as H. rewrite Es in H.
  destruct H as (Hst & Hu & Hunl & Hunm & Hz & _).
  pose proof Hst as ((lV & lU & _) & _ & [Hm1 Hm2] & _ & Hnb & [rk Ht]).
  destruct (Hnb u Hu) as [(v & Hv & Env & HLv)|(_ & Hodd & _)];
    [|rewrite Hz in Hodd; done].
  assert (Hcnt : (labelled_cols N t < N)%nat).
  { apply (count_lt _ N u); [done|]. unfold unlabelled_U in Hunl.
    by destruct (label_U t !!! u). }
  destruct (parent_chain_spec N t Hst) as (rk' & Hchain).
  assert (rk' v < N)%nat as Hrk'.
  { destruct (Hchain (S (rk' v)) v Hv HLv ltac:(lia)) as (_ & _ & _ & _ & _ & _ & _ & _ & ? & _).
    lia. }
  destruct (Hchain N v Hv HLv Hrk')
    as (path & root & Ec & _ & _ & _ & Hnd & _ & _ & Hin).
  destruct (augment_path N N t v u path Ec Hnd lV) as (s' & Ea & _ & Hv' & Hcons & Hoff).
  { intros w Hw. by destruct (Hin w Hw). }
  { intros w Hw Hpw. destruct (Hin w Hw) as (HwN & HLw & _).
    destruct (Ht w HwN HLw) as (_ & Hroot & _).
    destruct (Hm1 w HwN) as [E|(a & Ha & E & _)]; [by apply Hroot in E|].
    by exists a. }
  assert (Hpre : augment_pre N rk t v u).
  { assert (mate_U t !!! u = -1) as EUu.
    { unfold unmatched_U in Hunm. by apply bool_decide_eq_true in Hunm. }
    split_and!; try done.
    - intros w Hw. destruct (Hm1 w Hw) as [?|(u' & Hu' & E1 & E2)]; [by left|right].
      exists u'. split_and!; try done. intros ->. lia.
    - intros u' Hu' _. apply Hm2. done.
    - intros w Hw HLw _. destruct (Ht w Hw HLw) as (_ & Hr & Hmt).
      split; [done|]. intros u' Hu' E. destruct (Hmt u' Hu' E) as (p & ? & ? & ? & ? & ?).
      exists p. done. }
  pose proof (augment_spec N rk N t v u Hpre) as Haug. rewrite Ea in Haug.
  destruct Haug as (_&_&f3&f4&_&_&_&_&_&[Hm1' Hm2']&_).
  exists v, path, s'. rewrite Env, index_ok by done.
  split_and!; try done.
  intros w a Hw Ha. split.
  - intros E. destruct (Hm1' w Hw) as [E'|(a' & Ha' & E1 & E2)]; [lia|].
    assert (a' = a) as -> by lia. done.
  - intros E. destruct (Hm2' a Ha) as [E'|(w' & Hw' & E1 & E2)]; [lia|].
    assert (w' = w) as -> by lia. done.
Qed.

Lemma X21_augment_flips_path_witness :
  phases 5 5 example5_c 0 (initialize_alpha_beta 5 example5_min_col) = Ok example5_s0 ∧
  search_augmenting_alternating_path 5 5 example5_c (phase_start 5 example5_c example5_s0)
    = Ok (example5_found.1, example5_found.2) ∧
  ∃ v path s',
    index 5 (nhbor example5_found.2 !!! example5_found.1) = Ok v ∧
    parent_chain 5 5 example5_found.2 v = Ok path ∧
    augment 5 5 v example5_found.1 example5_found.2 = Ok s' ∧
    mate_V s' !!! v = Z.of_nat example5_found.1 ∧
    (∀ i w w', path !! i = Some w → path !! S i = Some w' →
       mate_V s' !!! w' = mate_V example5_found.2 !!! w) ∧
    (∀ w, w ∉ path → mate_V s' !!! w = mate_V example5_found.2 !!! w) ∧
    (∀ w a, (w < 5)%nat → (a < 5)%nat →
       mate_V s' !!! w = Z.of_nat a ↔ mate_U s' !!! a = Z.of_nat w) ∧
    alpha s' = alpha example5_found.2 ∧ beta s' = beta example5_found.2.
Proof.
  assert (phases 5 5 example5_c 0 (initialize_alpha_beta 5 example5_min_col)
          = Ok example5_s0) as E1 by reflexivity.
  assert (search_augmenting_alternating_path 5 5 example5_c
            (phase_start 5 example5_c example5_s0)
          = Ok (example5_found.1, example5_found.2)) as E2
    by (vm_compute; reflexivity).
  split; [exact E1|]. split; [exact E2|].
  apply (X21_augment_flips_path 5 example5_c example5_min_col 5 0 example5_s0
           example5_found.1 example5_found.2 E1 E2).
Defined.

(** ** Labels within a search *)

Lemma promote_labels N c : ∀ adm s s',
  structure N s → NoDup adm → (∀ j, j ∈ adm → promotable N s j) →
  for_each (promote N c) adm s = Ok s' →
  (∀ j, (j < N)%nat →
     label_U s' !!! j = true ↔ label_U s !!! j = true ∨ j ∈ adm) ∧
  (∀ v, (v < N)%nat →
     label_V s' !!! v = true ↔
     label_V s !!! v = true ∨ ∃ u, u ∈ adm ∧ mate_U s !!! u = Z.of_nat v).
Proof.
  induction adm as [|u adm IH]; intros s s' Hst Hnd Hadm Hfor.
  { cbn in Hfor. injection Hfor as <-. split.
    - intros j Hj. split; [by left|]. intros [?|H]; [done|]. by apply not_elem_of_nil in H.
    - intros v Hv. split; [by left|]. intros [?|(u & H & _)]; [done|].
      by apply not_elem_of_nil in H. }
  apply NoDup_cons in Hnd as [Hnotin Hnd].
  assert (Hpu : promotable N s u) by (apply Hadm; by left).
  pose proof Hst as (_ & (_ & _ & _ & lLV & lLU) & _).
  destruct (promote_structure N c s u Hst Hpu)
    as (m & s1 & Hm & EmU & EmV & HLVm & Eprom & Hst1 & e1 & e2 & e3 & e4 & eLU & eLV
        & Hcnt & Hkeep & Hupd).
  cbn [for_each] in Hfor. rewrite Eprom in Hfor. cbn in Hfor.
  destruct (IH s1 s' Hst1 Hnd) as [HU HV]; [|done|].
  { intros j Hj. destruct (Hadm j) as (Hjlt & Hjunl & Hjsl & Hjmat); [by right|].
    assert (j ≠ u) as Hne by (intros ->; done).
    split; [done|]. split_and!.
    - unfold unlabelled_U in *. rewrite eLU.
      by rewrite list_lookup_total_insert_ne.
    - specialize (Hupd j Hjlt Hjunl Hne). rewrite Hjsl in Hupd.
      destruct (bool_decide (0 ≤ bound c s m j)) eqn:E1; simpl in Hupd.
      + rewrite bool_decide_eq_false_2 in Hupd; [apply Hupd|].
        apply bool_decide_eq_true in E1. lia.
      + apply Hupd.
    - unfold unmatched_U in *. by rewrite e2. }
  destruct Hpu as (Hu & _).
  split.
  - intros j Hj. rewrite (HU j Hj), eLU, lookup_total_insert_true by lia.
    rewrite elem_of_cons. intuition.
  - intros v Hv. rewrite (HV v Hv), eLV, lookup_total_insert_true by lia.
    rewrite e2. split.
    + intros [[->|?]|(u' & Hu' & E)].
      * right. exists u. split; [by left|done].
      * by left.
      * right. exists u'. split; [by right|done].
    + intros [?|(u' & Hu' & E)]; [left; by right|].
      apply elem_of_cons in Hu' as [->|Hu'].
      * left. left. lia.
      * right. by exists u'.
Qed.

(** X22: whatever the costs, a turn of the search that does not return
    labels exactly the columns it collected and their mates: a column is
    labelled after the turn when it was labelled before or was collected,
    a row when it was labelled before or is the mate of a collected
    column; no label is cleared, and the matching and the duals that the
    dual update left are not touched. *)
Theorem X22_turn_labels_collected N c min_col fuel k s t admissibles t' :
  phases fuel N c k (initialize_alpha_beta N min_col) = Ok s →
  loop_head N c (phase_start N c s) t →
  search_body N c t = Ok (Collected admissibles t') →
  NoDup admissibles ∧
  (∀ j, (j < N)%nat →
     label_U t' !!! j = true ↔ label_U t !!! j = true ∨ j ∈ admissibles) ∧
  (∀ v, (v < N)%nat →
     label_V t' !!! v = true ↔
     label_V t !!! v = true ∨
     ∃ u, u ∈ admissibles ∧ mate_U t !!! u = Z.of_nat v) ∧
  mate_V t' = mate_V t ∧ mate_U t' = mate_U t ∧
  alpha t' = alpha (update_alpha_beta N t).2 ∧
  beta t' = beta (update_alpha_beta N t).2.
Proof.
  intros Eph Hl Hbody.
  destruct (initialize_alpha_beta_structure N min_col) as (Hsz0 & Hm0 & _).
  pose proof (phases_structure N c fuel k _ Hsz0 Hm0) as Hph.
  rewrite Eph in Hph. destruct Hph as (Hsz & Hm & _).
  assert (structure N (phase_start N c s)) as Hst0.
  { apply (seeding_structure N s); [done|done|]. by apply seeding_all. }
  pose proof (loop_head_structure N c _ t Hst0 Hl) as Hst.
  pose proof Hst as ((lmV & lmU & la & lb) & (lnb & lpar & lsl & lLV & lLU) & _).
  unfold search_body in Hbody.
  destruct (update_alpha_beta_spec N t la lb)
    as (theta & t1 & E1 & e1 & e2 & e3 & e4 & e5 & e6 & e7 & la1 & lb1 & _).
  rewrite E1 in Hbody |- *. cbn [snd].
  assert (Hst1 : structure N t1).
  { apply (structure_frame N t t1); try done; [by rewrite e5|].
    intros u Hu. by rewrite e5. }
  assert (lsl1 : length (slack t1) = N) by (by rewrite e5).
  assert (Hseq : ∀ j, j ∈ seq 0 N → (j < N)%nat).
  { intros j Hj. apply elem_of_seq in Hj. lia. }
  pose proof (scan_spec N theta (seq 0 N) [] t1 lsl1 (NoDup_seq 0 N) Hseq) as Hscan.
  destruct (scan (seq 0 N) theta [] t1) as [u t2|adm t2]; [done|].
  destruct Hscan as (f1&f2&f3&f4&f5&f6&f7&f8&l2&Hpt&Hadm&Hmat&Hnd).
  assert (Hst2 : structure N t2).
  { apply (structure_frame N t1 t2); try done; [congruence|congruence|].
    intros j Hj. rewrite (Hpt j Hj).
    destruct (unlabelled_U t1 j && bool_decide (j ∈ seq 0 N)); [|done].
    apply decr_parity. }
  assert (Hnd' : NoDup adm).
  { apply Hnd; [apply NoDup_nil_2|]. intros j Hj. by apply not_elem_of_nil in Hj. }
  assert (Hprom : ∀ j, j ∈ adm → promotable N t2 j).
  { intros j Hj. apply Hadm in Hj as [Hj|(Hj & Hunl & Hz)];
      [by apply not_elem_of_nil in Hj|].
    assert (j < N)%nat as Hlt by (apply elem_of_seq in Hj; lia).
    split; [done|]. split_and!.
    - unfold unlabelled_U in *. by rewrite f8.
    - rewrite (Hpt j Hlt), Hunl. rewrite bool_decide_eq_true_2 by done. done.
    - specialize (Hmat j Hj Hunl Hz). unfold unmatched_U in *. by rewrite f2. }
  destruct (promote_all N c (λ _, True) (λ _ _ _ _ _ _ _, I) adm t2 Hst2 Hnd' Hprom I)
    as (t3 & E3 & _ & _ & g1 & g2 & g3 & g4 & _).
  rewrite E3 in Hbody. cbn in Hbody. injection Hbody as <- <-.
  destruct (promote_labels N c adm t2 t3 Hst2 Hnd' Hprom E3) as [HU HV].
  split_and!; try congruence.
  - intros j Hj. rewrite (HU j Hj). by rewrite f8, e7.
  - intros v Hv. rewrite (HV v Hv). by rewrite f7, e6, f2, e2.
Qed.

Lemma X22_turn_labels_collected_witness :
  phases 5 5 example5_c 3 (initialize_alpha_beta 5 example5_min_col) = Ok example5_s3 ∧
  loop_head 5 example5_c (phase_start 5 example5_c example5_s3)
    (phase_start 5 example5_c example5_s3) ∧
  search_body 5 example5_c (phase_start 5 example5_c example5_s3)
    = Ok (Collected example5_collected.1 example5_collected.2) ∧
  NoDup example5_collected.1 ∧
  (∀ j, (j < 5)%nat →
     label_U example5_collected.2 !!! j = true ↔
     label_U (phase_start 5 example5_c example5_s3) !!! j = true ∨
     j ∈ example5_collected.1) ∧
  (∀ v, (v < 5)%nat →
     label_V example5_collected.2 !!! v = true ↔
     label_V (phase_start 5 example5_c example5_s3) !!! v = true ∨
     ∃ u, u ∈ example5_collected.1 ∧
          mate_U (phase_start 5 example5_c example5_s3) !!! u = Z.of_nat v) ∧
  mate_V example5_collected.2 = mate_V (phase_start 5 example5_c example5_s3) ∧
  mate_U example5_collected.2 = mate_U (phase_start 5 example5_c example5_s3) ∧
  alpha example5_collected.2 =
    alpha (update_alpha_beta 5 (phase_start 5 example5_c example5_s3)).2 ∧
  beta example5_collected.2 =
    beta (update_alpha_beta 5 (phase_start 5 example5_c example5_s3)).2.
Proof.
  assert (phases 5 5 example5_c 3 (initialize_alpha_beta 5 example5_min_col)
          = Ok example5_s3) as E1 by (vm_compute; reflexivity).
  assert (loop_head 5 example5_c (phase_start 5 example5_c example5_s3)
            (phase_start 5 example5_c example5_s3)) as E2 by apply loop_head_first.
  assert (search_body 5 example5_c (phase_start 5 example5_c example5_s3)
          = Ok (Collected example5_collected.1 example5_collected.2)) as E3
    by (vm_compute; reflexivity).
  split; [exact E1|]. split; [exact E2|]. split; [exact E3|].
  apply (X22_turn_labels_collected 5 example5_c example5_min_col 5 3 example5_s3
           _ _ _ E1 E2 E3).
Defined.

(** ** A least slack of one *)

(** X23: in any state whose duals and slacks are 64-bit values, when the
    least slack of the unlabelled columns is [1], the halved [theta] is [0]
    and a turn changes nothing: the [while (true)] loop of hungarian.cpp
    never returns, and the loop of part_001, bounded by [N], runs to its
    end without an augmentation. *)
Theorem X23_least_slack_one_stalls N c s :
  length (alpha s) = N → length (beta s) = N → length (slack s) = N →
  (∀ i, (i < N)%nat →
     ll_min ≤ alpha s !!! i ≤ ll_max ∧ ll_min ≤ beta s !!! i ≤ ll_max ∧
     ll_min ≤ slack s !!! i ≤ ll_max) →
  min_slack N s = 1 →
  search_body N c s = Ok (Collected [] s) ∧
  (∀ fuel, search_augmenting_alternating_path fuel N c s = Err OutOfFuel) ∧
  (∀ i fuel, Part001.search_for i fuel N c s = Ok (Part001.FellThrough, s)).
Proof.
  intros la lb lsl Hrange Hmin.
  assert (Hshift : shift N 0 s = s).
  { destruct (shift_spec N 0 s la lb) as (e1&e2&e3&e4&e5&e6&e7&la1&lb1&H).
    apply state_eq; try done.
    - apply (list_eq_total _ _ N); try done. intros i Hi.
      destruct (H i Hi) as [-> _]. destruct (Hrange i Hi) as (? & _).
      unfold ll_add, ll_sub. destruct (label_V s !!! i); rewrite wrap_id; lia.
    - apply (list_eq_total _ _ N); try done. intros i Hi.
      destruct (H i Hi) as [_ ->]. destruct (Hrange i Hi) as (_ & ? & _).
      unfold ll_add, ll_sub. destruct (label_U s !!! i); rewrite wrap_id; lia. }
  assert (Hdecr : ∀ u, (u < N)%nat → decr s 0 u = slack s !!! u).
  { intros u Hu. destruct (Hrange u Hu) as (_ & _ & ?).
    unfold decr. change (ll_mul 2 0) with 0. unfold ll_sub.
    rewrite wrap_id; lia. }
  assert (Hscan : scan (seq 0 N) 0 [] s = Collected [] s).
  { assert (Hseq : ∀ j, j ∈ seq 0 N → (j < N)%nat).
    { intros j Hj. apply elem_of_seq in Hj. lia. }
    destruct (min_slack_spec N s) as [Hle _]. rewrite Hmin in Hle.
    pose proof (scan_spec N 0 (seq 0 N) [] s lsl (NoDup_seq 0 N) Hseq) as H.
    destruct (scan (seq 0 N) 0 [] s) as [u s'|adm s'].
    - destruct H as (_&_&_&_&_&_&_&_&_&Hin&Hunl&_&_&Hz&_).
      apply Hseq in Hin. rewrite (Hdecr u Hin) in Hz.
      specialize (Hle u Hin Hunl). lia.
    - destruct H as (f1&f2&f3&f4&f5&f6&f7&f8&l2&Hpt&Hadm&_).
      assert (adm = []) as ->.
      { destruct adm as [|j adm]; [done|].
        destruct (Hadm j) as [[H|(Hj & Hunl & Hz)] _]; [by left| |].
        - by apply not_elem_of_nil in H.
        - apply Hseq in Hj. rewrite (Hdecr j Hj) in Hz.
          specialize (Hle j Hj Hunl). lia. }
      f_equal. apply state_eq; try done.
      apply (list_eq_total _ _ N); try done. intros j Hj.
      rewrite (Hpt j Hj), (Hdecr j Hj). by destruct (_ && _). }
  assert (Hbody : search_body N c s = Ok (Collected [] s)).
  { unfold search_body, update_alpha_beta. rewrite Hmin.
    rewrite bool_decide_eq_true_2 by lia.
    change (ll_div 1 2) with 0. by rewrite Hshift, Hscan. }
  split_and!.
  - done.
  - by apply (search_stuck N c s []).
  - induction i as [|i IH]; intros fuel; [done|].
    cbn [Part001.search_for]. rewrite Hmin. change (ll_div 1 2) with 0.
    rewrite bool_decide_eq_false_2 by lia. rewrite Hscan. cbn. apply IH.
Qed.

Lemma X23_least_slack_one_stalls_witness :
  length (alpha huge2_stuck) = 2%nat ∧ length (beta huge2_stuck) = 2%nat ∧
  length (slack huge2_stuck) = 2%nat ∧
  (∀ i, (i < 2)%nat →
     ll_min ≤ alpha huge2_stuck !!! i ≤ ll_max ∧
     ll_min ≤ beta huge2_stuck !!! i ≤ ll_max ∧
     ll_min ≤ slack huge2_stuck !!! i ≤ ll_max) ∧
  min_slack 2 huge2_stuck = 1 ∧
  search_body 2 huge2_c huge2_stuck = Ok (Collected [] huge2_stuck) ∧
  (∀ fuel, search_augmenting_alternating_path fuel 2 huge2_c huge2_stuck
           = Err OutOfFuel) ∧
  (∀ i fuel, Part001.search_for i fuel 2 huge2_c huge2_stuck
             = Ok (Part001.FellThrough, huge2_stuck)).
Proof.
  assert (∀ i, (i < 2)%nat →
     ll_min ≤ alpha huge2_stuck !!! i ≤ ll_max ∧
     ll_min ≤ beta huge2_stuck !!! i ≤ ll_max ∧
     ll_min ≤ slack huge2_stuck !!! i ≤ ll_max) as Hrange.
  { intros i Hi. destruct i as [|[|i]]; [| |lia]; vm_compute; intuition discriminate. }
  split; [reflexivity|]. split; [reflexivity|]. split; [reflexivity|].
  split; [exact Hrange|]. split; [reflexivity|].
  apply (X23_least_slack_one_stalls 2 huge2_c huge2_stuck);
    [reflexivity|reflexivity|reflexivity|exact Hrange|reflexivity].
Defined.

(** ** The duals as a lower bound *)

(** X24: for every valid input, at the end of every phase, complete or not,
    the sum of the duals is at most twice the cost of any assignment: half
    of it is a lower bound of the optimal cost, reached after the last
    phase. *)
Theorem X24_duals_bound_every_assignment N inp c min_col fuel k tau :
  valid_input N inp → read_input N inp = (c, min_col) → (N ≤ fuel)%nat →
  (k ≤ N)%nat → is_assignment N tau →
  ∃ s, phases fuel N c k (initialize_alpha_beta N min_col) = Ok s ∧
    sum_upto (λ i, alpha s !!! i + beta s !!! i) N ≤ 2 * assignment_cost N inp tau ∧
    (k = N →
     sum_upto (λ i, alpha s !!! i + beta s !!! i) N
     = 2 * assignment_cost N inp (assignment_of s)).
Proof.
  intros Hvalid Eread Hfuel Hk Htau.
  destruct (valid_input_costs N inp c min_col Hvalid Eread) as [Hc Hcost].
  destruct (phases_arith N c min_col _ Hc fuel k Hfuel Hk)
    as (s & Eph & Hsz & Hm & Hd & Hr & Hcl).
  pose proof Hd as (Hfeas & Htight & _).
  assert (Hdouble : ∀ sigma, is_assignment N sigma →
    sum_upto (λ v, cost c v (sigma !!! v)) N = 2 * assignment_cost N inp sigma).
  { intros sigma Hs. unfold assignment_cost. rewrite <- sum_upto_double.
    apply sum_upto_ext. intros v Hv.
    destruct (Hcost v (sigma !!! v) Hv) as [-> _]; [by apply assignment_lt|done]. }
  exists s. split; [done|]. split.
  - rewrite <- (Hdouble _ Htau). by apply weak_duality.
  - intros ->.
    assert (perfect N s) as Hperf by (by apply perfect_of_counts).
    rewrite <- (Hdouble _ (perfect_assignment N s Hsz Hperf)).
    symmetry. by apply strong_duality.
Qed.

Lemma X24_duals_bound_every_assignment_witness :
  valid_input 5 example5 ∧
  read_input 5 example5 = (example5_c, example5_min_col) ∧ (5 ≤ 5)%nat ∧
  (3 ≤ 5)%nat ∧ is_assignment 5 (seq 0 5) ∧
  ∃ s, phases 5 5 example5_c 3 (initialize_alpha_beta 5 example5_min_col) = Ok s ∧
    sum_upto (λ i, alpha s !!! i + beta s !!! i) 5
      ≤ 2 * assignment_cost 5 example5 (seq 0 5) ∧
    (3%nat = 5%nat →
     sum_upto (λ i, alpha s !!! i + beta s !!! i) 5
     = 2 * assignment_cost 5 example5 (assignment_of s)).
Proof.
  assert (is_assignment 5 (seq 0 5)) as Hid by (unfold is_assignment; reflexivity).
  split; [exact example5_valid|]. split; [exact example5_read|]. split; [lia|].
  split; [lia|]. split; [exact Hid|].
  apply (X24_duals_bound_every_assignment 5 example5 example5_c example5_min_col
           5 3 (seq 0 5));
    [exact example5_valid|exact example5_read|lia|lia|exact Hid].
Defined.

(** ** Two calls of [update_slack] *)

(** X25: the slacks that two calls of [update_slack] leave do not depend on
    the order of the two rows (the [nhbor] may, when the bounds are equal). *)
Theorem X25_update_slack_commutes N c v w s u :
  length (slack s) = N → length (nhbor s) = N → (u < N)%nat →
  slack (update_slack N c w (update_slack N c v s)) !!! u =
  slack (update_slack N c v (update_slack N c w s)) !!! u.
Proof.
  intros Hs Hn Hu.
  assert (Hgen : ∀ a b,
    slack (update_slack N c b (update_slack N c a s)) !!! u =
    if unlabelled_U s u
    then Z.min (if bool_decide (0 ≤ bound c s a u)
                then Z.min (bound c s a u) (slack s !!! u) else slack s !!! u)
               (if bool_decide (0 ≤ bound c s b u)
                then Z.min (bound c s b u) (slack s !!! u) else slack s !!! u)
    else slack s !!! u).
  { intros a b.
    destruct (update_slack_spec N c a s Hs Hn) as (e1&e2&e3&e4&e5&e6&e7&l1&l2&H).
    destruct (update_slack_spec N c b (update_slack N c a s) l1 l2)
      as (_&_&_&_&_&_&_&_&_&H').
    specialize (H u Hu). specialize (H' u Hu).
    set (s1 := update_slack N c a s) in *.
    assert (bound c s1 b u = bound c s b u) as Eb
      by (unfold bound; by rewrite e4, e5).
    assert (unlabelled_U s1 u = unlabelled_U s u) as El
      by (unfold unlabelled_U; by rewrite e7).
    rewrite Eb, El in H'.
    destruct (unlabelled_U s u); cbn [andb] in H, H'.
    2:{ destruct H as [Es _], H' as [Es' _]. congruence. }
    destruct (bool_decide (0 ≤ bound c s a u)) eqn:Ea;
      destruct (bool_decide (0 ≤ bound c s b u)) eqn:Eb';
      cbn [andb] in H, H';
      destruct (bool_decide (bound c s a u < slack s !!! u)) eqn:E1;
      destruct (bool_decide (bound c s b u < slack s1 !!! u)) eqn:E2;
      repeat match goal with
      | H : bool_decide _ = true |- _ => apply bool_decide_eq_true in H
      | H : bool_decide _ = false |- _ => apply bool_decide_eq_false in H
      end;
      destruct H as [Es _], H' as [Es' _]; lia. }
  rewrite (Hgen v w), (Hgen w v). destruct (unlabelled_U s u); lia.
Qed.

Lemma X25_update_slack_commutes_witness :
  length (slack example5_t0) = 5%nat ∧ length (nhbor example5_t0) = 5%nat ∧
  (2 < 5)%nat ∧
  slack (update_slack 5 example5_c 1 (update_slack 5 example5_c 3 example5_t0)) !!! 2%nat =
  slack (update_slack 5 example5_c 3 (update_slack 5 example5_c 1 example5_t0)) !!! 2%nat.
Proof.
  split; [reflexivity|]. split; [reflexivity|]. split; [lia|].
  apply (X25_update_slack_commutes 5 example5_c 3 1 example5_t0 2); (reflexivity || lia).
Defined.
